(** * MMLU-Pro evaluation harness: a shallow embedding and its properties

    The development follows [mmlu_pro_benchmark.py] (and, for the answer
    extractor and the placeholder filter, [benchmarks/mmlu_pro_cot.py]).

    Conventions of the embedding.
    - A Python [str] of the dataset, of a prompt or of a model name is a
      [string]; a character is an [ascii], read as the code point of the
      same number (U+0000 .. U+00FF), and [str.lower] and [str.strip] are
      written out for this range as CPython defines them.
    - The text of a completion, which the backend is free to choose, is a
      list of code points of any size ([Uni.unicode]).  The character classes
      of [re] ([\s], [re.IGNORECASE], [[A-J]]) are written out for all code
      points; [\w] is written out below U+0100 and above that read from
      the Unicode database of the Python in use, a parameter
      ([UnicodeData]).
    - A Python [int] is a [Z]; a list index that Python would reject
      ([IndexError]) makes the modelled function return [None].
    - A [dict] read in insertion order (the domain table) is an association
      list; a [dict] or [Counter] used as a map is a [gmap].
    - A Python [float] is a [spec_float] of the binary64 format.
    - The tokenizer and the generation backend are parameters.
    - Functions are functions of the values of their arguments.  Where a
      property is about what a call does to the objects it is handed,
      [format_prompt] is written a second time over a store of lists and
      dicts ([Store], [Run]). *)

From Stdlib Require Import ZArith String Ascii List Lia SpecFloat.
From stdpp Require Import gmap strings list.

Local Open Scope Z_scope.

(** ** Characters and strings *)

Module PyStr.

Definition code (c : ascii) : N := N_of_ascii c.

Definition in_range (lo hi : N) (c : ascii) : bool :=
  ((lo <=? code c) && (code c <=? hi))%N.

(** [str.isspace] on one character: Unicode white space, which below
    U+0100 is TAB..CR, the separators U+001C..U+001F, the space, NEL and
    the no-break space. *)
Definition is_space (c : ascii) : bool :=
  in_range 9 13 c || in_range 28 32 c || (code c =? 133)%N || (code c =? 160)%N.

(** [str.lower] on one character: the ASCII capitals and the accented
    capitals of U+00C0..U+00DE move up by 32. *)
Definition lower_char (c : ascii) : ascii :=
  if in_range 65 90 c || in_range 192 214 c || in_range 216 222 c
  then ascii_of_N (code c + 32) else c.

Definition chars (s : string) : list ascii := list_ascii_of_string s.
Definition str (l : list ascii) : string := string_of_list_ascii l.

(** [s.lower()] *)
Definition lower (s : string) : string := str (map lower_char (chars s)).

(** [s.startswith(p)], on character lists. *)
Fixpoint starts_with (p s : list ascii) : bool :=
  match p, s with
  | [], _ => true
  | _ :: _, [] => false
  | a :: p', b :: s' => Ascii.eqb a b && starts_with p' s'
  end.

(** [p in s] for strings: [p] occurs in [s] as a contiguous block. *)
Fixpoint occurs_in (p s : list ascii) : bool :=
  starts_with p s ||
  match s with
  | [] => false
  | _ :: s' => occurs_in p s'
  end.

Definition contains (s p : string) : bool := occurs_in (chars p) (chars s).

(** [s.replace(old, new)] for a non-empty [old]: the occurrences of [old]
    are replaced leftmost first and do not overlap.  [skip] counts the
    characters of the occurrence just replaced that are still to be
    passed over. *)
Fixpoint replace_from (old new : list ascii) (skip : nat) (s : list ascii)
  : list ascii :=
  match s with
  | [] => []
  | c :: s' =>
      match skip with
      | S k => replace_from old new k s'
      | O =>
          if starts_with old s
          then new ++ replace_from old new (length old - 1)%nat s'
          else c :: replace_from old new O s'
      end
  end.

Definition replace (s old new : string) : string :=
  str (replace_from (chars old) (chars new) O (chars s)).

End PyStr.

(** ** Python sequences *)

Module PySeq.

(** [l[i]] for a Python [int] index: a negative index counts from the end,
    and an index outside [-len .. len-1] raises [IndexError] ([None]). *)
Definition index {A} (l : list A) (i : Z) : option A :=
  let n := Z.of_nat (length l) in
  if (0 <=? i) && (i <? n) then l !! Z.to_nat i
  else if (- n <=? i) && (i <? 0) then l !! Z.to_nat (i + n)
  else None.

(** [l[:k]] for a Python [int] bound: a negative bound counts from the
    end, and the slice never raises. *)
Definition slice_to {A} (l : list A) (k : Z) : list A :=
  if 0 <=? k then take (Z.to_nat k) l
  else take (Z.to_nat (Z.of_nat (length l) + k)) l.

(** [range(start, -1, -1)] as the list of the values it yields. *)
Definition range_down (start : Z) : list Z :=
  map (fun i : nat => start - Z.of_nat i) (seq 0 (Z.to_nat (start + 1))).

End PySeq.

Import PyStr PySeq.
Local Open Scope string_scope.
Local Open Scope list_scope.
Local Open Scope Z_scope.

(** ** Module constants *)

Definition CHOICES : list string :=
  ["A"; "B"; "C"; "D"; "E"; "F"; "G"; "H"; "I"; "J"].

(** The table is a [dict] literal; [.items()] yields it in this order. *)
Definition DOMAIN_MAPPING : list (string * string) :=
  [ ("math", "STEM");
    ("physics", "STEM");
    ("chemistry", "STEM");
    ("biology", "STEM");
    ("computer science", "STEM");
    ("engineering", "STEM");
    ("statistics", "STEM");
    ("economics", "Social Sciences");
    ("psychology", "Social Sciences");
    ("business", "Social Sciences");
    ("law", "Humanities");
    ("philosophy", "Humanities");
    ("history", "Humanities");
    ("health", "Other");
    ("other", "Other") ].

(** ** get_domain *)

(** The [for key, domain in ...: if key in cat_lower: return ...] loop over
    a rule table: the first rule whose key occurs in the text. *)
Fixpoint first_rule (rules : list (string * string)) (cat_lower : string)
  : option (string * string) :=
  match rules with
  | [] => None
  | (key, domain) :: rest =>
      if contains cat_lower key then Some (key, domain)
      else first_rule rest cat_lower
  end.

Definition get_domain_in (rules : list (string * string)) (category : string)
  : string :=
  match first_rule rules (lower category) with
  | Some (_, domain) => domain
  | None => "Other"
  end.

Definition get_domain (category : string) : string :=
  get_domain_in DOMAIN_MAPPING category.

(** ** preprocess_dataset *)

(** A raw dataset row.  The keys read with [item[...]] are fields; the keys
    read with [item.get(..., default)] are optional. *)
Record RawItem := {
  raw_question_id : option Z;
  raw_question : string;
  raw_options : list string;
  raw_answer : string;
  raw_answer_index : Z;
  raw_category : string;
  raw_cot_content : option string;
  raw_src : option string
}.

Record Item := {
  question_id : Z;
  question : string;
  options : list string;
  answer : string;
  answer_index : Z;
  category : string;
  cot_content : string;
  src : string
}.

Definition PLACEHOLDER : string := "N/A".

(** [[opt for opt in options if opt != "N/A"]] *)
Definition drop_placeholders (opts : list string) : list string :=
  List.filter (fun opt => negb (String.eqb opt PLACEHOLDER)) opts.

(** The dict appended in one turn of the loop; [position] is
    [len(processed)] at that turn. *)
Definition preprocess_item (position : nat) (item : RawItem) : Item :=
  {| question_id := default (Z.of_nat position) (raw_question_id item);
     question := raw_question item;
     options := drop_placeholders (raw_options item);
     answer := raw_answer item;
     answer_index := raw_answer_index item;
     category := raw_category item;
     cot_content := default EmptyString (raw_cot_content item);
     src := default EmptyString (raw_src item) |}.

Definition preprocess_dataset (dataset : list RawItem) : list Item :=
  fold_left (fun processed item =>
               processed ++ [preprocess_item (length processed) item])
            dataset [].

(** ** format_prompt *)

Definition NL : string := String (ascii_of_nat 10) EmptyString.
Definition DQUOTE : string := String (ascii_of_nat 34) EmptyString.

(** ["".join(parts)] *)
Definition join (parts : list string) : string :=
  String.concat EmptyString parts.

Definition instruction (category : string) : string :=
  "The following are multiple choice questions (with answers) about "
  +:+ category +:+ ". "
  +:+ "Think step by step and then finish your answer with "
  +:+ DQUOTE +:+ "the answer is (X)" +:+ DQUOTE +:+ " "
  +:+ "where X is the correct letter choice." +:+ NL +:+ NL.

(** [for i, opt in enumerate(opts): parts.append(f"{CHOICES[i]}. {opt}\n")],
    from index [i] on; [CHOICES[i]] raises from the eleventh option on. *)
Fixpoint option_lines (i : nat) (opts : list string) : option (list string) :=
  match opts with
  | [] => Some []
  | opt :: rest =>
      letter ← CHOICES !! i;
      lines ← option_lines (S i) rest;
      Some ((letter +:+ ". " +:+ opt +:+ NL) :: lines)
  end.

Definition COT_OLD : string := "A: Let's think step by step.".
Definition COT_NEW : string := "Answer: Let's think step by step.".

(** The last part of a few-shot example: the rationale with its marker
    rewritten, or the bare answer line. *)
Definition example_answer (use_cot : bool) (ex : Item) : option string :=
  if use_cot && negb (String.eqb (cot_content ex) EmptyString)
  then Some (replace (cot_content ex) COT_OLD COT_NEW +:+ NL +:+ NL)
  else
    letter ← index CHOICES (answer_index ex);
    Some ("Answer: The answer is (" +:+ letter +:+ ")." +:+ NL +:+ NL).

(** The parts one few-shot example appends. *)
Definition example_parts (use_cot : bool) (ex : Item) : option (list string) :=
  lines ← option_lines 0%nat (options ex);
  last ← example_answer use_cot ex;
  Some (["Question:" +:+ NL; question ex +:+ NL; "Options:" +:+ NL]
        ++ lines ++ [last]).

(** [for ex in few_shot_examples: ...] *)
Fixpoint examples_parts (use_cot : bool) (exs : list Item)
  : option (list string) :=
  match exs with
  | [] => Some []
  | ex :: rest =>
      parts ← example_parts use_cot ex;
      more ← examples_parts use_cot rest;
      Some (parts ++ more)
  end.

(** [few_shot_examples] is [None] or a list; [if few_shot_examples:] is
    false for both [None] and the empty list. *)
Definition format_prompt (question : string) (options : list string)
    (category : string) (few_shot_examples : option (list Item))
    (use_cot : bool) : option string :=
  shots ← match few_shot_examples with
          | Some (ex :: rest) => examples_parts use_cot (ex :: rest)
          | _ => Some []
          end;
  lines ← option_lines 0%nat options;
  Some (join ([instruction category] ++ shots
              ++ ["Question:" +:+ NL; question +:+ NL; "Options:" +:+ NL]
              ++ lines ++ ["Answer: Let's think step by step."])).

(** ** evaluate_mmlu_pro: row limit, few-shot pool and prompts *)

(** [if total_limit: test_data = test_data[:total_limit]]: [None] and [0]
    are both false. *)
Definition apply_total_limit {A} (total_limit : option Z) (test_data : list A)
  : list A :=
  match total_limit with
  | None => test_data
  | Some n => if n =? 0 then test_data else slice_to test_data n
  end.

(** One turn of the loop that fills [val_by_category]. *)
Definition val_step (val_by_category : gmap string (list Item)) (item : Item)
  : gmap string (list Item) :=
  let cat := category item in
  <[cat := default [] (val_by_category !! cat) ++ [item]]> val_by_category.

Definition group_by_category (val_data : list Item) : gmap string (list Item) :=
  fold_left val_step val_data ∅.

(** [val_by_category.get(category, [])[:num_few_shot]] *)
Definition select_few_shot (val_by_category : gmap string (list Item))
    (category : string) (num_few_shot : Z) : list Item :=
  slice_to (default [] (val_by_category !! category)) num_few_shot.

Definition RESERVED_TOKENS : Z := 2048.

Section Prompts.

(** [tokenizer.encode]: the token ids of a text. *)
Variable tokenizer_encode : string -> list Z.

Variable max_model_len : Z.
Variable use_cot : bool.

Definition budget : Z := max_model_len - RESERVED_TOKENS.

Definition token_len (prompt : string) : Z :=
  Z.of_nat (length (tokenizer_encode prompt)).

(** The prompt of [item] with the first [k] of [few_shot]
    ([few_shot[:k] if k > 0 else None]). *)
Definition rebuild (item : Item) (few_shot : list Item) (k : Z)
  : option string :=
  format_prompt (question item) (options item) (category item)
                (if 0 <? k then Some (slice_to few_shot k) else None) use_cot.

(** [for k in ks: prompt = rebuild k; if it fits: break]; the value of
    [prompt] when the loop is left. *)
Fixpoint shrink (item : Item) (few_shot : list Item) (ks : list Z)
    (prompt : string) : option string :=
  match ks with
  | [] => Some prompt
  | k :: ks' =>
      p ← rebuild item few_shot k;
      if token_len p <=? budget then Some p
      else shrink item few_shot ks' p
  end.

(** The body of [for item in test_data], up to [prompts.append(prompt)]. *)
Definition build_prompt (val_by_category : gmap string (list Item))
    (num_few_shot : Z) (item : Item) : option string :=
  let few_shot :=
    select_few_shot val_by_category (category item) num_few_shot in
  prompt ← format_prompt (question item) (options item) (category item)
             (if 0 <? num_few_shot then Some few_shot else None) use_cot;
  if token_len prompt >? budget
  then shrink item few_shot (range_down (num_few_shot - 1)) prompt
  else Some prompt.

(** The whole loop: the list [prompts] (and [test_items], which is the
    list of the items visited), or [None] when some turn raises. *)
Fixpoint build_prompts (val_by_category : gmap string (list Item))
    (num_few_shot : Z) (test_data : list Item) : option (list string) :=
  match test_data with
  | [] => Some []
  | item :: rest =>
      prompt ← build_prompt val_by_category num_few_shot item;
      prompts ← build_prompts val_by_category num_few_shot rest;
      Some (prompt :: prompts)
  end.

End Prompts.

(** ** The text of a completion *)

Module Uni.

(** A Python [str] the backend returns: its code points. *)
Definition unicode : Type := list N.

(** The code points of a string of the dataset or of a prompt. *)
Definition codes (s : string) : unicode := map code (chars s).

(** What the scripts read from the Unicode character database of the
    Python that runs them, for the code points from U+0100 on:
    [str.isalnum] and [str.isalpha] on one code point.  The database
    belongs to the interpreter and grows from one version to the next, so
    it is a parameter: what is proved holds for every database. *)
Class UnicodeData := {
  isalnum_wide : N -> bool;
  isalpha_wide : N -> bool
}.

Definition between (lo hi c : N) : bool := ((lo <=? c) && (c <=? hi))%N.

(** The regex class [[A-J]]. *)
Definition is_AJ (c : N) : bool := between 65 74 c.

(** The regex class [[A-J]] under [re.IGNORECASE].  The compiled class
    holds the small letters a..j and, as the other case of i, the dotless
    i (U+0131); a code point matches when its lower case is in the class.
    These are the letters A-J of both cases, the dotted capital I (U+0130),
    whose lower case is i, and the dotless i. *)
Definition is_AJ_ci (c : N) : bool :=
  (between 65 74 c || between 97 106 c || (c =? 304) || (c =? 305))%N.

(** The code points that match the ASCII character [p] of a pattern
    compiled with [re.IGNORECASE]: [p], its other case, and the code
    points that Unicode gives the same case as a letter of [p]: U+0130
    and U+0131 for i, the long s (U+017F) for s, the Kelvin sign (U+212A)
    for k. *)
Definition matches_ci (p c : N) : bool :=
  ((c =? p)
   || (between 97 122 p && (c =? p - 32))
   || (between 65 90 p && (c =? p + 32))
   || (((p =? 105) || (p =? 73)) && ((c =? 304) || (c =? 305)))
   || (((p =? 115) || (p =? 83)) && (c =? 383))
   || (((p =? 107) || (p =? 75)) && (c =? 8490)))%N.

(** [\s] of a [str] pattern and [str.isspace]: Unicode white space. *)
Definition is_white (c : N) : bool :=
  (between 9 13 c || between 28 32 c || (c =? 133) || (c =? 160)
   || (c =? 5760) || between 8192 8202 c || between 8232 8233 c
   || (c =? 8239) || (c =? 8287) || (c =? 12288))%N.

(** [str.isalnum] below U+0100: the ASCII digits and letters, the ordinal
    indicators, the micro sign, the superscript digits, the vulgar
    fractions and the accented letters (all of U+00C0..U+00FF but the
    multiplication and the division sign). *)
Definition isalnum_latin (c : N) : bool :=
  (between 48 57 c || between 65 90 c || between 97 122 c
   || (c =? 170) || between 178 179 c || (c =? 181)
   || between 185 186 c || between 188 190 c
   || between 192 214 c || between 216 246 c || between 248 255 c)%N.

(** [str.isalpha] below U+0100. *)
Definition isalpha_latin (c : N) : bool :=
  (between 65 90 c || between 97 122 c
   || (c =? 170) || (c =? 181) || (c =? 186)
   || between 192 214 c || between 216 246 c || between 248 255 c)%N.

(** [\w] of a [str] pattern: an alphanumeric character or the
    underscore. *)
Definition is_word `{UnicodeData} (c : N) : bool :=
  ((if c <? 256 then isalnum_latin c else isalnum_wide c) || (c =? 95))%N.

(** [str.isalpha] on one character. *)
Definition is_letter `{UnicodeData} (c : N) : bool :=
  (if c <? 256 then isalpha_latin c else isalpha_wide c)%N.

(** [str.upper] on the one character a group of [extract_answer] holds, a
    member of [[A-J]] under [re.IGNORECASE]: a small letter becomes its
    capital, the dotless i becomes I, and a capital, the dotted capital I
    included, stays as it is. *)
Definition upper_letter (c : N) : N :=
  (if between 97 122 c then c - 32 else if c =? 305 then 73 else c)%N.

(** [s.lstrip()] and [s.strip()]: white space removed at the ends. *)
Fixpoint lstrip_text (s : unicode) : unicode :=
  match s with
  | c :: s' => if is_white c then lstrip_text s' else s
  | [] => []
  end.

Definition strip_text (s : unicode) : unicode :=
  rev (lstrip_text (rev (lstrip_text s))).

End Uni.

Import Uni.

(** ** extract_answer

    The three patterns are matched as [re.search] matches them: the start
    positions are tried from left to right, and at each position the
    pattern is matched against the text from there on.  A position is the
    character before it, if any, and the text after it. *)

Module Regex.

Section WordBoundary.

Context `{UnicodeData}.

Definition is_word_opt (o : option N) : bool :=
  match o with
  | Some c => is_word c
  | None => false
  end.

(** [\b]: exactly one side of the position is a word character. *)
Definition word_boundary (prev : option N) (rest : unicode) : bool :=
  xorb (is_word_opt prev) (is_word_opt (head rest)).

End WordBoundary.

(** A literal under [re.IGNORECASE]; the text after it when it matches. *)
Fixpoint lit_ci (p s : unicode) : option unicode :=
  match p, s with
  | [], _ => Some s
  | _ :: _, [] => None
  | a :: p', b :: s' => if matches_ci a b then lit_ci p' s' else None
  end.

(** A case-sensitive literal. *)
Fixpoint lit (p s : unicode) : option unicode :=
  match p, s with
  | [], _ => Some s
  | _ :: _, [] => None
  | a :: p', b :: s' => if (a =? b)%N then lit p' s' else None
  end.

(** [\s*], greedy: the text after the white space. *)
Fixpoint skip_spaces (s : unicode) : unicode :=
  match s with
  | c :: s' => if is_white c then skip_spaces s' else s
  | [] => []
  end.

(** [answer is \(?([A-J])\)?] with [re.IGNORECASE], at one position: the
    character of group 1.  After a parenthesis taken by [\(?] the letter
    must follow; giving the parenthesis back cannot help, a parenthesis
    is no letter.  The closing [\)?] never fails. *)
Definition pattern1_at (s : unicode) : option N :=
  rest ← lit_ci (codes "answer is ") s;
  match rest with
  | c :: rest' =>
      if (c =? 40)%N
      then match rest' with
           | d :: _ => if is_AJ_ci d then Some d else None
           | [] => None
           end
      else if is_AJ_ci c then Some c else None
  | [] => None
  end.

(** [[aA]nswer:\s*([A-J])] at one position.  White space given back by
    [\s*] is no letter, so only the longest run can be followed by one. *)
Definition pattern2_at (s : unicode) : option N :=
  match s with
  | a :: s1 =>
      if ((a =? 97) || (a =? 65))%N
      then
        rest ← lit (codes "nswer:") s1;
        match skip_spaces rest with
        | d :: _ => if is_AJ d then Some d else None
        | [] => None
        end
      else None
  | [] => None
  end.

Section Standalone.

Context `{UnicodeData}.

(** [\b([A-J])\b] at one position. *)
Definition standalone_at (prev : option N) (s : unicode) : option N :=
  match s with
  | c :: rest =>
      if word_boundary prev s && is_AJ c && word_boundary (Some c) rest
      then Some c else None
  | [] => None
  end.

(** [.*\b[A-J]\b] with [re.DOTALL] at one position: [.*] can stop before
    every later position, so the pattern matches when [\b[A-J]\b] does at
    this position or a later one. *)
Fixpoint standalone_from (prev : option N) (s : unicode) : bool :=
  bool_decide (is_Some (standalone_at prev s)) ||
  match s with
  | c :: s' => standalone_from (Some c) s'
  | [] => false
  end.

(** [\b([A-J])\b(?!.*\b[A-J]\b)] with [re.DOTALL] at one position. *)
Definition pattern3_at (prev : option N) (s : unicode) : option N :=
  c ← standalone_at prev s;
  if standalone_from (Some c) (tail s) then None else Some c.

End Standalone.

(** [re.search]: the match at the leftmost position that has one. *)
Fixpoint search (at_pos : option N -> unicode -> option N)
    (prev : option N) (s : unicode) : option N :=
  match at_pos prev s with
  | Some c => Some c
  | None =>
      match s with
      | c :: s' => search at_pos (Some c) s'
      | [] => None
      end
  end.

End Regex.

(** [m.group(1).upper()] for the one-character group. *)
Definition group_upper (c : N) : unicode := [upper_letter c].

Definition extract_answer `{UnicodeData} (text : unicode) : option unicode :=
  match Regex.search (fun _ => Regex.pattern1_at) None text with
  | Some c => Some (group_upper c)
  | None =>
      match Regex.search (fun _ => Regex.pattern2_at) None text with
      | Some c => Some (group_upper c)
      | None =>
          match Regex.search Regex.pattern3_at None text with
          | Some c => Some (group_upper c)
          | None => None
          end
      end
  end.

(** ** evaluate_mmlu_pro: scoring *)

(** [collections.Counter]: a missing key reads as [0]. *)
Module Counter.

Definition get (c : gmap string Z) (k : string) : Z := default 0 (c !! k).

(** [c[k] += 1] *)
Definition incr (c : gmap string Z) (k : string) : gmap string Z :=
  <[k := get c k + 1]> c.

(** [sum(c.values())] *)
Definition total (c : gmap string Z) : Z :=
  map_fold (fun _ v acc => v + acc) 0 c.

End Counter.

(** [float(n)] and [a / b] on integers of at most 53 bits, which the
    binary64 format holds exactly; the quotient is rounded to nearest
    even.  The divisor of every call is [max(1, _)], never [0]. *)
Definition float_of_int (n : Z) : spec_float :=
  binary_normalize 53 1024 n 0 false.

Definition truediv (a b : Z) : spec_float :=
  SFdiv 53 1024 (float_of_int a) (float_of_int b).

(** A [RequestOutput] of the backend: the texts of its completions. *)
Definition RequestOutput : Type := list unicode.

(** [output.outputs[0].text if output.outputs else ""] *)
Definition generated_text_of (output : RequestOutput) : unicode :=
  match output with
  | text :: _ => text
  | [] => []
  end.

(** [pred == correct_answer]: [None] equals no string, and two strings
    are equal when their code points are. *)
Definition pred_eq (pred : option unicode) (correct_answer : string) : bool :=
  match pred with
  | Some p => bool_decide (p = codes correct_answer)
  | None => false
  end.

Record SampleRow := {
  row_idx : Z;
  row_question_id : Z;
  row_category : string;
  row_domain : string;
  row_answer : string;
  row_pred : option unicode;
  row_correct : Z;
  row_model_output : unicode
}.

(** The variables the scoring loop updates. *)
Record Tally := {
  sample_rows : list SampleRow;
  by_category_correct : gmap string Z;
  by_category_total : gmap string Z;
  by_domain_correct : gmap string Z;
  by_domain_total : gmap string Z
}.

Definition empty_tally : Tally :=
  {| sample_rows := []; by_category_correct := ∅; by_category_total := ∅;
     by_domain_correct := ∅; by_domain_total := ∅ |}.

(** The body of [for i, (item, output) in enumerate(zip(...))]. *)
Definition score_step `{UnicodeData} (i : nat) (item : Item)
    (output : RequestOutput) (t : Tally) : option Tally :=
  let generated_text := generated_text_of output in
  let pred := extract_answer generated_text in
  correct_answer ← index CHOICES (answer_index item);
  let is_correct := pred_eq pred correct_answer in
  let cat := category item in
  let domain := get_domain cat in
  Some {| sample_rows :=
            sample_rows t ++
            [ {| row_idx := Z.of_nat i;
                 row_question_id := question_id item;
                 row_category := cat;
                 row_domain := domain;
                 row_answer := correct_answer;
                 row_pred := pred;
                 row_correct := if is_correct then 1 else 0;
                 row_model_output := take 500 generated_text |} ];
          by_category_correct :=
            if is_correct then Counter.incr (by_category_correct t) cat
            else by_category_correct t;
          by_category_total := Counter.incr (by_category_total t) cat;
          by_domain_correct :=
            if is_correct then Counter.incr (by_domain_correct t) domain
            else by_domain_correct t;
          by_domain_total := Counter.incr (by_domain_total t) domain |}.

Fixpoint score_loop `{UnicodeData} (i : nat)
    (pairs : list (Item * RequestOutput)) (t : Tally) : option Tally :=
  match pairs with
  | [] => Some t
  | (item, output) :: rest =>
      t' ← score_step i item output t;
      score_loop (S i) rest t'
  end.

(** The [overall] dict, without its two timing entries and the constant
    [completion_rate]. *)
Record Overall := {
  overall_accuracy : spec_float;
  total_questions : Z;
  total_correct : Z;
  total_wrong : Z;
  failed_questions : Z
}.

Record Report := {
  overall : Overall;
  by_category : gmap string spec_float;
  by_domain : gmap string spec_float;
  rows : list SampleRow
}.

(** [{k: correct[k] / max(1, total[k]) for k in sorted(total.keys())}],
    as a map; the order of its keys is not kept. *)
Definition accuracy_map (correct total : gmap string Z)
  : gmap string spec_float :=
  map_imap (fun k _ => Some (truediv (Counter.get correct k)
                                     (Z.max 1 (Counter.get total k)))) total.

(** The code after the scoring loop. *)
Definition finalize (t : Tally) : Report :=
  let correct := Counter.total (by_category_correct t) in
  let count := Counter.total (by_category_total t) in
  {| overall :=
       {| overall_accuracy := truediv correct (Z.max 1 count);
          total_questions := count;
          total_correct := correct;
          total_wrong := count - correct;
          failed_questions := 0 |};
     by_category := accuracy_map (by_category_correct t) (by_category_total t);
     by_domain := accuracy_map (by_domain_correct t) (by_domain_total t);
     rows := sample_rows t |}.

(** [score]: the scoring loop and the code after it. *)
Definition score `{UnicodeData} (test_items : list Item)
    (outputs : list RequestOutput) : option Report :=
  t ← score_loop 0 (zip test_items outputs) empty_tally;
  Some (finalize t).

Section Evaluate.

Context `{UnicodeData}.

Variable tokenizer_encode : string -> list Z.

(** [llm.generate(prompts, sampling_params)] *)
Variable llm_generate : list string -> list RequestOutput.

Definition evaluate_mmlu_pro (test_split validation_split : list RawItem)
    (max_model_len : Z) (total_limit : option Z) (num_few_shot : Z)
    (use_cot : bool) : option Report :=
  let test_data :=
    apply_total_limit total_limit (preprocess_dataset test_split) in
  let val_data := preprocess_dataset validation_split in
  let val_by_category := group_by_category val_data in
  prompts ← build_prompts tokenizer_encode max_model_len use_cot
              val_by_category num_few_shot test_data;
  let test_items := test_data in
  let outputs := llm_generate prompts in
  score test_items outputs.

End Evaluate.

(** ** print_results_summary and the exit code of main *)

(** [passed = overall['overall_accuracy'] >= acceptance_threshold], the
    value the function returns. *)
Definition print_results_summary (ov : Overall)
    (acceptance_threshold : spec_float) : bool :=
  SFleb acceptance_threshold (overall_accuracy ov).

(** [if not passed: sys.exit(1)]; a [main] that returns ends the process
    with code [0]. *)
Definition main_exit_code (ov : Overall) (acceptance_threshold : spec_float)
  : Z :=
  if print_results_summary ov acceptance_threshold then 0 else 1.

(** ** map_model_alias *)

Module PyText.

(** [s.lstrip()] on characters; [str.isspace] and [\s] agree below
    U+0100. *)
Fixpoint lstrip_chars (s : list ascii) : list ascii :=
  match s with
  | c :: s' => if is_space c then lstrip_chars s' else s
  | [] => []
  end.

(** [s.strip()]: white space removed at both ends. *)
Definition strip (s : string) : string :=
  str (rev (lstrip_chars (rev (lstrip_chars (chars s))))).

End PyText.

Import PyText.

(** The set literal of [map_model_alias]. *)
Definition MODEL_ALIASES : gset string :=
  {[ "llama3.1-8b-instruct"; "llama-3.1-8b-instruct"; "llama31-8b"; "llama3.1" ]}.

Definition LLAMA_MODEL_ID : string := "meta-llama/Llama-3.1-8B-Instruct".

Definition map_model_alias (alias : string) : string :=
  let canon := lower (strip alias) in
  if bool_decide (canon ∈ MODEL_ALIASES) then LLAMA_MODEL_ID else alias.

(** ** benchmarks/mmlu_pro_cot.py

    The script reads the same dataset rows; its items are [Item]s. *)

Module Cot.

Definition K_SHOT : Z := 5.

(** [[d for d in data if d['category'] == category]] *)
Definition select_by_category (data : list Item) (cat : string) : list Item :=
  List.filter (fun d => String.eqb (category d) cat) data.

(** The prompt is built by [+=]; [CHOICES[i]] raises from the eleventh
    option on. *)
Definition format_cot_example (example : Item) (include_answer : bool)
  : option string :=
  lines ← option_lines 0%nat (options example);
  let prompt :=
    ("Question:" +:+ NL +:+ question example) +:+ (NL +:+ "Options:" +:+ NL) in
  let prompt := fold_left String.append lines prompt in
  Some (if include_answer
        then
          let cot := cot_content example in
          if negb (String.eqb cot EmptyString)
          then prompt +:+ (replace cot COT_OLD COT_NEW +:+ NL +:+ NL)
          else prompt
        else prompt +:+ "Answer: Let's think step by step.").

(** [for ex in same_cat: prompt += format_cot_example(ex, True)] *)
Fixpoint append_examples (prompt : string) (same_cat : list Item)
  : option string :=
  match same_cat with
  | [] => Some prompt
  | ex :: rest =>
      text ← format_cot_example ex true;
      append_examples (prompt +:+ text) rest
  end.

Definition generate_cot_prompt (val_data : list Item) (curr : Item) (k : Z)
  : option string :=
  let cat := category curr in
  let prompt := instruction cat in
  let same_cat := slice_to (select_by_category val_data cat) k in
  prompt ← append_examples prompt same_cat;
  text ← format_cot_example curr false;
  Some (prompt +:+ text).

(** [[extract_answer(o.outputs[0].text) for o in outputs]]; an output
    with no completion raises [IndexError]. *)
Fixpoint predictions_of `{UnicodeData} (outputs : list RequestOutput)
  : option (list (option unicode)) :=
  match outputs with
  | [] => Some []
  | o :: rest =>
      text ← head o;
      preds ← predictions_of rest;
      Some (extract_answer text :: preds)
  end.

(** An entry of [category_stats]. *)
Record CatStat := { stat_correct : Z; stat_total : Z }.

(** [category_stats[cat]] on the [defaultdict]. *)
Definition stat_of (stats : gmap string CatStat) (cat : string) : CatStat :=
  default {| stat_correct := 0; stat_total := 0 |} (stats !! cat).

(** The body of [for i, item in enumerate(test_data)]; [predictions[i]]
    raises past the end of the list. *)
Definition tally_step (predictions : list (option unicode)) (i : nat)
    (item : Item) (acc : Z * gmap string CatStat)
  : option (Z * gmap string CatStat) :=
  pred ← predictions !! i;
  let is_correct := pred_eq pred (answer item) in
  let cat := category item in
  let st := stat_of acc.2 cat in
  Some (if is_correct then acc.1 + 1 else acc.1,
        <[cat := {| stat_correct :=
                      if is_correct then stat_correct st + 1 else stat_correct st;
                    stat_total := stat_total st + 1 |}]> acc.2).

Fixpoint tally_loop (predictions : list (option unicode)) (i : nat)
    (test_data : list Item) (acc : Z * gmap string CatStat)
  : option (Z * gmap string CatStat) :=
  match test_data with
  | [] => Some acc
  | item :: rest =>
      acc' ← tally_step predictions i item acc;
      tally_loop predictions (S i) rest acc'
  end.

(** The literal [0.35]. *)
Definition PASS_ACCURACY : spec_float := S754_finite false 6305039478318694 (-54).

(** [acc = correct / total], which raises [ZeroDivisionError] for an
    empty test set, and the status. *)
Definition accuracy_of (correct total : Z) : option spec_float :=
  if total =? 0 then None else Some (truediv correct total).

(** [total/elapsed] in the line that prints the throughput: the quotient
    of an [int] by a [float], which raises [ZeroDivisionError] when the
    divisor is zero of either sign. *)
Definition throughput (total : Z) (elapsed : spec_float) : option spec_float :=
  match elapsed with
  | S754_zero _ => None
  | _ => Some (SFdiv 53 1024 (float_of_int total) elapsed)
  end.

Record Outcome := {
  out_correct : Z;
  out_total : Z;
  out_stats : gmap string CatStat;
  out_exit_code : Z
}.

(** [main] from the outputs of the backend on: the value handed to
    [sys.exit].  [elapsed] is [time.time() - t0], the time the clock
    shows for the generation. *)
Definition main_score `{UnicodeData} (test_data : list Item)
    (outputs : list RequestOutput) (elapsed : spec_float) : option Outcome :=
  let total := Z.of_nat (length test_data) in
  predictions ← predictions_of outputs;
  res ← tally_loop predictions 0 test_data (0, ∅);
  acc ← accuracy_of res.1 total;
  _ ← throughput total elapsed;
  Some {| out_correct := res.1; out_total := total; out_stats := res.2;
          out_exit_code := if SFleb PASS_ACCURACY acc then 0 else 1 |}.

End Cot.

(** ** benchmarks/mlperf_summarization.py: batching *)

Module Summarization.

Definition BATCH_SIZE : nat := 32.

(** [range(0, n, batch_size)] for a positive step. *)
Definition range_step (n step : nat) : list nat :=
  map (fun j => (j * step)%nat) (seq 0 ((n + step - 1) / step)).

(** [prompts[i:i+batch_size]] for each [i] of the range. *)
Definition batches {A} (batch_size : nat) (prompts : list A) : list (list A) :=
  map (fun i => take batch_size (drop i prompts))
      (range_step (length prompts) batch_size).

Section Batching.

Variable llm_generate : list string -> list RequestOutput.

(** [for output in outputs: preds.append(output.outputs[0].text.strip())] *)
Fixpoint collect (outputs : list RequestOutput) : option (list unicode) :=
  match outputs with
  | [] => Some []
  | o :: rest =>
      text ← head o;
      preds ← collect rest;
      Some (strip_text text :: preds)
  end.

(** The batch loop: [preds] after the batches given. *)
Fixpoint run_batches (bs : list (list string)) : option (list unicode) :=
  match bs with
  | [] => Some []
  | batch :: rest =>
      preds ← collect (llm_generate batch);
      more ← run_batches rest;
      Some (preds ++ more)
  end.

Definition predict_all (prompts : list string) : option (list unicode) :=
  run_batches (batches BATCH_SIZE prompts).

End Batching.

End Summarization.

(** ** format_prompt on the objects of the interpreter

    [format_prompt] is handed references: its option list, its example
    list and the dicts of the examples are objects the caller keeps and
    hands over again, and [CHOICES] is an object of the module.  What a
    second call returns depends on what the first did to these objects,
    so the function is written once more here, statement by statement,
    over a store of objects.  A [for] loop runs over the items its list
    holds when the loop starts; the loops of [format_prompt] write to no
    list but [prompt_parts], over which no loop runs. *)

Module Store.

Inductive value : Type :=
  | VNone
  | VStr (s : string)
  | VInt (n : Z)
  | VRef (l : nat).

(** The mutable objects: lists and dicts with string keys. *)
Inductive object : Type :=
  | OList (items : list value)
  | ODict (entries : gmap string value).

(** A computation: from a store, a result and the store it leaves, or
    [None] when an exception is raised.  The store is the list of the
    objects: the object of reference [l] is at position [l], and a new
    object is put at the end. *)
Definition M (A : Type) : Type := list object -> option (A * list object).

#[global] Instance M_ret : MRet M := fun A a h => Some (a, h).

#[global] Instance M_bind : MBind M := fun A B f m h =>
  match m h with
  | Some (a, h') => f a h'
  | None => None
  end.

Definition raise {A} : M A := fun _ => None.

(** [[]]: a new list. *)
Definition new_list : M nat := fun h => Some (length h, h ++ [OList []]).

(** [l[:k]]: a new list. *)
Definition new_slice (items : list value) (k : Z) : M value :=
  fun h => Some (VRef (length h), h ++ [OList (slice_to items k)]).

(** The items of a list, as [for x in v] and [enumerate(v)] read them. *)
Definition items_of (v : value) : M (list value) := fun h =>
  match v with
  | VRef l =>
      match h !! l with
      | Some (OList items) => Some (items, h)
      | _ => None
      end
  | _ => None
  end.

(** [l.append(v)] *)
Definition list_append (l : nat) (v : value) : M unit := fun h =>
  match h !! l with
  | Some (OList items) => Some (tt, <[l := OList (items ++ [v])]> h)
  | _ => None
  end.

(** [d[key]], which raises [KeyError] for a missing key. *)
Definition dict_getitem (d : value) (key : string) : M value := fun h =>
  match d with
  | VRef l =>
      match h !! l with
      | Some (ODict entries) =>
          match entries !! key with
          | Some v => Some (v, h)
          | None => None
          end
      | _ => None
      end
  | _ => None
  end.

(** [d.get(key)], which is [None] for a missing key. *)
Definition dict_get (d : value) (key : string) : M value := fun h =>
  match d with
  | VRef l =>
      match h !! l with
      | Some (ODict entries) => Some (default VNone (entries !! key), h)
      | _ => None
      end
  | _ => None
  end.

(** [l[i]] on a list, which raises [IndexError] out of range. *)
Definition list_getitem (l : value) (i : Z) : M value :=
  items ← items_of l;
  match index items i with
  | Some v => mret v
  | None => raise
  end.

(** The truth value of an object in a condition. *)
Definition truthy (v : value) : M bool := fun h =>
  match v with
  | VNone => Some (false, h)
  | VStr s => Some (negb (String.eqb s EmptyString), h)
  | VInt n => Some (negb (n =? 0), h)
  | VRef l =>
      match h !! l with
      | Some (OList items) => Some (negb (bool_decide (items = [])), h)
      | Some (ODict entries) => Some (negb (bool_decide (entries = ∅)), h)
      | None => None
      end
  end.

(** A value where the code needs a [str] or an [int]; the rows of the
    dataset hold such values, and other values are outside the model. *)
Definition as_str (v : value) : M string :=
  match v with
  | VStr s => mret s
  | _ => raise
  end.

Definition as_int (v : value) : M Z :=
  match v with
  | VInt n => mret n
  | _ => raise
  end.

(** [for x in xs: body] and [for i, x in enumerate(xs): body], from
    index [i] on. *)
Fixpoint for_each (xs : list value) (body : value -> M unit) : M unit :=
  match xs with
  | [] => mret tt
  | x :: xs' => body x ;; for_each xs' body
  end.

Fixpoint for_enumerate (i : nat) (xs : list value)
    (body : nat -> value -> M unit) : M unit :=
  match xs with
  | [] => mret tt
  | x :: xs' => body i x ;; for_enumerate (S i) xs' body
  end.

(** ["".join(parts)] *)
Fixpoint strings_of (vs : list value) : M (list string) :=
  match vs with
  | [] => mret []
  | v :: vs' => s ← as_str v; ss ← strings_of vs'; mret (s :: ss)
  end.

End Store.

Import Store.

(** The functions, statement by statement. *)
Module Run.

Section Program.

(** The list the module binds to [CHOICES]. *)
Variable CHOICES : value.

(** [for i, opt in enumerate(opts):
       prompt_parts.append(f"{CHOICES[i]}. {opt}\n")] *)
Definition append_options (prompt_parts : nat) (opts : value) : M unit :=
  items ← items_of opts;
  for_enumerate 0 items (fun i opt =>
    letter ← list_getitem CHOICES (Z.of_nat i);
    letter ← as_str letter;
    opt ← as_str opt;
    list_append prompt_parts (VStr (letter +:+ ". " +:+ opt +:+ NL))).

(** The body of [for ex in few_shot_examples]. *)
Definition append_example (prompt_parts : nat) (use_cot : bool) (ex : value)
  : M unit :=
  list_append prompt_parts (VStr ("Question:" +:+ NL)) ;;
  q ← dict_getitem ex "question";
  q ← as_str q;
  list_append prompt_parts (VStr (q +:+ NL)) ;;
  list_append prompt_parts (VStr ("Options:" +:+ NL)) ;;
  opts ← dict_getitem ex "options";
  append_options prompt_parts opts ;;
  with_cot ← (if use_cot
              then cot ← dict_get ex "cot_content"; truthy cot
              else mret false);
  if with_cot : bool
  then
    cot ← dict_getitem ex "cot_content";
    cot ← as_str cot;
    list_append prompt_parts (VStr (replace cot COT_OLD COT_NEW +:+ NL +:+ NL))
  else
    i ← dict_getitem ex "answer_index";
    i ← as_int i;
    letter ← list_getitem CHOICES i;
    letter ← as_str letter;
    list_append prompt_parts
      (VStr ("Answer: The answer is (" +:+ letter +:+ ")." +:+ NL +:+ NL)).

Definition format_prompt (question : string) (options : value)
    (category : string) (few_shot_examples : value) (use_cot : bool)
  : M string :=
  prompt_parts ← new_list;
  list_append prompt_parts (VStr (instruction category)) ;;
  some ← truthy few_shot_examples;
  (if some : bool
   then
     exs ← items_of few_shot_examples;
     for_each exs (append_example prompt_parts use_cot)
   else mret tt) ;;
  list_append prompt_parts (VStr ("Question:" +:+ NL)) ;;
  list_append prompt_parts (VStr (question +:+ NL)) ;;
  list_append prompt_parts (VStr ("Options:" +:+ NL)) ;;
  append_options prompt_parts options ;;
  list_append prompt_parts (VStr "Answer: Let's think step by step.") ;;
  parts ← items_of (VRef prompt_parts);
  parts ← strings_of parts;
  mret (join parts).

(** One turn of the shrinking loop: the call
    [format_prompt(item["question"], item["options"], category,
       few_shot_examples=few_shot[:k] if k > 0 else None, use_cot=use_cot)]. *)
Definition rebuild (item : value) (category : string) (few_shot : value)
    (use_cot : bool) (k : Z) : M string :=
  q ← dict_getitem item "question";
  q ← as_str q;
  opts ← dict_getitem item "options";
  shots ← (if 0 <? k
           then exs ← items_of few_shot; new_slice exs k
           else mret VNone);
  format_prompt q opts category shots use_cot.

(** The prompts of a sequence of turns, one after the other. *)
Fixpoint rebuild_all (item : value) (category : string) (few_shot : value)
    (use_cot : bool) (ks : list Z) : M (list string) :=
  match ks with
  | [] => mret []
  | k :: ks' =>
      p ← rebuild item category few_shot use_cot k;
      ps ← rebuild_all item category few_shot use_cot ks';
      mret (p :: ps)
  end.

End Program.

End Run.

(** ** Notions used to state the properties *)

Module Spec.

(** [key] occurs in [text] as a contiguous block of characters. *)
Definition occurs (key text : string) : Prop :=
  exists before after, chars text = before ++ chars key ++ after.

(** The characters before a position: the last of them is the
    character the position follows. *)
Definition prev_of (prev : option N) (before : unicode) : option N :=
  match last before with
  | Some c => Some c
  | None => prev
  end.

(** The text [w] reads as the ASCII string [p] when case is ignored the
    way [re.IGNORECASE] ignores it. *)
Definition reads_ci (p : string) (w : unicode) : Prop :=
  Forall2 (fun a b => matches_ci a b = true) (codes p) w.

(** Pattern 1 matches at position [i] of [t] with the letter [c]:
    [answer is ] in any case, at most one opening parenthesis, the
    letter. *)
Definition match1 (t : unicode) (i : nat) (c : N) : Prop :=
  exists before w paren after,
    t = before ++ w ++ paren ++ c :: after /\ length before = i /\
    reads_ci "answer is " w /\
    (paren = [] \/ paren = codes "(") /\
    is_AJ_ci c = true.

(** Pattern 2 matches at position [i] of [t] with the letter [c]:
    [answer:] or [Answer:], any white space, a capital letter. *)
Definition match2 (t : unicode) (i : nat) (c : N) : Prop :=
  exists before a ws after,
    t = before ++ a :: codes "nswer:" ++ ws ++ c :: after /\
    length before = i /\
    (a = 97%N \/ a = 65%N) /\
    Forall (fun x => is_white x = true) ws /\
    is_AJ c = true.

Section Neighbours.

Context `{UnicodeData}.

(** The capital letter [c] stands alone at position [i] of [t]: neither
    neighbour, where there is one, is a word character. *)
Definition standalone (t : unicode) (i : nat) (c : N) : Prop :=
  exists before after,
    t = before ++ c :: after /\ length before = i /\
    is_AJ c = true /\
    Regex.is_word_opt (last before) = false /\
    Regex.is_word_opt (head after) = false.

Definition is_letter_opt (o : option N) : bool :=
  match o with
  | Some c => is_letter c
  | None => false
  end.

(** The wording of the specification for the third tier: a capital letter
    A-J whose neighbours, where there are any, are no letters. *)
Definition letter_bounded (t : unicode) (i : nat) (c : N) : Prop :=
  exists before after,
    t = before ++ c :: after /\ length before = i /\
    is_AJ c = true /\
    is_letter_opt (last before) = false /\
    is_letter_opt (head after) = false.

End Neighbours.

(** The gold letter of an item, and whether a pair counts as correct. *)
Definition gold (item : Item) : option string :=
  index CHOICES (answer_index item).

Definition is_correct `{UnicodeData} (pair : Item * RequestOutput) : bool :=
  match gold pair.1 with
  | Some g => pred_eq (extract_answer (generated_text_of pair.2)) g
  | None => false
  end.

(** The number of pairs that satisfy [p], as a Python [int]. *)
Definition count (p : Item * RequestOutput -> bool)
    (pairs : list (Item * RequestOutput)) : Z :=
  Z.of_nat (length (List.filter p pairs)).

Definition in_category (cat : string) (pair : Item * RequestOutput) : bool :=
  String.eqb (category pair.1) cat.

Definition in_domain (dom : string) (pair : Item * RequestOutput) : bool :=
  String.eqb (get_domain (category pair.1)) dom.

(** The accuracy a view reports for a key: no entry when the key has no
    item. *)
Definition view_accuracy `{UnicodeData} (sel : Item * RequestOutput -> bool)
    (pairs : list (Item * RequestOutput)) : option spec_float :=
  if count sel pairs =? 0 then None
  else Some (truediv (count (fun p => sel p && is_correct p) pairs)
                     (Z.max 1 (count sel pairs))).

(** The counters of a tally agree with the pairs scored so far. *)
Record tallied `{UnicodeData} (t : Tally)
    (pairs : list (Item * RequestOutput)) : Prop := {
  tallied_category_total : forall cat,
    by_category_total t !! cat
    = if count (in_category cat) pairs =? 0 then None
      else Some (count (in_category cat) pairs);
  tallied_category_correct : forall cat,
    Counter.get (by_category_correct t) cat
    = count (fun p => in_category cat p && is_correct p) pairs;
  tallied_domain_total : forall dom,
    by_domain_total t !! dom
    = if count (in_domain dom) pairs =? 0 then None
      else Some (count (in_domain dom) pairs);
  tallied_domain_correct : forall dom,
    Counter.get (by_domain_correct t) dom
    = count (fun p => in_domain dom p && is_correct p) pairs;
  tallied_total :
    Counter.total (by_category_total t) = Z.of_nat (length pairs);
  tallied_correct :
    Counter.total (by_category_correct t) = count is_correct pairs
}.

(** A code point below U+0100. *)
Definition small (c : N) : Prop := (c < 256)%N.

Definition small_opt (o : option N) : Prop :=
  match o with
  | Some c => small c
  | None => True
  end.

(** In [h], the value [v] is a list of the strings [l]. *)
Definition str_list (h : list object) (v : value) (l : list string) : Prop :=
  exists r, v = VRef r /\ h !! r = Some (OList (VStr <$> l)).

(** In [h], the value [v] is a dict with the fields of the item [it]
    that [format_prompt] reads; the key [cot_content] may be missing from
    the dict of an item that has no rationale. *)
Definition item_at (h : list object) (v : value) (it : Item) : Prop :=
  exists r entries opts,
    v = VRef r /\ h !! r = Some (ODict entries) /\
    entries !! "question" = Some (VStr (question it)) /\
    entries !! "options" = Some opts /\ str_list h opts (options it) /\
    (entries !! "cot_content" = Some (VStr (cot_content it)) \/
     entries !! "cot_content" = None /\ cot_content it = EmptyString) /\
    entries !! "answer_index" = Some (VInt (answer_index it)).

(** In [h], the value [v] is a list of dicts, those of the items [its]. *)
Definition items_at (h : list object) (v : value) (its : list Item) : Prop :=
  exists r vs,
    v = VRef r /\ h !! r = Some (OList vs) /\ Forall2 (item_at h) vs its.

(** The argument [few_shot_examples]: [None] or a list of dicts. *)
Definition examples_at (h : list object) (v : value) (exs : option (list Item))
  : Prop :=
  match exs with
  | None => v = VNone
  | Some its => items_at h v its
  end.

(** What a computation returns. *)
Definition result_of {A} (m : M A) (h : list object) : option A := fst <$> m h.

End Spec.

(** ** Concrete inputs *)

Module Fixture.

Definition item_of (cat : string) (opts : list string) (letter : string)
    (idx : Z) : Item :=
  {| question_id := 0; question := "Which one?"; options := opts;
     answer := letter; answer_index := idx; category := cat;
     cot_content := EmptyString; src := EmptyString |}.

(** A row whose placeholder precedes the correct option. *)
Definition raw_placeholder_first : RawItem :=
  {| raw_question_id := None; raw_question := "2 + 2 = ?";
     raw_options := ["N/A"; "4"]; raw_answer := "B"; raw_answer_index := 1;
     raw_category := "math"; raw_cot_content := None; raw_src := None |}.

(** A row whose placeholders follow the real options. *)
Definition raw_placeholder_last : RawItem :=
  {| raw_question_id := None; raw_question := "2 + 2 = ?";
     raw_options := ["3"; "4"; "N/A"; "N/A"]; raw_answer := "B";
     raw_answer_index := 1;
     raw_category := "math"; raw_cot_content := None; raw_src := None |}.

(** Three test items, two of category math and one of category law, with
    gold letters A, B and C, and outputs that read A, A and C. *)
Definition items3 : list Item :=
  [ item_of "math" ["1"; "2"; "3"; "4"] "A" 0;
    item_of "math" ["1"; "2"; "3"; "4"] "B" 1;
    item_of "law" ["1"; "2"; "3"; "4"] "C" 2 ].

Definition outputs3 : list RequestOutput :=
  [ [codes "So the answer is (A)."]; [codes "So the answer is (A)."];
    [codes "So the answer is (C)."] ].

(** A validation split with two items of category math around one of
    category law, and a test item of category math. *)
Definition validation3 : list Item :=
  [ item_of "math" ["2"; "3"] "A" 0;
    item_of "law" ["x"; "y"] "B" 1;
    item_of "math" ["5"; "6"] "B" 1 ].

Definition test_item : Item := item_of "math" ["7"; "8"] "B" 1.

Definition nan_threshold : spec_float := S754_nan.

Definition overall_of (acc : spec_float) : Overall :=
  {| overall_accuracy := acc; total_questions := 1; total_correct := 1;
     total_wrong := 0; failed_questions := 0 |}.

(** A character database that knows no letter or digit from U+0100 on.
    The texts of the examples below hold no such code point, so that
    every database gives the same results on them. *)
#[global] Instance basic_data : UnicodeData :=
  {| isalnum_wide := fun _ => false; isalpha_wide := fun _ => false |}.

(** A tokenizer with one token per character. *)
Definition char_tokens (s : string) : list Z :=
  map (fun c => Z.of_N (code c)) (chars s).

(** A store with the module's [CHOICES] (reference 0), the option list of
    the test item (1), and an example list (4) that holds one dict (3)
    whose options are the list of reference 2. *)
Definition store5 : list object :=
  [ OList (VStr <$> CHOICES);
    OList [VStr "7"; VStr "8"];
    OList [VStr "2"; VStr "3"];
    ODict {[ "question" := VStr "Which one?"; "options" := VRef 2;
             "cot_content" := VStr EmptyString; "answer_index" := VInt 0;
             "category" := VStr "math" ]};
    OList [VRef 3] ].

End Fixture.

(** A validation item that carries a rationale. *)
Module Sample.

Definition rationale_item : Item :=
  {| question_id := 7; question := "2 + 2 = ?"; options := ["3"; "4"];
     answer := "B"; answer_index := 1; category := "math";
     cot_content :=
       "A: Let's think step by step. Two and two make four. The answer is (B).";
     src := EmptyString |}.

End Sample.

Import Spec.

(** ** Properties *)

(** *** Strings *)

Lemma starts_with_spec (p s : list ascii) :
  starts_with p s = true <-> exists r, s = p ++ r.
Proof.
  revert s. induction p as [|a p IH]; intros s; simpl.
  - split; [intros _; by exists s | done].
  - destruct s as [|b s].
    + split; [done | intros [r Hr]; discriminate].
    + rewrite andb_true_iff, IH, Ascii.eqb_eq. split.
      * intros [-> [r ->]]. by exists r.
      * intros [r Hr]. injection Hr as -> ->. eauto.
Qed.

Lemma occurs_in_spec (p s : list ascii) :
  occurs_in p s = true <-> exists l1 l2, s = l1 ++ p ++ l2.
Proof.
  induction s as [|c s IH]; simpl.
  - rewrite orb_false_r, starts_with_spec. split.
    + intros [r Hr]. by exists [], r.
    + intros (l1 & l2 & H). destruct l1; [eauto | discriminate].
  - rewrite orb_true_iff, starts_with_spec, IH. split.
    + intros [[r Hr] | (l1 & l2 & ->)].
      * by exists [], r.
      * by exists (c :: l1), l2.
    + intros (l1 & l2 & H). destruct l1 as [|d l1]; simpl in H.
      * left. eauto.
      * injection H as -> ->. right. eauto.
Qed.

Lemma contains_occurs (text key : string) :
  contains text key = true <-> occurs key text.
Proof. unfold contains, occurs. apply occurs_in_spec. Qed.

(** *** get_domain *)



Lemma first_rule_elem rules text key domain :
  first_rule rules text = Some (key, domain) ->
  exists before after,
    rules = before ++ (key, domain) :: after /\ occurs key text /\
    forall k d, (k, d) ∈ before -> ~ occurs k text.
Proof.
  induction rules as [|[k d] rules IH]; simpl; [done|].
  destruct (contains text k) eqn:Hk.
  - intros [= -> ->]. exists [], rules. split; [done|]. split.
    + by apply contains_occurs.
    + intros k' d' Hin. by apply elem_of_nil in Hin.
  - intros H. destruct (IH H) as (before & after & -> & Hocc & Hnone).
    exists ((k, d) :: before), after. split; [done|]. split; [done|].
    intros k' d' Hin. apply elem_of_cons in Hin as [[= -> ->] | Hin].
    + rewrite <- contains_occurs. by rewrite Hk.
    + by apply (Hnone k' d').
Qed.



(** *** preprocess_dataset *)

Lemma preprocess_fold (dataset : list RawItem) (acc : list Item) :
  fold_left (fun processed item =>
               processed ++ [preprocess_item (length processed) item])
            dataset acc
  = acc ++ imap (fun i item => preprocess_item (length acc + i) item) dataset.
Proof.
  revert acc. induction dataset as [|raw dataset IH]; intros acc; simpl.
  - by rewrite app_nil_r.
  - rewrite IH, <- app_assoc. f_equal. simpl. rewrite Nat.add_0_r. f_equal.
    apply imap_ext. intros i item _. simpl.
    rewrite length_app. simpl. f_equal. lia.
Qed.

Lemma preprocess_imap (dataset : list RawItem) :
  preprocess_dataset dataset = imap preprocess_item dataset.
Proof. unfold preprocess_dataset. by rewrite preprocess_fold. Qed.

Lemma preprocess_lookup (dataset : list RawItem) (i : nat) :
  preprocess_dataset dataset !! i = preprocess_item i <$> dataset !! i.
Proof. rewrite preprocess_imap. apply list_lookup_imap. Qed.

Lemma preprocess_take (dataset : list RawItem) (n : nat) :
  take n (preprocess_dataset dataset) = preprocess_dataset (take n dataset).
Proof.
  apply list_eq. intros i. rewrite preprocess_lookup.
  destruct (decide (i < n)%nat) as [Hlt|Hge].
  - by rewrite !lookup_take_lt, preprocess_lookup by done.
  - by rewrite !lookup_take_ge by lia.
Qed.

Lemma drop_placeholders_clean (opts : list string) (opt : string) :
  opt ∈ drop_placeholders opts -> opt ∈ opts /\ opt <> PLACEHOLDER.
Proof.
  unfold drop_placeholders. rewrite !list_elem_of_In, filter_In.
  intros [Hin Hne]. split; [done|]. intros ->.
  by rewrite String.eqb_refl in Hne.
Qed.

(** Options before the first placeholder keep their position. *)
Lemma drop_placeholders_prefix (opts : list string) (n : nat) :
  (forall j opt, (j < n)%nat -> opts !! j = Some opt -> opt <> PLACEHOLDER) ->
  take n (drop_placeholders opts) = take n opts.
Proof.
  revert n. induction opts as [|o opts IH]; intros n Hclean; [done|].
  destruct n as [|n]; [done|]. simpl.
  destruct (String.eqb o PLACEHOLDER) eqn:Ho.
  - apply String.eqb_eq in Ho. by destruct (Hclean 0%nat o ltac:(lia) eq_refl).
  - simpl. f_equal. apply IH. intros j opt Hj Hopt.
    apply (Hclean (S j)); [lia | done].
Qed.

(** C1, as the code has it.  [preprocess_dataset] drops every ["N/A"]
    option and copies [answer_index] as it is.  For a row whose
    [answer_index] is in range and whose options hold no placeholder at
    or before that position, [0 <= answer_index < len(options)] holds
    afterwards and the index names the same option as before. *)
Theorem preprocess_answer_index_in_range
    (dataset : list RawItem) (i : nat) (raw : RawItem) :
  dataset !! i = Some raw ->
  0 <= raw_answer_index raw < Z.of_nat (length (raw_options raw)) ->
  (forall j opt, (j <= Z.to_nat (raw_answer_index raw))%nat ->
                 raw_options raw !! j = Some opt -> opt <> PLACEHOLDER) ->
  exists item,
    preprocess_dataset dataset !! i = Some item /\
    options item = drop_placeholders (raw_options raw) /\
    (forall opt, opt ∈ options item -> opt <> PLACEHOLDER) /\
    answer_index item = raw_answer_index raw /\
    0 <= answer_index item < Z.of_nat (length (options item)) /\
    options item !! Z.to_nat (answer_index item)
      = raw_options raw !! Z.to_nat (raw_answer_index raw).
Proof.
  intros Hraw Hrange Hclean. exists (preprocess_item i raw).
  rewrite preprocess_lookup, Hraw. simpl.
  split; [done|]. split; [done|].
  split; [intros opt Hopt; by apply drop_placeholders_clean in Hopt as [_ ?]|].
  split; [done|].
  set (n := Z.to_nat (raw_answer_index raw)) in *.
  assert (take (S n) (drop_placeholders (raw_options raw))
          = take (S n) (raw_options raw)) as Htake.
  { apply drop_placeholders_prefix. intros j opt Hj. apply Hclean. lia. }
  assert (drop_placeholders (raw_options raw) !! n = raw_options raw !! n) as Hsame.
  { rewrite <- (lookup_take_lt (drop_placeholders (raw_options raw)) (S n) n) by lia.
    rewrite Htake. apply lookup_take_lt. lia. }
  split; [|done].
  split; [lia|].
  assert (is_Some (raw_options raw !! n)) as Hsome.
  { apply lookup_lt_is_Some. lia. }
  rewrite <- Hsame in Hsome. apply lookup_lt_is_Some in Hsome. lia.
Qed.

Lemma preprocess_answer_index_in_range_witness :
  exists item,
    preprocess_dataset [Fixture.raw_placeholder_last] !! 0%nat = Some item /\
    options item = drop_placeholders ["3"; "4"; "N/A"; "N/A"] /\
    (forall opt, opt ∈ options item -> opt <> PLACEHOLDER) /\
    answer_index item = 1 /\
    0 <= answer_index item < Z.of_nat (length (options item)) /\
    options item !! Z.to_nat (answer_index item) = Some "4".
Proof.
  apply (preprocess_answer_index_in_range
           [Fixture.raw_placeholder_last] 0 Fixture.raw_placeholder_last).
  - reflexivity.
  - simpl. lia.
  - intros j opt Hj. simpl in Hj.
    destruct j as [|[|j]]; simpl; [intros [= <-]; discriminate ..| lia].
Defined.

(** C1, as stated, fails: the row
    [{options: ["N/A", "4"], answer_index: 1}] is well formed and comes
    out with one option and [answer_index] still [1]. *)
Lemma preprocess_answer_index_stale :
  0 <= raw_answer_index Fixture.raw_placeholder_first
    < Z.of_nat (length (raw_options Fixture.raw_placeholder_first)) /\
  exists item,
    preprocess_dataset [Fixture.raw_placeholder_first] = [item] /\
    options item = ["4"] /\
    answer_index item = 1 /\
    ~ (0 <= answer_index item < Z.of_nat (length (options item))).
Proof.
  split; [simpl; lia|].
  eexists. split; [reflexivity|]. simpl. split; [done|]. split; [done|]. lia.
Qed.

(** *** The row limit *)

Lemma slice_to_nonneg {A} (l : list A) (k : Z) :
  0 <= k -> slice_to l k = take (Z.to_nat k) l.
Proof. intros Hk. unfold slice_to. by rewrite (proj2 (Z.leb_le 0 k) Hk). Qed.

Lemma apply_total_limit_zero {A} (test_data : list A) :
  apply_total_limit (Some 0) test_data = test_data.
Proof. reflexivity. Qed.

Lemma apply_total_limit_pos {A} (test_data : list A) (n : Z) :
  0 < n -> apply_total_limit (Some n) test_data = take (Z.to_nat n) test_data.
Proof.
  intros Hn. unfold apply_total_limit.
  rewrite (proj2 (Z.eqb_neq n 0)) by lia. apply slice_to_nonneg. lia.
Qed.

(** *** Prompts *)

Lemma range_down_neg (s : Z) : s < 0 -> range_down s = [].
Proof.
  intros Hs. unfold range_down.
  replace (Z.to_nat (s + 1)) with 0%nat by lia. reflexivity.
Qed.

Lemma range_down_cons (s : Z) : 0 <= s -> range_down s = s :: range_down (s - 1).
Proof.
  intros Hs. unfold range_down.
  replace (Z.to_nat (s + 1)) with (S (Z.to_nat (s - 1 + 1))) by lia.
  rewrite <- cons_seq. simpl. f_equal; [lia|].
  rewrite <- seq_shift, map_map. apply map_ext. intros i. lia.
Qed.

Lemma elem_of_slice_to {A} (l : list A) (k : Z) (x : A) :
  x ∈ slice_to l k -> x ∈ l.
Proof.
  unfold slice_to. destruct (0 <=? k); intros Hx;
    apply elem_of_take in Hx as (i & Hi & _); by eapply list_elem_of_lookup_2.
Qed.

Lemma format_prompt_some question options category exs use_cot :
  format_prompt question options category (Some exs) use_cot
  = shots ← examples_parts use_cot exs;
    lines ← option_lines 0%nat options;
    Some (join ([instruction category] ++ shots
                ++ ["Question:" +:+ NL; question +:+ NL; "Options:" +:+ NL]
                ++ lines ++ ["Answer: Let's think step by step."])).
Proof. by destruct exs. Qed.

Lemma format_prompt_none question options category use_cot :
  format_prompt question options category None use_cot
  = format_prompt question options category (Some []) use_cot.
Proof. reflexivity. Qed.

Lemma examples_parts_take use_cot exs n :
  is_Some (examples_parts use_cot exs) ->
  is_Some (examples_parts use_cot (take n exs)).
Proof.
  revert n. induction exs as [|ex exs IH]; intros n Hall.
  - by rewrite take_nil.
  - destruct n as [|n]; [by eexists|]. simpl in *.
    destruct (example_parts use_cot ex); [|by destruct Hall].
    simpl in *. destruct (examples_parts use_cot exs) eqn:Hexs;
      [|by destruct Hall].
    destruct (IH n) as [ps Hps]; [by eexists|]. rewrite Hps. by eexists.
Qed.

Lemma format_prompt_take question options category exs use_cot n :
  is_Some (format_prompt question options category (Some exs) use_cot) ->
  is_Some (format_prompt question options category (Some (take n exs)) use_cot).
Proof.
  rewrite !format_prompt_some. intros [p Hp].
  destruct (examples_parts use_cot exs) eqn:Hexs; [|done].
  destruct (examples_parts_take use_cot exs n) as [ps Hps]; [by eexists|].
  rewrite Hps. simpl in *. destruct (option_lines 0 options); [|done].
  by eexists.
Qed.

Section PromptProperties.

Variable tokenizer_encode : string -> list Z.
Variable max_model_len : Z.
Variable use_cot : bool.


(** Every smaller count builds when the full list of examples does. *)
Lemma rebuild_is_Some (item : Item) (few_shot : list Item) (j : Z) :
  is_Some (format_prompt (question item) (options item) (category item)
                         (Some few_shot) use_cot) ->
  is_Some (rebuild use_cot item few_shot j).
Proof.
  intros Hall. unfold rebuild. destruct (0 <? j) eqn:Hj.
  - apply Z.ltb_lt in Hj. rewrite slice_to_nonneg by lia.
    by apply format_prompt_take.
  - rewrite format_prompt_none. rewrite <- (take_0 few_shot).
    by apply format_prompt_take.
Qed.

(** The loop stops at the first count that fits. *)
Lemma shrink_first_fit (item : Item) (few_shot : list Item) (n : nat) :
  forall (s j : Z) (pj prev : string),
    s = Z.of_nat n - 1 -> 0 <= j <= s ->
    (forall j', j < j' <= s -> is_Some (rebuild use_cot item few_shot j')) ->
    rebuild use_cot item few_shot j = Some pj ->
    token_len tokenizer_encode pj <= budget max_model_len ->
    (forall j' p', j < j' <= s ->
                   rebuild use_cot item few_shot j' = Some p' ->
                   token_len tokenizer_encode p' > budget max_model_len) ->
    shrink tokenizer_encode max_model_len use_cot item few_shot
           (range_down s) prev = Some pj.
Proof.
  induction n as [|n IH]; intros s j pj prev Hs Hj Hbuilds Hpj Hfit Hover;
    [lia|].
  rewrite range_down_cons by lia. simpl.
  destruct (decide (j = s)) as [->|Hne].
  - rewrite Hpj. simpl. by rewrite (proj2 (Z.leb_le _ _) Hfit).
  - destruct (Hbuilds s) as [p' Hp']; [lia|]. rewrite Hp'. simpl.
    rewrite (proj2 (Z.leb_gt _ _)) by (apply Z.gt_lt, (Hover s p'); [lia|done]).
    apply (IH (s - 1) j); [lia | lia | | done | done | ].
    + intros j' Hj'. apply Hbuilds. lia.
    + intros j' p'' Hj'. apply Hover. lia.
Qed.

(** With no count that fits the loop ends on the prompt of count [0]. *)
Lemma shrink_none_fits (item : Item) (few_shot : list Item) (n : nat) :
  forall (s : Z) (prev : string),
    s = Z.of_nat n ->
    (forall j, 0 <= j <= s -> is_Some (rebuild use_cot item few_shot j)) ->
    (forall j p', 0 <= j <= s ->
                  rebuild use_cot item few_shot j = Some p' ->
                  token_len tokenizer_encode p' > budget max_model_len) ->
    exists pz,
      rebuild use_cot item few_shot 0 = Some pz /\
      shrink tokenizer_encode max_model_len use_cot item few_shot
             (range_down s) prev = Some pz.
Proof.
  induction n as [|n IH]; intros s prev Hs Hbuilds Hover;
    rewrite range_down_cons by lia;
    (destruct (Hbuilds s) as [p' Hp']; [lia|]);
    cbn [shrink]; rewrite Hp'; cbn [mbind option_bind];
    rewrite (proj2 (Z.leb_gt _ _)) by (apply Z.gt_lt, (Hover s p'); [lia|done]).
  - rewrite range_down_neg by lia. exists p'. split; [|done].
    by replace 0 with s by lia.
  - apply (IH (s - 1)); [lia | |].
    + intros j Hj. apply Hbuilds. lia.
    + intros j p'' Hj. apply Hover. lia.
Qed.

(** The prompt of a count that is not negative is [format_prompt] on the
    first examples of the pool, as many as the count says. *)
Lemma rebuild_prefix (item : Item) (few_shot : list Item) (j : Z) :
  0 <= j ->
  rebuild use_cot item few_shot j
  = format_prompt (question item) (options item) (category item)
      (if 0 <? j then Some (take (Z.to_nat j) few_shot) else None) use_cot.
Proof.
  intros Hj. unfold rebuild. destruct (0 <? j); [|done].
  by rewrite slice_to_nonneg.
Qed.

(** C4. When the prompt built with [num_few_shot] examples exceeds the
    budget [max_model_len - 2048], the prompt is built again from the
    first [j] of the selected examples for [j = num_few_shot - 1], ...,
    [0] (for [j = 0] with no example list at all), and the first, that is
    the largest, count whose prompt fits is used; none of these builds
    raises; when no count fits, the prompt with no example is used as it
    is and nothing is raised; a first prompt that fits is used without
    rebuilding. *)
Theorem build_prompt_shrinks
    (val_by_category : gmap string (list Item)) (num_few_shot : Z)
    (item : Item) (p0 : string) :
  let few_shot :=
    select_few_shot val_by_category (category item) num_few_shot in
  let prompt_with (j : Z) :=
    format_prompt (question item) (options item) (category item)
      (if 0 <? j then Some (take (Z.to_nat j) few_shot) else None) use_cot in
  format_prompt (question item) (options item) (category item)
                (if 0 <? num_few_shot then Some few_shot else None) use_cot
    = Some p0 ->
  (token_len tokenizer_encode p0 <= budget max_model_len ->
     build_prompt tokenizer_encode max_model_len use_cot
                  val_by_category num_few_shot item = Some p0) /\
  (forall j, 0 <= j < num_few_shot -> is_Some (prompt_with j)) /\
  (token_len tokenizer_encode p0 > budget max_model_len ->
     (forall j pj,
         0 <= j < num_few_shot ->
         prompt_with j = Some pj ->
         token_len tokenizer_encode pj <= budget max_model_len ->
         (forall j' p', j < j' < num_few_shot ->
                        prompt_with j' = Some p' ->
                        token_len tokenizer_encode p' > budget max_model_len) ->
         build_prompt tokenizer_encode max_model_len use_cot
                      val_by_category num_few_shot item = Some pj) /\
     ((forall j p', 0 <= j < num_few_shot ->
                    prompt_with j = Some p' ->
                    token_len tokenizer_encode p' > budget max_model_len) ->
      exists pz,
        format_prompt (question item) (options item) (category item)
                      None use_cot = Some pz /\
        build_prompt tokenizer_encode max_model_len use_cot
                     val_by_category num_few_shot item = Some pz)).
Proof.
  intros few_shot prompt_with Hp0. unfold build_prompt. fold few_shot.
  rewrite Hp0. cbn [mbind option_bind].
  assert (forall j, 0 <= j -> prompt_with j = rebuild use_cot item few_shot j)
    as Hwith by (intros j Hj; symmetry; by apply rebuild_prefix).
  split; [|split].
  - intros Hfit. rewrite Z.gtb_ltb, (proj2 (Z.ltb_ge _ _)); done.
  - intros j Hj. rewrite Hwith by lia. apply rebuild_is_Some.
    destruct (0 <? num_few_shot) eqn:Hk; [by eexists|]. apply Z.ltb_ge in Hk. lia.
  - intros Hover0. rewrite Z.gtb_ltb, (proj2 (Z.ltb_lt _ _)) by lia.
    destruct (0 <? num_few_shot) eqn:Hk.
    + apply Z.ltb_lt in Hk.
      assert (forall j, is_Some (rebuild use_cot item few_shot j)) as Hbuilds.
      { intros j. apply rebuild_is_Some. by eexists. }
      split.
      * intros j pj Hj Hpj Hfit Hover.
        apply (shrink_first_fit item few_shot (Z.to_nat num_few_shot)
                 (num_few_shot - 1) j); [lia | lia | done | | done |].
        -- by rewrite <- Hwith by lia.
        -- intros j' p' Hj' Hp'. apply (Hover j'); [lia|].
           by rewrite Hwith by lia.
      * intros Hover.
        destruct (shrink_none_fits item few_shot (Z.to_nat (num_few_shot - 1))
                    (num_few_shot - 1) p0) as (pz & Hpz & Hshrink);
          [lia | done | |].
        -- intros j p' Hj Hp'. apply (Hover j); [lia|]. by rewrite Hwith by lia.
        -- exists pz. split; [|done]. by rewrite <- Hpz.
    + apply Z.ltb_ge in Hk. rewrite range_down_neg by lia.
      split; [intros j pj Hj; lia|].
      intros _. by exists p0.
Qed.


(** Whatever the loop returns was built by [rebuild] at one of the counts
    tried, unless no count was tried. *)
Lemma shrink_result (item : Item) (few_shot : list Item) (ks : list Z)
    (prev r : string) :
  shrink tokenizer_encode max_model_len use_cot item few_shot ks prev = Some r ->
  (ks = [] /\ r = prev) \/
  exists j, j ∈ ks /\ rebuild use_cot item few_shot j = Some r.
Proof.
  revert prev. induction ks as [|k ks IH]; intros prev; simpl.
  - intros [= <-]. by left.
  - destruct (rebuild use_cot item few_shot k) as [p|] eqn:Hp; [|done]. simpl.
    destruct (token_len tokenizer_encode p <=? budget max_model_len).
    + intros [= <-]. right. exists k. split; [by left | done].
    + intros Hr. right. destruct (IH _ Hr) as [[-> ->] | (j & Hj & Hrj)].
      * exists k. split; [by left | done].
      * exists j. split; [by right | done].
Qed.

End PromptProperties.


(** With one token per character and a budget of 350 tokens, the prompt
    of the test item with two examples (391 characters) is too long and
    the one with the first of them (323 characters) is used. *)
Lemma build_prompt_shrinks_witness :
  exists pj,
    format_prompt (question Fixture.test_item) (options Fixture.test_item)
      (category Fixture.test_item)
      (Some (take 1 (select_few_shot (group_by_category Fixture.validation3)
                                     "math" 2))) true
      = Some pj /\
    build_prompt Fixture.char_tokens 2398 true
      (group_by_category Fixture.validation3) 2 Fixture.test_item = Some pj.
Proof.
  eexists. split; [vm_compute; reflexivity|].
  edestruct (build_prompt_shrinks Fixture.char_tokens 2398 true
               (group_by_category Fixture.validation3) 2 Fixture.test_item)
    as (_ & _ & Hover); [vm_compute; reflexivity|].
  destruct Hover as [Hfirst _]; [vm_compute; reflexivity|].
  apply (Hfirst 1).
  - lia.
  - vm_compute. reflexivity.
  - vm_compute. discriminate.
  - intros j' p' Hj'. lia.
Defined.

(** *** format_prompt on the objects of the interpreter *)

Lemma bind_run {A B} (m : M A) (f : A -> M B) (h : list object) :
  (m ≫= f) h = match m h with Some (a, h') => f a h' | None => None end.
Proof. reflexivity. Qed.

Lemma bind_assoc_run {A B C} (m : M A) (f : A -> M B) (g : B -> M C)
    (h : list object) :
  (m ≫= (fun a => f a ≫= g)) h = ((m ≫= f) ≫= g) h.
Proof. rewrite !bind_run. by destruct (m h) as [[a h']|]. Qed.

Lemma append_run (h : list object) (items : list value) (v : value) :
  list_append (length h) v (h ++ [OList items]) = Some (tt, h ++ [OList (items ++ [v])]).
Proof.
  unfold list_append. rewrite lookup_app_r, Nat.sub_diag by lia. simpl.
  rewrite insert_app_r_alt, Nat.sub_diag by lia. done.
Qed.

Lemma append_str_run (h : list object) (acc : list string) (s : string) :
  list_append (length h) (VStr s) (h ++ [OList (VStr <$> acc)])
  = Some (tt, h ++ [OList (VStr <$> (acc ++ [s]))]).
Proof. by rewrite append_run, fmap_app. Qed.

Lemma items_of_run (h h2 : list object) (r : nat) (items : list value) :
  h !! r = Some (OList items) ->
  items_of (VRef r) (h ++ h2) = Some (items, h ++ h2).
Proof.
  intros Hr. unfold items_of.
  by rewrite (lookup_app_l_Some _ _ _ _ Hr).
Qed.

Lemma index_of_nat {A} (l : list A) (i : nat) : index l (Z.of_nat i) = l !! i.
Proof.
  unfold index. destruct (Z.leb_spec 0 (Z.of_nat i)); [|lia]. simpl.
  destruct (Z.ltb_spec (Z.of_nat i) (Z.of_nat (length l))).
  - by rewrite Nat2Z.id.
  - rewrite (proj2 (Z.ltb_ge _ _)) by lia. rewrite andb_false_r.
    symmetry. apply lookup_ge_None. lia.
Qed.

Lemma index_fmap {A B} (f : A -> B) (l : list A) (i : Z) :
  index (f <$> l) i = f <$> index l i.
Proof.
  unfold index. rewrite length_fmap.
  destruct (_ && _); [by rewrite list_lookup_fmap|].
  destruct (_ && _); [by rewrite list_lookup_fmap | done].
Qed.

Lemma str_list_extend (h h2 : list object) (v : value) (l : list string) :
  str_list h v l -> str_list (h ++ h2) v l.
Proof.
  intros (r & -> & Hr). exists r. split; [done|].
  by apply lookup_app_l_Some.
Qed.

Lemma item_at_extend (h h2 : list object) (v : value) (it : Item) :
  item_at h v it -> item_at (h ++ h2) v it.
Proof.
  intros (r & entries & opts & -> & Hr & Hq & Ho & Hopts & Hc & Ha).
  exists r, entries, opts. split; [done|].
  split; [by apply lookup_app_l_Some|]. split; [done|]. split; [done|].
  split; [by apply str_list_extend | done].
Qed.

Lemma items_at_extend (h h2 : list object) (v : value) (its : list Item) :
  items_at h v its -> items_at (h ++ h2) v its.
Proof.
  intros (r & vs & -> & Hr & Hall). exists r, vs. split; [done|].
  split; [by apply lookup_app_l_Some|].
  eapply Forall2_impl; [done|]. intros ? ?. apply item_at_extend.
Qed.

Lemma examples_at_extend (h h2 : list object) (v : value) (exs : option (list Item)) :
  examples_at h v exs -> examples_at (h ++ h2) v exs.
Proof. destruct exs; [apply items_at_extend | done]. Qed.

Section Runs.

Variable h : list object.
Variable CHOICES_v : value.
Hypothesis HCHOICES : str_list h CHOICES_v CHOICES.

(** [CHOICES[i]] in the middle of a call. *)
Lemma choices_run {B} (h2 : list object) (i : Z) (k : string -> M B) :
  (list_getitem CHOICES_v i ≫= fun letter => as_str letter ≫= k) (h ++ h2)
  = match index CHOICES i with
    | Some letter => k letter (h ++ h2)
    | None => None
    end.
Proof.
  destruct HCHOICES as (r & -> & Hr).
  unfold list_getitem. rewrite !bind_run, (items_of_run _ _ _ _ Hr).
  rewrite index_fmap. by destruct (index CHOICES i).
Qed.

Lemma for_enumerate_options (opts : list string) :
  forall (i : nat) (acc : list string),
    for_enumerate i (VStr <$> opts)
      (fun i opt =>
         letter ← list_getitem CHOICES_v (Z.of_nat i);
         letter ← as_str letter;
         opt ← as_str opt;
         list_append (length h) (VStr (letter +:+ ". " +:+ opt +:+ NL)))
      (h ++ [OList (VStr <$> acc)])
    = match option_lines i opts with
      | Some lines => Some (tt, h ++ [OList (VStr <$> (acc ++ lines))])
      | None => None
      end.
Proof.
  induction opts as [|opt opts IH]; intros i acc; simpl.
  - by rewrite app_nil_r.
  - rewrite bind_run, choices_run, index_of_nat.
    destruct (CHOICES !! i) as [letter|]; simpl; [|done].
    rewrite bind_run. simpl. rewrite append_str_run, IH.
    destruct (option_lines (S i) opts) as [lines|]; simpl; [|done].
    by rewrite <- app_assoc.
Qed.

(** [append_options] in the middle of a call. *)
Lemma append_options_run (opts_v : value) (opts acc : list string) :
  str_list h opts_v opts ->
  Run.append_options CHOICES_v (length h) opts_v (h ++ [OList (VStr <$> acc)])
  = match option_lines 0 opts with
    | Some lines => Some (tt, h ++ [OList (VStr <$> (acc ++ lines))])
    | None => None
    end.
Proof.
  intros (r & -> & Hr). unfold Run.append_options.
  rewrite bind_run, (items_of_run _ _ _ _ Hr).
  apply for_enumerate_options.
Qed.

Lemma dict_getitem_run (h2 : list object) (r : nat) (entries : gmap string value)
    (key : string) (v : value) :
  h !! r = Some (ODict entries) -> entries !! key = Some v ->
  dict_getitem (VRef r) key (h ++ h2) = Some (v, h ++ h2).
Proof.
  intros Hr Hk. unfold dict_getitem.
  by rewrite (lookup_app_l_Some _ _ _ _ Hr), Hk.
Qed.

Lemma dict_get_run (h2 : list object) (r : nat) (entries : gmap string value)
    (key : string) :
  h !! r = Some (ODict entries) ->
  dict_get (VRef r) key (h ++ h2)
  = Some (default VNone (entries !! key), h ++ h2).
Proof.
  intros Hr. unfold dict_get.
  by rewrite (lookup_app_l_Some _ _ _ _ Hr).
Qed.

(** The body of the loop over the examples, in the middle of a call. *)
Lemma append_example_run (use_cot : bool) (ex_v : value) (ex : Item)
    (acc : list string) :
  item_at h ex_v ex ->
  Run.append_example CHOICES_v (length h) use_cot ex_v (h ++ [OList (VStr <$> acc)])
  = match example_parts use_cot ex with
    | Some parts => Some (tt, h ++ [OList (VStr <$> (acc ++ parts))])
    | None => None
    end.
Proof.
  intros (r & entries & opts_v & -> & Hr & Hq & Ho & Hopts & Hc & Ha).
  unfold Run.append_example, example_parts.
  rewrite bind_run, append_str_run.
  rewrite bind_run, (dict_getitem_run _ _ _ _ _ Hr Hq).
  rewrite bind_run. simpl.
  rewrite bind_run, append_str_run.
  rewrite bind_run, append_str_run.
  rewrite bind_run, (dict_getitem_run _ _ _ _ _ Hr Ho).
  rewrite bind_run, (append_options_run _ _ _ Hopts).
  destruct (option_lines 0 (options ex)) as [lines|]; simpl; [|done].
  unfold example_answer.
  rewrite bind_run.
  assert ((if use_cot
           then cot ← dict_get (VRef r) "cot_content"; truthy cot
           else mret false)
            (h ++ [OList (VStr <$> (((acc ++ ["Question:" +:+ NL])
                                       ++ [question ex +:+ NL])
                                      ++ ["Options:" +:+ NL]) ++ lines)])
          = Some (use_cot && negb (String.eqb (cot_content ex) EmptyString),
                  h ++ [OList (VStr <$> (((acc ++ ["Question:" +:+ NL])
                                            ++ [question ex +:+ NL])
                                           ++ ["Options:" +:+ NL]) ++ lines)]))
    as ->.
  { destruct use_cot; [|done].
    rewrite bind_run, (dict_get_run _ _ _ _ Hr).
    by destruct Hc as [-> | [-> ->]]. }
  destruct (use_cot && negb (String.eqb (cot_content ex) EmptyString)) eqn:Hcot.
  - destruct Hc as [Hc | [_ Hempty]].
    2: { rewrite Hempty in Hcot. by rewrite andb_false_r in Hcot. }
    rewrite bind_run, (dict_getitem_run _ _ _ _ _ Hr Hc).
    rewrite bind_run. simpl. rewrite append_str_run. simpl.
    by rewrite <- !app_assoc.
  - rewrite bind_run, (dict_getitem_run _ _ _ _ _ Hr Ha).
    rewrite bind_run. simpl. rewrite choices_run.
    destruct (index CHOICES (answer_index ex)) as [letter|]; simpl; [|done].
    rewrite append_str_run. by rewrite <- !app_assoc.
Qed.

(** The loop over the examples, in the middle of a call. *)
Lemma for_each_examples_run (use_cot : bool) (vs : list value)
    (exs : list Item) :
  Forall2 (item_at h) vs exs ->
  forall acc,
    for_each vs (Run.append_example CHOICES_v (length h) use_cot)
             (h ++ [OList (VStr <$> acc)])
    = match examples_parts use_cot exs with
      | Some parts => Some (tt, h ++ [OList (VStr <$> (acc ++ parts))])
      | None => None
      end.
Proof.
  induction 1 as [|v ex vs exs Hv _ IH]; intros acc; simpl.
  - by rewrite app_nil_r.
  - rewrite bind_run, (append_example_run _ _ _ _ Hv).
    destruct (example_parts use_cot ex) as [parts|]; simpl; [|done].
    rewrite IH. destruct (examples_parts use_cot exs) as [more|]; simpl; [|done].
    by rewrite <- app_assoc.
Qed.

Lemma strings_of_run (parts : list string) (h2 : list object) :
  strings_of (VStr <$> parts) h2 = Some (parts, h2).
Proof.
  induction parts as [|s parts IH]; csimpl; [done|].
  rewrite bind_run. csimpl. by rewrite bind_run, IH.
Qed.

(** A call of [format_prompt], part by part. *)
Lemma format_prompt_parts (question : string) (options_v : value)
    (category : string) (shots_v : value) (use_cot : bool)
    (opts : list string) (exs : option (list Item)) :
  str_list h options_v opts -> examples_at h shots_v exs ->
  Run.format_prompt CHOICES_v question options_v category shots_v use_cot h
  = shots ← examples_parts use_cot (default [] exs);
    lines ← option_lines 0%nat opts;
    let parts :=
      [instruction category] ++ shots
      ++ ["Question:" +:+ NL; question +:+ NL; "Options:" +:+ NL]
      ++ lines ++ ["Answer: Let's think step by step."] in
    Some (join parts, h ++ [OList (VStr <$> parts)]).
Proof.
  intros Hopts Hexs.
  set (some := match exs with Some (_ :: _) => true | _ => false end).
  assert (forall h2, truthy shots_v (h ++ h2) = Some (some, h ++ h2)) as Htruthy.
  { intros h2. destruct exs as [its|]; simpl in Hexs.
    - destruct Hexs as (r & vs & -> & Hr & Hall). unfold truthy.
      rewrite (lookup_app_l_Some _ _ _ _ Hr). by destruct Hall.
    - by subst shots_v. }
  assert (forall acc,
    (if some
     then exs ← items_of shots_v;
          for_each exs (Run.append_example CHOICES_v (length h) use_cot)
     else mret tt) (h ++ [OList (VStr <$> acc)])
    = match examples_parts use_cot (default [] exs) with
      | Some parts => Some (tt, h ++ [OList (VStr <$> (acc ++ parts))])
      | None => None
      end) as Hshots.
  { intros acc. unfold some. destruct exs as [[|ex its]|]; simpl in Hexs.
    - simpl. by rewrite app_nil_r.
    - destruct Hexs as (r & vs & -> & Hr & Hall).
      rewrite bind_run, (items_of_run _ _ _ _ Hr).
      by apply for_each_examples_run.
    - simpl. by rewrite app_nil_r. }
  unfold Run.format_prompt.
  rewrite bind_run. unfold new_list at 1.
  rewrite bind_run, (append_str_run h []).
  rewrite bind_run, Htruthy.
  rewrite bind_run, Hshots.
  destruct (examples_parts use_cot (default [] exs)) as [shots|];
    cbn [mbind option_bind]; [|done].
  rewrite bind_run, append_str_run.
  rewrite bind_run, append_str_run.
  rewrite bind_run, append_str_run.
  rewrite bind_run, (append_options_run _ _ _ Hopts).
  destruct (option_lines 0 opts) as [lines|]; cbn [mbind option_bind]; [|done].
  rewrite bind_run, append_str_run.
  rewrite bind_run. unfold items_of at 1.
  rewrite lookup_app_r, Nat.sub_diag by lia. cbn [lookup list_lookup].
  rewrite bind_run, strings_of_run. cbn [mret M_ret].
  by rewrite <- !app_assoc.
Qed.

(** A call of [format_prompt] returns what the function of the values
    returns, and the store it leaves is the store it found with one more
    object, its list of parts. *)
Lemma format_prompt_run (question : string) (options_v : value)
    (category : string) (shots_v : value) (use_cot : bool)
    (opts : list string) (exs : option (list Item)) :
  str_list h options_v opts -> examples_at h shots_v exs ->
  match format_prompt question opts category exs use_cot with
  | Some text =>
      exists parts,
        Run.format_prompt CHOICES_v question options_v category shots_v
                          use_cot h = Some (text, h ++ [OList parts])
  | None =>
      Run.format_prompt CHOICES_v question options_v category shots_v
                        use_cot h = None
  end.
Proof.
  intros Hopts Hexs. rewrite (format_prompt_parts _ _ _ _ _ _ _ Hopts Hexs).
  assert (format_prompt question opts category exs use_cot
          = format_prompt question opts category (Some (default [] exs)) use_cot)
    as -> by by destruct exs.
  rewrite format_prompt_some.
  destruct (examples_parts use_cot (default [] exs)) as [shots|]; simpl; [|done].
  destruct (option_lines 0 opts) as [lines|]; simpl; [|done].
  by eexists.
Qed.

End Runs.

Lemma slice_to_fmap {A B} (f : A -> B) (l : list A) (k : Z) :
  slice_to (f <$> l) k = f <$> slice_to l k.
Proof. unfold slice_to. rewrite length_fmap. by destruct (0 <=? k); rewrite fmap_take. Qed.

Lemma Forall2_slice_to {A B} (P : A -> B -> Prop) (l : list A) (k : list B)
    (n : Z) :
  Forall2 P l k -> Forall2 P (slice_to l n) (slice_to k n).
Proof.
  intros Hall. unfold slice_to. rewrite (Forall2_length _ _ _ Hall).
  destruct (0 <=? n); by apply Forall2_take.
Qed.

(** One turn of the shrinking loop returns what [rebuild] on the values
    returns, and leaves the store it found with the objects it made
    added: the slice of the examples, if one was taken, and the list of
    parts. *)
Lemma rebuild_run (h : list object) (CHOICES_v item_v few_shot_v : value)
    (item : Item) (few_shot : list Item) (use_cot : bool) (k : Z) :
  str_list h CHOICES_v CHOICES -> item_at h item_v item ->
  items_at h few_shot_v few_shot ->
  match rebuild use_cot item few_shot k with
  | Some text =>
      exists made,
        Run.rebuild CHOICES_v item_v (category item) few_shot_v use_cot k h
        = Some (text, h ++ made)
  | None =>
      Run.rebuild CHOICES_v item_v (category item) few_shot_v use_cot k h = None
  end.
Proof.
  intros HC Hitem Hshots.
  pose proof Hitem as (r & entries & opts_v & -> & Hr & Hq & Ho & Hopts & _).
  unfold rebuild. destruct (0 <? k) eqn:Hk.
  - destruct Hshots as (rf & vs & -> & Hrf & Hall).
    assert (items_at (h ++ [OList (slice_to vs k)]) (VRef (length h))
                     (slice_to few_shot k)) as Hslice.
    { exists (length h), (slice_to vs k). split; [done|].
      split; [by rewrite lookup_app_r, Nat.sub_diag by lia|].
      apply Forall2_slice_to. eapply Forall2_impl; [done|].
      intros ? ?. apply item_at_extend. }
    assert (Run.rebuild CHOICES_v (VRef r) (category item) (VRef rf) use_cot k h
            = Run.format_prompt CHOICES_v (question item) opts_v (category item)
                (VRef (length h)) use_cot (h ++ [OList (slice_to vs k)])) as ->.
    { unfold Run.rebuild. rewrite Hk.
      rewrite bind_run. unfold dict_getitem at 1. rewrite Hr, Hq.
      rewrite bind_run. cbn [as_str mret M_ret].
      rewrite bind_run. unfold dict_getitem at 1. rewrite Hr, Ho.
      rewrite !bind_run. unfold items_of at 1. by rewrite Hrf. }
    pose proof (format_prompt_run (h ++ [OList (slice_to vs k)]) CHOICES_v
                  (str_list_extend _ _ _ _ HC)
                  (question item) opts_v (category item) (VRef (length h))
                  use_cot (options item) (Some (slice_to few_shot k))
                  (str_list_extend _ _ _ _ Hopts) Hslice) as Hrun.
    destruct (format_prompt _ _ _ (Some (slice_to few_shot k)) _) as [text|];
      [|done].
    destruct Hrun as [parts Hrun].
    exists ([OList (slice_to vs k)] ++ [OList parts]).
    by rewrite Hrun, <- app_assoc.
  - assert (Run.rebuild CHOICES_v (VRef r) (category item) few_shot_v use_cot k h
            = Run.format_prompt CHOICES_v (question item) opts_v (category item)
                VNone use_cot h) as ->.
    { unfold Run.rebuild. rewrite Hk.
      rewrite bind_run. unfold dict_getitem at 1. rewrite Hr, Hq.
      rewrite bind_run. cbn [as_str mret M_ret].
      rewrite bind_run. unfold dict_getitem at 1. rewrite Hr, Ho.
      by rewrite bind_run. }
    pose proof (format_prompt_run h CHOICES_v HC
                  (question item) opts_v (category item) VNone
                  use_cot (options item) None Hopts eq_refl) as Hrun.
    destruct (format_prompt _ _ _ None _) as [text|]; [|done].
    destruct Hrun as [parts Hrun]. by exists [OList parts].
Qed.

(** The turns of the loop, one after the other: each returns what
    [rebuild] returns for its count, whatever turns came before. *)
Lemma rebuild_all_run (CHOICES_v item_v few_shot_v : value) (item : Item)
    (few_shot : list Item) (use_cot : bool) (ks : list Z) :
  forall h : list object,
    str_list h CHOICES_v CHOICES -> item_at h item_v item ->
    items_at h few_shot_v few_shot ->
    result_of (Run.rebuild_all CHOICES_v item_v (category item) few_shot_v
                            use_cot ks) h
    = mapM (rebuild use_cot item few_shot) ks.
Proof.
  unfold result_of.
  induction ks as [|k ks IH]; intros h HC Hitem Hshots; [done|].
  cbn [Run.rebuild_all mapM]. rewrite bind_run.
  pose proof (rebuild_run h CHOICES_v item_v few_shot_v item few_shot use_cot k
                HC Hitem Hshots) as Hrun.
  destruct (rebuild use_cot item few_shot k) as [text|];
    cbn [mbind option_bind]; [|by rewrite Hrun].
  destruct Hrun as [made ->].
  rewrite bind_run.
  specialize (IH (h ++ made) (str_list_extend _ _ _ _ HC)
                 (item_at_extend _ _ _ _ Hitem)
                 (items_at_extend _ _ _ _ Hshots)).
  destruct (Run.rebuild_all _ _ _ _ _ ks (h ++ made)) as [[ps h']|];
    simpl in IH; rewrite <- IH; done.
Qed.

(** Two turns of the loop with the same count return the same text. *)
Lemma rebuild_all_repeat (h : list object)
    (CHOICES_v item_v few_shot_v : value) (item : Item)
    (few_shot : list Item) (use_cot : bool) (ks : list Z) :
  str_list h CHOICES_v CHOICES ->
  item_at h item_v item ->
  items_at h few_shot_v few_shot ->
  forall ps h' i j k,
    Run.rebuild_all CHOICES_v item_v (category item) few_shot_v use_cot ks h
    = Some (ps, h') ->
    ks !! i = Some k -> ks !! j = Some k ->
    is_Some (ps !! i) /\ ps !! i = ps !! j.
Proof.
  intros HC Hitem Hshots ps h' i j k Hturns Hi Hj.
  pose proof (rebuild_all_run CHOICES_v item_v few_shot_v item few_shot
                use_cot ks h HC Hitem Hshots) as Hall.
  unfold result_of in Hall. rewrite Hturns in Hall. simpl in Hall.
  symmetry in Hall. apply mapM_Some_1 in Hall.
  destruct (Forall2_lookup_l _ _ _ _ _ Hall Hi) as (p & Hp & Hk).
  destruct (Forall2_lookup_l _ _ _ _ _ Hall Hj) as (p' & Hp' & Hk').
  rewrite Hp, Hp'. split; [by eexists | congruence].
Qed.

(** C9. [format_prompt] on the objects it is handed.  A call returns the
    text that the function of the values of its arguments gives, it
    writes to no object that existed before it (only to its own new list
    of parts), and so two calls with the same arguments, one after the
    other, return the same text, character by character, or both raise.
    In the shrinking loop every turn returns the text that its count
    gives, whatever turns came before it: two turns with the same count
    return the same text. *)
Theorem format_prompt_deterministic (h : list object)
    (CHOICES_v options_v shots_v : value) (text_of_question : string)
    (name_of_category : string) (use_cot : bool) (opts : list string)
    (exs : option (list Item)) :
  str_list h CHOICES_v CHOICES ->
  str_list h options_v opts ->
  examples_at h shots_v exs ->
  let call :=
    Run.format_prompt CHOICES_v text_of_question options_v name_of_category
                      shots_v use_cot in
  let text_of_values :=
    format_prompt text_of_question opts name_of_category exs use_cot in
  result_of call h = text_of_values /\
  (forall text h1,
      call h = Some (text, h1) -> exists parts, h1 = h ++ [OList parts]) /\
  result_of (a ← call; b ← call; mret (a, b)) h
    = (fun text => (text, text)) <$> text_of_values /\
  (forall (item_v few_shot_v : value) (item : Item) (few_shot : list Item)
          (ks : list Z),
      item_at h item_v item ->
      items_at h few_shot_v few_shot ->
      let turns :=
        Run.rebuild_all CHOICES_v item_v (category item) few_shot_v use_cot ks in
      result_of turns h = mapM (rebuild use_cot item few_shot) ks /\
      forall ps h' i j k,
        turns h = Some (ps, h') ->
        ks !! i = Some k -> ks !! j = Some k ->
        is_Some (ps !! i) /\ ps !! i = ps !! j).
Proof.
  intros HC Hopts Hexs call text_of_values.
  pose proof (format_prompt_run h CHOICES_v HC text_of_question options_v
                name_of_category shots_v use_cot opts exs Hopts Hexs) as Hrun.
  assert (forall parts,
    match text_of_values with
    | Some text => exists parts', call (h ++ [OList parts])
                                  = Some (text, (h ++ [OList parts]) ++ [OList parts'])
    | None => call (h ++ [OList parts]) = None
    end) as Hagain.
  { intros parts.
    apply (format_prompt_run (h ++ [OList parts]) CHOICES_v
             (str_list_extend _ _ _ _ HC) text_of_question options_v
             name_of_category shots_v use_cot opts exs
             (str_list_extend _ _ _ _ Hopts)
             (examples_at_extend _ _ _ _ Hexs)). }
  fold call text_of_values in Hrun.
  destruct text_of_values as [text|].
  - destruct Hrun as [parts Hrun]. split; [|split; [|split]].
    + unfold result_of. by rewrite Hrun.
    + intros text' h1 Hcall. exists parts. congruence.
    + unfold result_of. rewrite bind_run, Hrun.
      destruct (Hagain parts) as [parts' Hcall2].
      by rewrite bind_run, Hcall2.
    + intros item_v few_shot_v item few_shot ks Hitem Hshots turns.
      split; [by apply rebuild_all_run|].
      intros ps h' i j k.
      by apply (rebuild_all_repeat h CHOICES_v item_v few_shot_v item few_shot).
  - split; [|split; [|split]].
    + unfold result_of. by rewrite Hrun.
    + intros text' h1 Hcall. congruence.
    + unfold result_of. by rewrite bind_run, Hrun.
    + intros item_v few_shot_v item few_shot ks Hitem Hshots turns.
      split; [by apply rebuild_all_run|].
      intros ps h' i j k.
      by apply (rebuild_all_repeat h CHOICES_v item_v few_shot_v item few_shot).
Qed.

Lemma format_prompt_deterministic_witness :
  result_of (a ← Run.format_prompt (VRef 0) "Which one?" (VRef 1) "math"
                                (VRef 4) true;
          b ← Run.format_prompt (VRef 0) "Which one?" (VRef 1) "math"
                                (VRef 4) true;
          mret (a, b)) Fixture.store5
  = (fun text => (text, text))
      <$> format_prompt "Which one?" ["7"; "8"] "math"
            (Some [Fixture.item_of "math" ["2"; "3"] "A" 0]) true.
Proof.
  apply (format_prompt_deterministic Fixture.store5 (VRef 0) (VRef 1)
           (VRef 4) "Which one?" "math" true ["7"; "8"]
           (Some [Fixture.item_of "math" ["2"; "3"] "A" 0])).
  - by exists 0%nat.
  - by exists 1%nat.
  - exists 4%nat, [VRef 3]. split; [done|]. split; [done|].
    constructor; [|constructor].
    eexists 3%nat, _, (VRef 2). split; [done|]. split; [reflexivity|].
    split; [by vm_compute|]. split; [by vm_compute|].
    split; [by exists 2%nat|]. split; [left|]; by vm_compute.
Defined.

(** *** Indexing [CHOICES] *)

Lemma index_CHOICES_is_Some (i : Z) : -10 <= i < 10 -> is_Some (index CHOICES i).
Proof.
  intros Hi. unfold index.
  change (Z.of_nat (length CHOICES)) with 10. change (Z.opp 10) with (-10).
  destruct (Z.leb_spec 0 i) as [Hpos|Hneg]; simpl.
  - rewrite (proj2 (Z.ltb_lt i 10)) by lia.
    apply lookup_lt_is_Some. simpl. lia.
  - rewrite (proj2 (Z.leb_le (-10) i)), (proj2 (Z.ltb_lt i 0)) by lia. simpl.
    apply lookup_lt_is_Some. simpl. lia.
Qed.

Lemma index_CHOICES_range (i : Z) : is_Some (index CHOICES i) <-> -10 <= i < 10.
Proof.
  split; [|apply index_CHOICES_is_Some].
  intros [x Hx]. unfold index in Hx.
  change (Z.of_nat (length CHOICES)) with 10 in Hx.
  change (Z.opp 10) with (-10) in Hx.
  destruct (Z.leb_spec 0 i), (Z.ltb_spec i 10), (Z.leb_spec (-10) i),
    (Z.ltb_spec i 0); simpl in Hx; try done; lia.
Qed.

(** *** The three patterns *)

Section Patterns.

Context `{UnicodeData}.

Lemma prev_of_cons (prev : option N) (c : N) (before : unicode) :
  prev_of prev (c :: before) = prev_of (Some c) before.
Proof.
  unfold prev_of. rewrite last_cons. by destruct (last before).
Qed.

(** [re.search] finds the match at the leftmost position that has one. *)
Lemma search_Some at_pos prev s c :
  Regex.search at_pos prev s = Some c <->
  exists before after,
    s = before ++ after /\
    at_pos (prev_of prev before) after = Some c /\
    forall before' after',
      s = before' ++ after' -> (length before' < length before)%nat ->
      at_pos (prev_of prev before') after' = None.
Proof.
  revert prev. induction s as [|x s IH]; intros prev; simpl.
  - split.
    + destruct (at_pos prev []) eqn:Hat; [|done]. intros [= ->].
      exists [], []. split; [done|]. split; [done|]. simpl. intros; lia.
    + intros (before & after & Hs & Hat & _).
      symmetry in Hs. apply app_eq_nil in Hs as [-> ->].
      unfold prev_of in Hat. simpl in Hat. by rewrite Hat.
  - destruct (at_pos prev (x :: s)) as [c0|] eqn:Hat.
    + split.
      * intros [= ->]. exists [], (x :: s). split; [done|]. split; [done|].
        simpl. intros; lia.
      * intros (before & after & Hs & Hc & Hleft).
        destruct before as [|b before].
        -- simpl in Hs. subst after. unfold prev_of in Hc. simpl in Hc. congruence.
        -- specialize (Hleft [] (x :: s) eq_refl ltac:(simpl; lia)).
           unfold prev_of in Hleft. simpl in Hleft. congruence.
    + rewrite IH. split.
      * intros (before & after & -> & Hc & Hleft).
        exists (x :: before), after. split; [done|].
        rewrite prev_of_cons. split; [done|].
        intros [|b before'] after' Hs Hlen.
        -- simpl in Hs. by subst after'.
        -- injection Hs as <- Hs. rewrite prev_of_cons.
           apply Hleft; [done | simpl in Hlen; lia].
      * intros (before & after & Hs & Hc & Hleft).
        destruct before as [|b before].
        -- simpl in Hs. subst after. unfold prev_of in Hc. simpl in Hc. congruence.
        -- injection Hs as <- ->. exists before, after. split; [done|].
           rewrite prev_of_cons in Hc. split; [done|].
           intros before' after' Hs Hlen.
           rewrite <- (prev_of_cons prev). apply Hleft; [by rewrite Hs | simpl; lia].
Qed.

Lemma search_None at_pos prev s :
  Regex.search at_pos prev s = None <->
  forall before after,
    s = before ++ after -> at_pos (prev_of prev before) after = None.
Proof.
  revert prev. induction s as [|x s IH]; intros prev; simpl.
  - split.
    + destruct (at_pos prev []) eqn:Hat; [done|]. intros _ before after Hs.
      symmetry in Hs. by apply app_eq_nil in Hs as [-> ->].
    + intros Hall. specialize (Hall [] [] eq_refl). unfold prev_of in Hall.
      simpl in Hall. by rewrite Hall.
  - destruct (at_pos prev (x :: s)) as [c0|] eqn:Hat.
    + split; [done|]. intros Hall.
      specialize (Hall [] (x :: s) eq_refl). unfold prev_of in Hall.
      simpl in Hall. congruence.
    + rewrite IH. split.
      * intros Hall [|b before] after Hs.
        -- simpl in Hs. by subst after.
        -- injection Hs as <- ->. rewrite prev_of_cons. by apply Hall.
      * intros Hall before after ->. rewrite <- (prev_of_cons prev). by apply Hall.
Qed.

Lemma lit_ci_spec (p s r : unicode) :
  Regex.lit_ci p s = Some r <->
  exists w, s = w ++ r /\ Forall2 (fun a b => matches_ci a b = true) p w.
Proof.
  revert s. induction p as [|a p IH]; intros s; simpl.
  - split.
    + intros [= ->]. by exists [].
    + intros (w & -> & Hw). by apply Forall2_nil_inv_l in Hw as ->.
  - destruct s as [|b s].
    + split; [done|]. intros (w & Hs & Hw).
      symmetry in Hs. apply app_eq_nil in Hs as [-> _]. by inversion Hw.
    + destruct (matches_ci a b) eqn:Hab.
      * rewrite IH. split.
        -- intros (w & -> & Hw). exists (b :: w). split; [done|].
           by constructor.
        -- intros (w & Hs & Hw). destruct w as [|b' w]; [by inversion Hw|].
           injection Hs as <- ->. apply Forall2_cons in Hw as [_ Hw].
           by exists w.
      * split; [done|]. intros (w & Hs & Hw).
        destruct w as [|b' w]; [by inversion Hw|].
        injection Hs as <- ->. apply Forall2_cons in Hw as [Hb _]. congruence.
Qed.

Lemma lit_spec (p s r : unicode) :
  Regex.lit p s = Some r <-> s = p ++ r.
Proof.
  revert s. induction p as [|a p IH]; intros s; simpl.
  - split; [by intros [= ->] | by intros ->].
  - destruct s as [|b s]; [done|].
    destruct (N.eqb_spec a b) as [->|Hab].
    + rewrite IH. split; [by intros -> | by intros [= ->]].
    + split; [done | intros [= -> _]; by destruct Hab].
Qed.

Lemma skip_spaces_spec (s : unicode) :
  exists ws, s = ws ++ Regex.skip_spaces s /\
             Forall (fun x => is_white x = true) ws /\
             is_white <$> head (Regex.skip_spaces s) <> Some true.
Proof.
  induction s as [|c s (ws & Hs & Hws & Hhd)]; simpl.
  - by exists [].
  - destruct (is_white c) eqn:Hc.
    + exists (c :: ws). split; [simpl; by f_equal|].
      split; [by constructor | done].
    + exists []. split; [done|]. split; [done|]. simpl. by rewrite Hc.
Qed.

Lemma skip_spaces_app (ws : unicode) (c : N) (after : unicode) :
  Forall (fun x => is_white x = true) ws -> is_white c = false ->
  Regex.skip_spaces (ws ++ c :: after) = c :: after.
Proof.
  intros Hws Hc. induction Hws as [|x ws Hx _ IH]; simpl.
  - by rewrite Hc.
  - by rewrite Hx.
Qed.

(** The code points of a range, one at a time. *)
Lemma between_spec (lo hi c : N) :
  between lo hi c = true <-> (lo <= c <= hi)%N.
Proof. unfold between. rewrite andb_true_iff, !N.leb_le. done. Qed.

Lemma between_enum (lo hi c : N) :
  between lo hi c = true ->
  c ∈ map (fun i => (lo + N.of_nat i)%N) (seq 0 (N.to_nat (hi + 1 - lo))).
Proof.
  rewrite between_spec. intros Hc. apply list_elem_of_fmap.
  exists (N.to_nat (c - lo)). split; [lia|]. apply elem_of_seq. lia.
Qed.

(** The members of the two classes.  A member of [[A-J]] under
    [re.IGNORECASE] is no parenthesis, and its upper case is one of
    [CHOICES] unless it is the dotted capital I, which is its own upper
    case. *)
Lemma is_AJ_ci_cases (c : N) :
  is_AJ_ci c = true ->
  c <> 40%N /\
  (group_upper c ∈ codes <$> CHOICES \/ c = 304%N /\ group_upper c = [304%N]).
Proof.
  unfold is_AJ_ci. rewrite !orb_true_iff, !N.eqb_eq.
  intros [[[Hc | Hc] | ->] | ->].
  - apply between_enum in Hc. vm_compute in Hc.
    repeat (apply elem_of_cons in Hc as [-> | Hc];
            [split; [done|]; left; vm_compute;
             repeat (first [by apply list_elem_of_here | apply list_elem_of_further])|]).
    by apply elem_of_nil in Hc.
  - apply between_enum in Hc. vm_compute in Hc.
    repeat (apply elem_of_cons in Hc as [-> | Hc];
            [split; [done|]; left; vm_compute;
             repeat (first [by apply list_elem_of_here | apply list_elem_of_further])|]).
    by apply elem_of_nil in Hc.
  - split; [done|]. by right.
  - split; [done|]. left. vm_compute.
    repeat (first [by apply list_elem_of_here | apply list_elem_of_further]).
Qed.

Lemma is_AJ_cases (c : N) :
  is_AJ c = true ->
  is_AJ_ci c = true /\ is_word c = true /\ is_white c = false /\
  group_upper c = [c] /\ group_upper c ∈ codes <$> CHOICES.
Proof.
  intros Hc. apply between_enum in Hc. vm_compute in Hc.
  repeat (apply elem_of_cons in Hc as [-> | Hc];
          [repeat (split; [done|]); vm_compute;
           repeat (first [by apply list_elem_of_here | apply list_elem_of_further])|]).
  by apply elem_of_nil in Hc.
Qed.

Lemma pattern1_at_spec (s : unicode) (c : N) :
  Regex.pattern1_at s = Some c <->
  exists w paren after,
    s = w ++ paren ++ c :: after /\
    reads_ci "answer is " w /\
    (paren = [] \/ paren = codes "(") /\
    is_AJ_ci c = true.
Proof.
  unfold Regex.pattern1_at. split.
  - destruct (Regex.lit_ci _ s) as [rest|] eqn:Hlit; [|done]. simpl.
    apply lit_ci_spec in Hlit as (w & -> & Hw).
    destruct rest as [|x rest]; [done|].
    destruct (N.eqb_spec x 40) as [->|Hx].
    + destruct rest as [|d rest]; [done|].
      destruct (is_AJ_ci d) eqn:Hd; [|done]. intros [= ->].
      exists w, (codes "("), rest. split; [done|]. split; [done|]. by split; [right|].
    + destruct (is_AJ_ci x) eqn:Hd; [|done]. intros [= ->].
      exists w, [], rest. split; [done|]. split; [done|]. by split; [left|].
  - intros (w & paren & after & -> & Hw & Hparen & Hc).
    assert (Regex.lit_ci (codes "answer is ") (w ++ paren ++ c :: after)
            = Some (paren ++ c :: after)) as ->.
    { apply lit_ci_spec. by exists w. }
    simpl. destruct (is_AJ_ci_cases c Hc) as [Hne _].
    destruct Hparen as [-> | ->]; simpl.
    + destruct (N.eqb_spec c 40); [done|]. by rewrite Hc.
    + by rewrite Hc.
Qed.

Lemma pattern2_at_spec (s : unicode) (c : N) :
  Regex.pattern2_at s = Some c <->
  exists a ws after,
    s = a :: codes "nswer:" ++ ws ++ c :: after /\
    (a = 97%N \/ a = 65%N) /\
    Forall (fun x => is_white x = true) ws /\
    is_AJ c = true.
Proof.
  unfold Regex.pattern2_at. split.
  - destruct s as [|a s]; [done|].
    destruct ((a =? 97) || (a =? 65))%N eqn:Ha; [|done].
    destruct (Regex.lit _ s) as [rest|] eqn:Hlit; [|done]. simpl.
    apply lit_spec in Hlit as ->.
    destruct (skip_spaces_spec rest) as (ws & Hrest & Hws & _).
    destruct (Regex.skip_spaces rest) as [|d tl]; [done|].
    destruct (is_AJ d) eqn:Hd; [|done]. intros [= ->].
    exists a, ws, tl. split; [by rewrite Hrest at 1|].
    split; [|done].
    apply orb_true_iff in Ha as [Ha | Ha]; apply N.eqb_eq in Ha; auto.
  - intros (a & ws & after & -> & Ha & Hws & Hc).
    assert (((a =? 97) || (a =? 65))%N = true) as ->.
    { by destruct Ha as [-> | ->]. }
    assert (Regex.lit (codes "nswer:") (codes "nswer:" ++ ws ++ c :: after)
            = Some (ws ++ c :: after)) as -> by by apply lit_spec.
    simpl. destruct (is_AJ_cases c Hc) as (_ & _ & Hsp & _).
    by rewrite skip_spaces_app, Hc.
Qed.

Lemma standalone_at_spec (prev : option N) (s : unicode) (c : N) :
  Regex.standalone_at prev s = Some c <->
  exists after,
    s = c :: after /\ is_AJ c = true /\
    Regex.is_word_opt prev = false /\
    Regex.is_word_opt (head after) = false.
Proof.
  unfold Regex.standalone_at, Regex.word_boundary. split.
  - destruct s as [|x after]; [done|]. simpl.
    destruct (is_AJ x) eqn:Hx; [|by rewrite andb_false_r].
    destruct (is_AJ_cases x Hx) as (_ & Hw & _). rewrite Hw.
    destruct (Regex.is_word_opt prev) eqn:Hprev,
             (Regex.is_word_opt (head after)) eqn:Hnext; simpl; try done.
    intros [= <-]. by exists after.
  - intros (after & -> & Hc & Hprev & Hnext). simpl.
    destruct (is_AJ_cases c Hc) as (_ & Hw & _).
    by rewrite Hw, Hprev, Hnext, Hc.
Qed.

Lemma standalone_from_spec (prev : option N) (s : unicode) :
  Regex.standalone_from prev s = true <->
  exists before after c,
    s = before ++ after /\
    Regex.standalone_at (prev_of prev before) after = Some c.
Proof.
  revert prev. induction s as [|x s IH]; intros prev; simpl.
  - split; [done|]. intros (before & after & c & Hs & Hc).
    symmetry in Hs. by apply app_eq_nil in Hs as [-> ->].
  - rewrite orb_true_iff, IH, bool_decide_eq_true. split.
    + intros [[c Hc] | (before & after & c & -> & Hc)].
      * by exists [], (x :: s), c.
      * exists (x :: before), after, c. by rewrite prev_of_cons.
    + intros (before & after & c & Hs & Hc). destruct before as [|b before].
      * left. simpl in Hs. subst after. by exists c.
      * right. injection Hs as <- ->. rewrite prev_of_cons in Hc.
        by exists before, after, c.
Qed.

(** The three notions of a match, read at a position of the text. *)
Lemma match1_at (t : unicode) (i : nat) (c : N) :
  match1 t i c <->
  exists before after,
    t = before ++ after /\ length before = i /\ Regex.pattern1_at after = Some c.
Proof.
  unfold match1. split.
  - intros (before & w & paren & after & -> & Hi & Hrest).
    exists before, (w ++ paren ++ c :: after). split; [done|]. split; [done|].
    apply pattern1_at_spec. by exists w, paren, after.
  - intros (before & rest & -> & Hi & Hat).
    apply pattern1_at_spec in Hat as (w & paren & after & -> & Hrest).
    by exists before, w, paren, after.
Qed.

Lemma match2_at (t : unicode) (i : nat) (c : N) :
  match2 t i c <->
  exists before after,
    t = before ++ after /\ length before = i /\ Regex.pattern2_at after = Some c.
Proof.
  unfold match2. split.
  - intros (before & a & ws & after & -> & Hi & Hrest).
    exists before, (a :: codes "nswer:" ++ ws ++ c :: after).
    split; [done|]. split; [done|].
    apply pattern2_at_spec. by exists a, ws, after.
  - intros (before & rest & -> & Hi & Hat).
    apply pattern2_at_spec in Hat as (a & ws & after & -> & Hrest).
    by exists before, a, ws, after.
Qed.

Lemma standalone_at_pos (t : unicode) (i : nat) (c : N) :
  standalone t i c <->
  exists before after,
    t = before ++ after /\ length before = i /\
    Regex.standalone_at (prev_of None before) after = Some c.
Proof.
  unfold standalone. split.
  - intros (before & after & -> & Hi & Hc & Hprev & Hnext).
    exists before, (c :: after). split; [done|]. split; [done|].
    apply standalone_at_spec. exists after. split; [done|]. split; [done|].
    split; [|done]. unfold prev_of. by destruct (last before).
  - intros (before & rest & -> & Hi & Hat).
    apply standalone_at_spec in Hat as (after & -> & Hc & Hprev & Hnext).
    exists before, after. split; [done|]. split; [done|]. split; [done|].
    split; [|done]. unfold prev_of in Hprev. by destruct (last before).
Qed.

(** A search over positions, read with a notion of match. *)
Lemma search_leftmost at_pos (t : unicode) (M : nat -> N -> Prop) :
  (forall i c, M i c <->
     exists before after,
       t = before ++ after /\ length before = i /\
       at_pos (prev_of None before) after = Some c) ->
  forall i c,
    M i c -> (forall j c', (j < i)%nat -> ~ M j c') ->
    Regex.search at_pos None t = Some c.
Proof.
  intros HM i c Hic Hleft. apply HM in Hic as (before & after & -> & Hi & Hat).
  apply search_Some. exists before, after. split; [done|]. split; [done|].
  intros before' after' Hs Hlen.
  destruct (at_pos (prev_of None before') after') as [c'|] eqn:Hat'; [|done].
  exfalso. apply (Hleft (length before') c'); [lia|].
  apply HM. by exists before', after'.
Qed.

Lemma search_no_match at_pos (t : unicode) (M : nat -> N -> Prop) :
  (forall i c, M i c <->
     exists before after,
       t = before ++ after /\ length before = i /\
       at_pos (prev_of None before) after = Some c) ->
  Regex.search at_pos None t = None <-> forall i c, ~ M i c.
Proof.
  intros HM. rewrite search_None. split.
  - intros Hnone i c Hic. apply HM in Hic as (before & after & Hs & _ & Hat).
    by rewrite (Hnone before after Hs) in Hat.
  - intros Hnone before after Hs.
    destruct (at_pos (prev_of None before) after) as [c|] eqn:Hat; [|done].
    exfalso. apply (Hnone (length before) c). apply HM. by exists before, after.
Qed.

Lemma search_result at_pos (t : unicode) (M : nat -> N -> Prop) (c : N) :
  (forall i c, M i c <->
     exists before after,
       t = before ++ after /\ length before = i /\
       at_pos (prev_of None before) after = Some c) ->
  Regex.search at_pos None t = Some c -> exists i, M i c.
Proof.
  intros HM Hs. apply search_Some in Hs as (before & after & Hs & Hat & _).
  exists (length before). apply HM. by exists before, after.
Qed.

(** Pattern 3 at a position: a letter that stands alone, with none
    standing alone after it. *)
Lemma pattern3_pos (t : unicode) (i : nat) (c : N) :
  (standalone t i c /\ forall j c', (i < j)%nat -> ~ standalone t j c') <->
  exists before after,
    t = before ++ after /\ length before = i /\
    Regex.pattern3_at (prev_of None before) after = Some c.
Proof.
  unfold Regex.pattern3_at. split.
  - intros [Hic Hlast].
    apply standalone_at_pos in Hic as (before & after & -> & Hi & Hat).
    exists before, after. split; [done|]. split; [done|]. rewrite Hat. simpl.
    destruct (Regex.standalone_from (Some c) (tail after)) eqn:Hfrom; [|done].
    exfalso. apply standalone_from_spec in Hfrom as (mid & rest & c' & Htl & Hc').
    apply standalone_at_spec in Hat as (after' & -> & _). simpl in Htl. subst after'.
    apply (Hlast (length (before ++ c :: mid)) c').
    { rewrite length_app. simpl. lia. }
    apply standalone_at_pos. exists (before ++ c :: mid), rest.
    split; [by rewrite <- app_assoc|]. split; [done|].
    rewrite <- Hc'. f_equal. unfold prev_of.
    rewrite last_app, last_cons. by destruct (last mid).
  - intros (before & after & -> & Hi & Hat).
    destruct (Regex.standalone_at (prev_of None before) after) as [c0|] eqn:Hc0;
      [|done].
    simpl in Hat.
    destruct (Regex.standalone_from (Some c0) (tail after)) eqn:Hfrom; [done|].
    injection Hat as ->. split.
    + apply standalone_at_pos. by exists before, after.
    + intros j c' Hj Hjc.
      apply standalone_at_pos in Hjc as (before' & after' & Hs & Hlen & Hat').
      apply standalone_at_spec in Hc0 as (tl & -> & _). simpl in Hfrom.
      apply app_eq_inv in Hs as [(k & Hb & Ha) | (k & Hb & Ha)].
      * subst before. rewrite length_app in Hi. lia.
      * subst before'. rewrite length_app in Hlen.
        destruct k as [|x k]; [simpl in Hlen; lia|].
        injection Ha as <- ->.
        assert (Regex.standalone_from (Some c) (k ++ after') = true) as Htrue.
        { apply standalone_from_spec. exists k, after', c'. split; [done|].
          rewrite <- Hat'. f_equal. unfold prev_of.
          rewrite last_app, last_cons. by destruct (last k). }
        congruence.
Qed.

(** *** extract_answer *)

Lemma extract_answer_unfold (text : unicode) :
  extract_answer text =
  match Regex.search (fun _ => Regex.pattern1_at) None text with
  | Some c => Some (group_upper c)
  | None =>
      match Regex.search (fun _ => Regex.pattern2_at) None text with
      | Some c => Some (group_upper c)
      | None =>
          match Regex.search Regex.pattern3_at None text with
          | Some c => Some (group_upper c)
          | None => None
          end
      end
  end.
Proof. reflexivity. Qed.

(** C2, as the code has it.  [extract_answer] tries three tiers in order
    and the first that matches decides.  (1) Where [answer is ], case
    ignored as [re.IGNORECASE] ignores it (the long s counts as an s, the
    dotted capital I and the dotless i as an i), followed by at most one
    opening parenthesis and a member of [[A-J]] under [re.IGNORECASE] (a
    letter A-J of either case, the dotted capital I or the dotless i)
    occurs, the character of the leftmost occurrence is returned in upper
    case.  (2) Otherwise, where [answer:] or [Answer:] followed by any
    white space and a capital letter A-J occurs, the letter of the
    leftmost occurrence is returned.  (3) Otherwise, where a capital
    letter A-J stands alone, that is with no word character (letter,
    digit or underscore) on either side, the last such letter is
    returned.  The text after a match, and what later tiers would find,
    play no part.  Every answer returned is one of [CHOICES], but for the
    dotted capital I (U+0130), which only the first tier returns. *)
Theorem extract_answer_tiers (text : unicode) :
  (forall i c,
      match1 text i c ->
      (forall j c', (j < i)%nat -> ~ match1 text j c') ->
      extract_answer text = Some [upper_letter c]) /\
  ((forall i c, ~ match1 text i c) ->
   forall i c,
     match2 text i c ->
     (forall j c', (j < i)%nat -> ~ match2 text j c') ->
     extract_answer text = Some [c]) /\
  ((forall i c, ~ match1 text i c) ->
   (forall i c, ~ match2 text i c) ->
   forall i c,
     standalone text i c ->
     (forall j c', (i < j)%nat -> ~ standalone text j c') ->
     extract_answer text = Some [c]) /\
  (forall r,
      extract_answer text = Some r ->
      r ∈ codes <$> CHOICES \/
      r = [304%N] /\ exists i, match1 text i 304%N) /\
  (forall c, is_AJ_ci c = true ->
             [upper_letter c] ∈ codes <$> CHOICES \/ c = 304%N).
Proof.
  rewrite extract_answer_unfold.
  pose proof (match1_at text) as H1.
  pose proof (match2_at text) as H2.
  pose proof (fun i c => iff_sym (pattern3_pos text i c)) as H3.
  assert (forall i c,
             (exists before after,
                 text = before ++ after /\ length before = i /\
                 Regex.pattern3_at (prev_of None before) after = Some c) ->
             is_AJ c = true) as H3AJ.
  { intros i c Hex. apply H3 in Hex as [Hst _].
    by destruct Hst as (? & ? & _ & _ & ? & _). }
  split; [|split; [|split; [|split]]].
  - intros i c Hic Hleft.
    by rewrite (search_leftmost (fun _ => Regex.pattern1_at) _ _ H1 i c Hic Hleft).
  - intros Hno1 i c Hic Hleft.
    rewrite (proj2 (search_no_match (fun _ => Regex.pattern1_at) _ _ H1) Hno1).
    rewrite (search_leftmost (fun _ => Regex.pattern2_at) _ _ H2 i c Hic Hleft).
    destruct Hic as (? & ? & ? & ? & _ & _ & _ & _ & Hc).
    by destruct (is_AJ_cases c Hc) as (_ & _ & _ & -> & _).
  - intros Hno1 Hno2 i c Hic Hlast.
    rewrite (proj2 (search_no_match (fun _ => Regex.pattern1_at) _ _ H1) Hno1).
    rewrite (proj2 (search_no_match (fun _ => Regex.pattern2_at) _ _ H2) Hno2).
    assert (Regex.search Regex.pattern3_at None text = Some c) as ->.
    { apply search_Some.
      destruct (proj1 (pattern3_pos text i c) (conj Hic Hlast))
        as (before & after & Hs & Hi & Hat).
      exists before, after. split; [done|]. split; [done|].
      intros before' after' Hs' Hlen.
      destruct (Regex.pattern3_at (prev_of None before') after') as [c'|] eqn:Hat';
        [|done].
      exfalso.
      destruct (proj1 (H3 (length before') c')) as [_ Hnone];
        [by exists before', after'|].
      apply (Hnone i c); [lia | done]. }
    destruct Hic as (? & ? & _ & _ & Hc & _).
    by destruct (is_AJ_cases c Hc) as (_ & _ & _ & -> & _).
  - intros r.
    destruct (Regex.search (fun _ => Regex.pattern1_at) None text)
      as [c|] eqn:Hs1.
    { intros [= <-].
      apply (search_result _ _ _ _ H1) in Hs1 as [i Hic].
      pose proof Hic as (? & ? & ? & ? & _ & _ & _ & _ & Hc).
      destruct (is_AJ_ci_cases c Hc) as [_ [Hin | [-> Hup]]]; [by left|].
      right. split; [done|]. by exists i. }
    destruct (Regex.search (fun _ => Regex.pattern2_at) None text)
      as [c|] eqn:Hs2.
    { intros [= <-].
      apply (search_result _ _ _ _ H2) in Hs2 as [i Hic].
      destruct Hic as (? & ? & ? & ? & _ & _ & _ & _ & Hc).
      left. by apply is_AJ_cases. }
    destruct (Regex.search Regex.pattern3_at None text) as [c|] eqn:Hs3;
      [|done].
    intros [= <-].
    apply search_Some in Hs3 as (before & after & Hs & Hat & _).
    left. apply is_AJ_cases, (H3AJ (length before)).
    by exists before, after.
  - intros c Hc. destruct (is_AJ_ci_cases c Hc) as [_ [Hin | [-> _]]];
      [by left | by right].
Qed.

(** C7. [extract_answer] is a function of the text alone and has a value
    for every text: [None], or the one character of a match in upper
    case.  The value is [None] exactly when none of the three patterns
    matches anywhere.  In the scoring loop a prediction of [None] equals
    no gold letter: the item is counted in the totals of its category and
    domain and in no counter of correct answers, and its row records [0];
    whatever the text, the loop raises for an item only when its gold
    index is out of range. *)
Theorem extract_answer_none (text : unicode) :
  (extract_answer text = None \/
   exists c, is_AJ_ci c = true /\ extract_answer text = Some [upper_letter c]) /\
  (extract_answer text = None <->
   (forall i c, ~ match1 text i c) /\
   (forall i c, ~ match2 text i c) /\
   (forall i c, ~ standalone text i c)) /\
  (forall g, pred_eq None g = false) /\
  (forall i item output t,
      generated_text_of output = text ->
      (is_Some (score_step i item output t) <->
       -10 <= answer_index item < 10)) /\
  (forall i item output t t',
      generated_text_of output = text ->
      extract_answer text = None ->
      score_step i item output t = Some t' ->
      is_correct (item, output) = false /\
      by_category_correct t' = by_category_correct t /\
      by_domain_correct t' = by_domain_correct t /\
      by_category_total t' =
        Counter.incr (by_category_total t) (category item) /\
      by_domain_total t' =
        Counter.incr (by_domain_total t) (get_domain (category item)) /\
      exists row,
        sample_rows t' = sample_rows t ++ [row] /\
        row_pred row = None /\ row_correct row = 0).
Proof.
  split; [|split; [|split; [done|split]]].
  - rewrite extract_answer_unfold.
    destruct (Regex.search (fun _ => Regex.pattern1_at) None text)
      as [c|] eqn:Hs1.
    { right. exists c. split; [|done].
      apply (search_result _ _ _ _ (match1_at text)) in Hs1 as [i Hic].
      by destruct Hic as (? & ? & ? & ? & _ & _ & _ & _ & Hc). }
    destruct (Regex.search (fun _ => Regex.pattern2_at) None text)
      as [c|] eqn:Hs2.
    { right. exists c. split; [|done].
      apply (search_result _ _ _ _ (match2_at text)) in Hs2 as [i Hic].
      destruct Hic as (? & ? & ? & ? & _ & _ & _ & _ & Hc).
      by apply is_AJ_cases. }
    destruct (Regex.search Regex.pattern3_at None text) as [c|] eqn:Hs3;
      [|by left].
    right. exists c. split; [|done].
    apply search_Some in Hs3 as (before & after & Hs & Hat & _).
    destruct (proj2 (pattern3_pos text (length before) c)) as [Hst _];
      [by exists before, after|].
    destruct Hst as (? & ? & _ & _ & Hc & _). by apply is_AJ_cases.
  - rewrite extract_answer_unfold.
    rewrite <- (search_no_match (fun _ => Regex.pattern1_at) _ _ (match1_at _)).
    rewrite <- (search_no_match (fun _ => Regex.pattern2_at) _ _ (match2_at _)).
    assert (Regex.search Regex.pattern3_at None text = None <->
            forall i c, ~ standalone text i c) as <-.
    { rewrite search_None. split.
      - intros Hnone.
        assert (forall n i c, (length text - i <= n)%nat ->
                              ~ standalone text i c) as Hind.
        { induction n as [|n IH]; intros i c Hn Hic.
          - destruct Hic as (before & after & Hs & Hi & _).
            apply (f_equal length) in Hs. rewrite length_app in Hs. simpl in Hs. lia.
          - destruct (proj1 (pattern3_pos text i c)) as
              (before & after & Hs & _ & Hat).
            + split; [done|]. intros j c' Hj. apply IH. lia.
            + by rewrite (Hnone before after Hs) in Hat. }
        intros i c. apply (Hind (length text)). lia.
      - intros Hnone before after Hs.
        destruct (Regex.pattern3_at (prev_of None before) after) as [c|] eqn:Hat;
          [|done].
        exfalso. apply (Hnone (length before) c).
        apply (proj2 (pattern3_pos text (length before) c)).
        by exists before, after. }
    destruct (Regex.search (fun _ => Regex.pattern1_at) None text);
      [split; [done | by intros [? _]]|].
    destruct (Regex.search (fun _ => Regex.pattern2_at) None text);
      [split; [done | by intros (_ & ? & _)]|].
    destruct (Regex.search Regex.pattern3_at None text);
      [split; [done | by intros (_ & _ & ?)]|].
    done.
  - intros i item output t _. unfold score_step.
    rewrite <- index_CHOICES_range.
    destruct (index CHOICES (answer_index item)) as [g|]; simpl.
    + split; intros _; by eexists.
    + split; by intros [? ?].
  - intros i item output t t' Htext Hnone. unfold score_step, is_correct, gold.
    simpl. rewrite Htext, Hnone. simpl.
    destruct (index CHOICES (answer_index item)) as [g|]; [|done]. simpl.
    intros [= <-]. simpl. repeat (split; [done|]).
    eexists. split; [done|]. done.
Qed.

End Patterns.

(** *** Texts below U+0100 *)

(** On a text that holds no code point from U+0100 on the character
    database plays no part: every database gives the same answer. *)
Section Latin.

Variables d1 d2 : UnicodeData.

Lemma is_word_opt_small (o : option N) :
  small_opt o -> @Regex.is_word_opt d1 o = @Regex.is_word_opt d2 o.
Proof.
  destruct o as [c|]; [|done]. simpl. unfold small, is_word. intros Hc.
  by rewrite (proj2 (N.ltb_lt c 256) Hc).
Qed.

Lemma small_head (s : unicode) : Forall small s -> small_opt (head s).
Proof. by destruct 1. Qed.

Lemma standalone_at_small (prev : option N) (s : unicode) :
  small_opt prev -> Forall small s ->
  @Regex.standalone_at d1 prev s = @Regex.standalone_at d2 prev s.
Proof.
  intros Hprev Hs. destruct Hs as [|c rest Hc Hrest]; [done|].
  unfold Regex.standalone_at, Regex.word_boundary.
  rewrite (is_word_opt_small prev), (is_word_opt_small (head (c :: rest))),
    (is_word_opt_small (Some c)), (is_word_opt_small (head rest));
    try done; by apply small_head.
Qed.

Lemma standalone_from_small (s : unicode) :
  Forall small s ->
  forall prev, small_opt prev ->
    @Regex.standalone_from d1 prev s = @Regex.standalone_from d2 prev s.
Proof.
  induction 1 as [|c rest Hc Hrest IH]; intros prev Hprev;
    cbn [Regex.standalone_from]; [done|].
  rewrite (standalone_at_small prev (c :: rest)) by (done || by constructor).
  by rewrite IH.
Qed.

Lemma pattern3_at_small (prev : option N) (s : unicode) :
  small_opt prev -> Forall small s ->
  @Regex.pattern3_at d1 prev s = @Regex.pattern3_at d2 prev s.
Proof.
  intros Hprev Hs. unfold Regex.pattern3_at.
  rewrite (standalone_at_small prev s) by done.
  destruct (@Regex.standalone_at d2 prev s) as [c|] eqn:Hat; [|done]. simpl.
  destruct Hs as [|c' rest Hc Hrest]; [done|].
  assert (c = c') as ->.
  { apply standalone_at_spec in Hat as (after & Heq & _). by injection Heq. }
  simpl. by rewrite (standalone_from_small rest).
Qed.

Lemma search_pattern3_small (s : unicode) :
  Forall small s ->
  forall prev, small_opt prev ->
    Regex.search (@Regex.pattern3_at d1) prev s
    = Regex.search (@Regex.pattern3_at d2) prev s.
Proof.
  induction 1 as [|c rest Hc Hrest IH]; intros prev Hprev;
    cbn [Regex.search].
  - by rewrite (pattern3_at_small prev []).
  - rewrite (pattern3_at_small prev (c :: rest)) by (done || by constructor).
    by rewrite IH.
Qed.

Lemma extract_answer_small (text : unicode) :
  Forall small text -> @extract_answer d1 text = @extract_answer d2 text.
Proof.
  intros Htext. unfold extract_answer.
  by rewrite (search_pattern3_small text).
Qed.

End Latin.

Lemma small_codes (s : string) : Forall small (codes s).
Proof.
  unfold codes. apply Forall_fmap, Forall_forall. intros c _.
  unfold small, code, compose. simpl. apply (N_ascii_bounded c).
Qed.

Lemma extract_answer_tiers_witness :
  extract_answer (codes "Answer: B, so the answer is (c).") = Some (codes "C").
Proof.
  refine (proj1 (extract_answer_tiers (codes "Answer: B, so the answer is (c)."))
            18%nat 99%N _ _).
  - exists (codes "Answer: B, so the "), (codes "answer is "), (codes "("),
      (codes ").").
    split; [reflexivity|]. split; [reflexivity|].
    split; [repeat constructor|].
    split; [by right | reflexivity].
  - intros j c' Hj Hm. apply match1_at in Hm as (before & after & Hs & Hlen & Hat).
    do 18 (destruct before as [|? before];
           [simpl in Hs; subst after; vm_compute in Hat; discriminate|];
           injection Hs as <- Hs).
    simpl in Hlen. lia.
Defined.

(** C2, as stated, fails on ["2B"]: the capital B has no letter on
    either side, the first two patterns occur nowhere, and nothing is
    extracted, because the digit before the B is a word character.  The
    text is ASCII, and this is so with every character database. *)
Lemma extract_answer_letter_after_digit :
  (forall d : UnicodeData, @letter_bounded d (codes "2B") 1 66%N) /\
  (forall i c, ~ match1 (codes "2B") i c) /\
  (forall i c, ~ match2 (codes "2B") i c) /\
  (forall d : UnicodeData, @extract_answer d (codes "2B") = None).
Proof.
  split; [|split; [|split]].
  - intros d. exists (codes "2"), []. repeat split; reflexivity.
  - by apply (search_no_match (fun _ => Regex.pattern1_at) _ _ (match1_at _)).
  - by apply (search_no_match (fun _ => Regex.pattern2_at) _ _ (match2_at _)).
  - intros d. rewrite (extract_answer_small d Fixture.basic_data)
      by apply small_codes.
    reflexivity.
Qed.

(** The examples of the specification, and three texts that leave
    ASCII: a long s is read as an s and a dotless i as an i, and the
    dotted capital I is returned as it is. *)
Example extract_answer_is :
  extract_answer (codes "so the answer is (C), I think") = Some (codes "C").
Proof. reflexivity. Qed.

Example extract_answer_colon : extract_answer (codes "Answer: B") = Some (codes "B").
Proof. reflexivity. Qed.

Example extract_answer_last_letter :
  extract_answer (codes "... A ... B") = Some (codes "B").
Proof. reflexivity. Qed.

Example extract_answer_no_letter : extract_answer (codes "no letter here") = None.
Proof. reflexivity. Qed.

Example extract_answer_long_s :
  extract_answer (codes "an" ++ [383%N] ++ codes "wer i" ++ [383%N] ++ codes " (c)")
  = Some (codes "C").
Proof. reflexivity. Qed.

Example extract_answer_dotless_i :
  extract_answer (codes "answer is " ++ [305%N]) = Some (codes "I").
Proof. reflexivity. Qed.

Example extract_answer_dotted_I :
  extract_answer (codes "answer is " ++ [304%N]) = Some [304%N].
Proof. reflexivity. Qed.

(** An output with none of the patterns scores as incorrect. *)
Lemma extract_answer_none_witness :
  is_correct (Fixture.test_item, [codes "no letter here"]) = false.
Proof.
  refine (proj1 (proj2 (proj2 (proj2 (proj2
                   (extract_answer_none (codes "no letter here")))))
                   0%nat Fixture.test_item [codes "no letter here"] empty_tally _
                   eq_refl eq_refl _)).
  vm_compute. reflexivity.
Defined.

(** *** One prompt per test item, examples of the same category *)

Lemma val_step_lookup (m : gmap string (list Item)) (item : Item) (c : string) :
  default [] (val_step m item !! c)
  = default [] (m !! c) ++ filter (fun it => category it = c) [item].
Proof.
  unfold val_step. destruct (decide (category item = c)) as [<-|Hne].
  - rewrite lookup_insert_eq. simpl.
    by rewrite filter_cons_True, filter_nil.
  - rewrite lookup_insert_ne by done.
    by rewrite filter_cons_False, filter_nil, app_nil_r.
Qed.

Lemma group_fold_lookup (val_data : list Item) (m : gmap string (list Item))
    (c : string) :
  default [] (fold_left val_step val_data m !! c)
  = default [] (m !! c) ++ filter (fun it => category it = c) val_data.
Proof.
  revert m. induction val_data as [|item val_data IH]; intros m; simpl.
  - by rewrite filter_nil, app_nil_r.
  - rewrite IH, val_step_lookup, <- app_assoc. f_equal.
    by rewrite <- filter_app.
Qed.

(** [val_by_category.get(c, [])] is the validation items of category [c],
    in the order of the validation split. *)
Lemma group_by_category_lookup (val_data : list Item) (c : string) :
  default [] (group_by_category val_data !! c)
  = filter (fun it => category it = c) val_data.
Proof. unfold group_by_category. by rewrite group_fold_lookup, lookup_empty. Qed.

Lemma select_few_shot_elem (val_data : list Item) (c : string) (k : Z) (ex : Item) :
  ex ∈ select_few_shot (group_by_category val_data) c k ->
  ex ∈ val_data /\ category ex = c.
Proof.
  unfold select_few_shot. intros Hex. apply elem_of_slice_to in Hex.
  rewrite group_by_category_lookup in Hex.
  by apply list_elem_of_filter in Hex as [? ?].
Qed.

Lemma score_loop_rows `{UnicodeData} (pairs : list (Item * RequestOutput)) :
  forall (i : nat) (t t' : Tally),
    score_loop i pairs t = Some t' ->
    length (sample_rows t') = (length (sample_rows t) + length pairs)%nat /\
    (forall j, (j < length (sample_rows t))%nat ->
               sample_rows t' !! j = sample_rows t !! j) /\
    forall j item output,
      pairs !! j = Some (item, output) ->
      exists row,
        sample_rows t' !! (length (sample_rows t) + j)%nat = Some row /\
        row_idx row = Z.of_nat (i + j) /\
        row_question_id row = question_id item /\
        row_category row = category item /\
        row_domain row = get_domain (category item) /\
        gold item = Some (row_answer row) /\
        row_pred row = extract_answer (generated_text_of output) /\
        row_correct row = (if is_correct (item, output) then 1 else 0) /\
        row_model_output row = take 500 (generated_text_of output).
Proof.
  induction pairs as [|[item output] pairs IH]; intros i t t'; simpl.
  - intros [= <-]. split; [lia|]. split; [done|]. intros j ? ? Hj.
    by rewrite lookup_nil in Hj.
  - unfold score_step.
    destruct (index CHOICES (answer_index item)) as [g|] eqn:Hg; [|done].
    simpl. intros Hloop. apply IH in Hloop as (Hlen & Hold & Hnew).
    simpl in Hlen, Hold, Hnew. rewrite length_app in Hlen, Hold, Hnew.
    simpl in Hlen, Hold, Hnew.
    split; [lia|]. split.
    + intros j Hj. rewrite Hold by lia. by rewrite lookup_app_l.
    + intros [|j] item' output' Hj; simpl in Hj.
      * injection Hj as <- <-. eexists.
        rewrite Nat.add_0_r, Hold by lia.
        rewrite lookup_app_r, Nat.sub_diag by lia. simpl.
        split; [done|]. rewrite Nat.add_0_r.
        unfold is_correct, gold. simpl. rewrite Hg. done.
      * destruct (Hnew j item' output' Hj) as (row & Hrow & Hidx & Hrest).
        exists row. split.
        { rewrite <- Hrow. f_equal. lia. }
        split; [rewrite Hidx; f_equal; lia | done].
Qed.

Section Pipeline.

Variable tokenizer_encode : string -> list Z.
Variable max_model_len : Z.
Variable use_cot : bool.

Lemma build_prompts_lookup (val_by_category : gmap string (list Item))
    (num_few_shot : Z) (test_data : list Item) (prompts : list string) :
  build_prompts tokenizer_encode max_model_len use_cot val_by_category
                num_few_shot test_data = Some prompts ->
  length prompts = length test_data /\
  forall i item,
    test_data !! i = Some item ->
    exists p,
      prompts !! i = Some p /\
      build_prompt tokenizer_encode max_model_len use_cot val_by_category
                   num_few_shot item = Some p.
Proof.
  revert prompts. induction test_data as [|item0 test_data IH]; intros prompts; simpl.
  - intros [= <-]. split; [done|]. intros i item Hi. by rewrite lookup_nil in Hi.
  - destruct (build_prompt _ _ _ _ _ item0) as [p0|] eqn:Hp0; [|done]. simpl.
    destruct (build_prompts _ _ _ _ _ test_data) as [ps|] eqn:Hps; [|done].
    simpl. intros [= <-]. destruct (IH ps eq_refl) as [Hlen Hall].
    split; [simpl; by f_equal|].
    intros [|i] item Hi; simpl in Hi.
    + injection Hi as <-. by exists p0.
    + by apply Hall.
Qed.

(** The prompt of an item is [format_prompt] applied to examples taken
    from the few-shot pool of the item. *)
Lemma build_prompt_shots (val_by_category : gmap string (list Item))
    (num_few_shot : Z) (item : Item) (p : string) :
  build_prompt tokenizer_encode max_model_len use_cot val_by_category
               num_few_shot item = Some p ->
  exists shots,
    format_prompt (question item) (options item) (category item)
                  (Some shots) use_cot = Some p /\
    forall ex, ex ∈ shots ->
               ex ∈ select_few_shot val_by_category (category item) num_few_shot.
Proof.
  unfold build_prompt.
  set (few_shot := select_few_shot val_by_category (category item) num_few_shot).
  assert (forall k r,
    format_prompt (question item) (options item) (category item)
      (if 0 <? k then Some (slice_to few_shot k) else None) use_cot = Some r ->
    exists shots,
      format_prompt (question item) (options item) (category item)
                    (Some shots) use_cot = Some r /\
      forall ex, ex ∈ shots -> ex ∈ few_shot) as Hcount.
  { intros k r Hr. destruct (0 <? k).
    - exists (slice_to few_shot k). split; [done|].
      intros ex. apply elem_of_slice_to.
    - exists []. split; [done|]. intros ex Hex. by apply elem_of_nil in Hex. }
  destruct (format_prompt _ _ _ _ _) as [p0|] eqn:Hp0; [|done]. simpl.
  assert (exists shots,
    format_prompt (question item) (options item) (category item)
                  (Some shots) use_cot = Some p0 /\
    forall ex, ex ∈ shots -> ex ∈ few_shot) as Hinit.
  { destruct (0 <? num_few_shot).
    - exists few_shot. by split.
    - exists []. split; [done|]. intros ex Hex. by apply elem_of_nil in Hex. }
  destruct (token_len tokenizer_encode p0 >? budget max_model_len).
  - intros Hr. apply shrink_result in Hr as [[_ ->] | (j & _ & Hj)]; [done|].
    by apply (Hcount j).
  - by intros [= <-].
Qed.

(** C6. The loop builds one prompt per test item, in the order of the
    test items; every example of a prompt is an item of the validation
    data whose category is that of the test item; and when the backend
    returns as many outputs as it was given prompts, row [i] of the
    result scores test item [i] against output [i]. *)
Theorem one_prompt_per_item_same_category `{UnicodeData}
    (val_data test_data : list Item) (num_few_shot : Z)
    (prompts : list string) :
  build_prompts tokenizer_encode max_model_len use_cot
                (group_by_category val_data) num_few_shot test_data
    = Some prompts ->
  length prompts = length test_data /\
  (forall i item,
      test_data !! i = Some item ->
      exists p shots,
        prompts !! i = Some p /\
        build_prompt tokenizer_encode max_model_len use_cot
                     (group_by_category val_data) num_few_shot item = Some p /\
        format_prompt (question item) (options item) (category item)
                      (Some shots) use_cot = Some p /\
        forall ex, ex ∈ shots ->
                   ex ∈ val_data /\ category ex = category item) /\
  (forall outputs report,
      length outputs = length prompts ->
      score test_data outputs = Some report ->
      length (rows report) = length test_data /\
      forall i item output,
        test_data !! i = Some item -> outputs !! i = Some output ->
        exists row,
          rows report !! i = Some row /\
          row_idx row = Z.of_nat i /\
          row_question_id row = question_id item /\
          row_category row = category item /\
          row_pred row = extract_answer (generated_text_of output) /\
          row_correct row = (if is_correct (item, output) then 1 else 0) /\
          row_model_output row = take 500 (generated_text_of output)).
Proof.
  intros Hbuild. apply build_prompts_lookup in Hbuild as [Hlen Hall].
  split; [done|]. split.
  - intros i item Hi. destruct (Hall i item Hi) as (p & Hp & Hbp).
    destruct (build_prompt_shots _ _ _ _ Hbp) as (shots & Hshots & Hfrom).
    exists p, shots. split; [done|]. split; [done|]. split; [done|].
    intros ex Hex. by apply (select_few_shot_elem val_data _ num_few_shot), Hfrom.
  - intros outputs report Hout. unfold score.
    destruct (score_loop 0 (zip test_data outputs) empty_tally) as [t|] eqn:Ht;
      [|done].
    simpl. intros [= <-]. simpl.
    apply score_loop_rows in Ht as (Hrows & _ & Hnew). simpl in Hrows, Hnew.
    split.
    + rewrite Hrows, length_zip_with. lia.
    + intros i item output Hi Ho.
      destruct (Hnew i item output)
        as (row & Hrow & Hidx & Hq & Hc & _ & _ & Hp & Hcor & Hm).
      { apply lookup_zip_with_Some. by exists item, output. }
      by exists row.
Qed.

End Pipeline.

Lemma one_prompt_per_item_same_category_witness :
  exists prompts,
    build_prompts Fixture.char_tokens 2398 true
      (group_by_category Fixture.validation3) 2
      [Fixture.test_item; Fixture.test_item] = Some prompts /\
    length prompts = 2%nat.
Proof.
  eexists.
  refine (let H := _ in
          conj H (proj1 (one_prompt_per_item_same_category
                           Fixture.char_tokens 2398 true Fixture.validation3
                           [Fixture.test_item; Fixture.test_item] 2 _ H))).
  vm_compute. reflexivity.
Defined.

(** *** Aggregation *)

Lemma counter_total_incr (c : gmap string Z) (k : string) :
  Counter.total (Counter.incr c k) = Counter.total c + 1.
Proof.
  unfold Counter.total, Counter.incr, Counter.get.
  assert (forall (m : gmap string Z) (j1 j2 : string) (z1 z2 y : Z),
             j1 <> j2 -> m !! j1 = Some z1 -> m !! j2 = Some z2 ->
             z1 + (z2 + y) = z2 + (z1 + y)) as Hcomm by (intros; lia).
  destruct (c !! k) as [v|] eqn:Hk; simpl.
  - rewrite <- insert_delete_eq.
    rewrite map_fold_insert_L; [|by apply Hcomm | by apply lookup_delete_eq].
    rewrite (map_fold_delete_L _ _ k v c); [lia | by apply Hcomm | done].
  - rewrite map_fold_insert_L; [lia | by apply Hcomm | done].
Qed.

Lemma count_nonneg p pairs : 0 <= count p pairs.
Proof. unfold count. lia. Qed.

Lemma count_snoc p pairs x :
  count p (pairs ++ [x]) = count p pairs + (if p x then 1 else 0).
Proof.
  unfold count. rewrite List.filter_app, length_app. simpl.
  destruct (p x); simpl; lia.
Qed.

Lemma count_all pairs : count (fun _ => true) pairs = Z.of_nat (length pairs).
Proof.
  unfold count. f_equal. f_equal. induction pairs; simpl; by f_equal.
Qed.

(** A counter of totals, keyed by [key], after one more pair. *)
Lemma counter_total_step (c : gmap string Z)
    (key : Item * RequestOutput -> string) pairs x :
  (forall k, c !! k
             = if count (fun p => String.eqb (key p) k) pairs =? 0 then None
               else Some (count (fun p => String.eqb (key p) k) pairs)) ->
  forall k, Counter.incr c (key x) !! k
            = if count (fun p => String.eqb (key p) k) (pairs ++ [x]) =? 0
              then None
              else Some (count (fun p => String.eqb (key p) k) (pairs ++ [x])).
Proof.
  intros Hc k. rewrite count_snoc. unfold Counter.incr, Counter.get.
  pose proof (count_nonneg (fun p => String.eqb (key p) k) pairs) as Hk.
  destruct (decide (key x = k)) as [<-|Hne].
  - rewrite lookup_insert_eq, String.eqb_refl, Hc.
    set (n := count _ pairs) in *.
    destruct (Z.eqb_spec (n + 1) 0) as [?|_]; [lia|].
    by destruct (Z.eqb_spec n 0) as [->|?].
  - rewrite lookup_insert_ne by done.
    rewrite (proj2 (String.eqb_neq _ _) Hne), Z.add_0_r. apply Hc.
Qed.

(** A counter of correct answers, keyed by [key], after one more pair. *)
Lemma counter_correct_step `{UnicodeData} (c : gmap string Z)
    (key : Item * RequestOutput -> string) pairs x :
  (forall k, Counter.get c k
             = count (fun p => String.eqb (key p) k && is_correct p) pairs) ->
  forall k, Counter.get (if is_correct x then Counter.incr c (key x) else c) k
            = count (fun p => String.eqb (key p) k && is_correct p) (pairs ++ [x]).
Proof.
  intros Hc k. rewrite count_snoc.
  destruct (is_correct x); [|rewrite andb_false_r, Z.add_0_r; apply Hc].
  rewrite andb_true_r. unfold Counter.incr.
  destruct (decide (key x = k)) as [<-|Hne].
  - unfold Counter.get at 1. rewrite lookup_insert_eq, String.eqb_refl. simpl.
    by rewrite Hc.
  - unfold Counter.get at 1. rewrite lookup_insert_ne by done.
    rewrite (proj2 (String.eqb_neq _ _) Hne), Z.add_0_r. apply Hc.
Qed.

Lemma tallied_empty `{UnicodeData} : tallied empty_tally [].
Proof. split; intros; by vm_compute. Qed.

Lemma score_step_tallied `{UnicodeData} i item output t t' pairs :
  score_step i item output t = Some t' ->
  tallied t pairs -> tallied t' (pairs ++ [(item, output)]).
Proof.
  unfold score_step.
  destruct (index CHOICES (answer_index item)) as [g|] eqn:Hg; [|done].
  simpl. intros [= <-] [Hct Hcc Hdt Hdc Htot Hcor].
  assert (pred_eq (extract_answer (generated_text_of output)) g
          = is_correct (item, output)) as Heq.
  { unfold is_correct, gold. simpl. by rewrite Hg. }
  rewrite Heq. split; simpl.
  - apply (counter_total_step _ (fun p => category p.1) pairs (item, output) Hct).
  - apply (counter_correct_step _ (fun p => category p.1) pairs (item, output) Hcc).
  - apply (counter_total_step _ (fun p => get_domain (category p.1)) pairs
             (item, output) Hdt).
  - apply (counter_correct_step _ (fun p => get_domain (category p.1)) pairs
             (item, output) Hdc).
  - rewrite counter_total_incr, Htot, length_app. simpl. lia.
  - rewrite count_snoc. destruct (is_correct (item, output)).
    + by rewrite counter_total_incr, Hcor.
    + by rewrite Z.add_0_r.
Qed.

Lemma score_loop_tallied `{UnicodeData} pairs :
  forall i t t' scored,
    score_loop i pairs t = Some t' ->
    tallied t scored -> tallied t' (scored ++ pairs).
Proof.
  induction pairs as [|[item output] pairs IH]; intros i t t' scored; simpl.
  - intros [= <-]. by rewrite app_nil_r.
  - destruct (score_step i item output t) as [t1|] eqn:Hstep; [|done]. simpl.
    intros Hloop Ht.
    replace (scored ++ (item, output) :: pairs)
      with ((scored ++ [(item, output)]) ++ pairs) by by rewrite <- app_assoc.
    eapply IH; [done|]. by eapply score_step_tallied.
Qed.

Lemma score_loop_is_Some `{UnicodeData} pairs :
  forall i t,
    (forall item output, (item, output) ∈ pairs -> -10 <= answer_index item < 10) ->
    is_Some (score_loop i pairs t).
Proof.
  induction pairs as [|[item output] pairs IH]; intros i t Hvalid; simpl;
    [by eexists|].
  unfold score_step.
  destruct (index_CHOICES_is_Some (answer_index item)) as [g ->].
  { apply (Hvalid item output). by left. }
  simpl. apply IH. intros item' output' Hin. apply (Hvalid item' output'). by right.
Qed.

Lemma accuracy_map_lookup `{UnicodeData} correct total sel pairs k :
  total !! k = (if count sel pairs =? 0 then None else Some (count sel pairs)) ->
  Counter.get correct k = count (fun p => sel p && is_correct p) pairs ->
  accuracy_map correct total !! k = view_accuracy sel pairs.
Proof.
  intros Htotal Hcorrect. unfold accuracy_map, view_accuracy.
  rewrite map_lookup_imap, Htotal.
  destruct (count sel pairs =? 0) eqn:Hz; simpl; [done|].
  unfold Counter.get at 2. by rewrite Htotal, Hcorrect.
Qed.

(** C3. For the pairs of test item and output taken in order, the run
    counts an item as correct exactly when the extracted prediction
    equals [CHOICES[answer_index]], counts it under its category and
    under the domain of its category, and reports
    [correct / max(1, total)] for the whole run, for each category and
    for each domain, the counts being exact integers.  The run returns
    a report when every [answer_index] is an index of [CHOICES].  For
    the three items of categories math, math and law answered right,
    wrong and right, the report holds 2/3, 1/2 for math and 1/1 for
    law. *)
Theorem score_accuracies `{UnicodeData} (test_items : list Item)
    (outputs : list RequestOutput) :
  let pairs := zip test_items outputs in
  ((forall item, item ∈ test_items -> -10 <= answer_index item < 10) ->
   is_Some (score test_items outputs)) /\
  (forall report,
      score test_items outputs = Some report ->
      total_questions (overall report) = Z.of_nat (length pairs) /\
      total_correct (overall report) = count is_correct pairs /\
      overall_accuracy (overall report)
        = truediv (count is_correct pairs)
                  (Z.max 1 (Z.of_nat (length pairs))) /\
      (forall cat,
          by_category report !! cat = view_accuracy (in_category cat) pairs) /\
      (forall dom,
          by_domain report !! dom = view_accuracy (in_domain dom) pairs)) /\
  (exists report,
      score Fixture.items3 Fixture.outputs3 = Some report /\
      overall_accuracy (overall report) = truediv 2 3 /\
      by_category report !! "math" = Some (truediv 1 2) /\
      by_category report !! "law" = Some (truediv 1 1) /\
      by_domain report !! "STEM" = Some (truediv 1 2) /\
      by_domain report !! "Humanities" = Some (truediv 1 1)).
Proof.
  intros pairs. split; [|split].
  - intros Hvalid. unfold score.
    destruct (score_loop_is_Some pairs 0 empty_tally) as [t Ht].
    { intros item output Hin. apply Hvalid.
      apply list_elem_of_lookup in Hin as [i Hi].
      apply lookup_zip_with_Some in Hi as (x & y & [= -> ->] & Hx & _).
      by eapply list_elem_of_lookup_2. }
    fold pairs. rewrite Ht. by eexists.
  - intros report. unfold score. fold pairs.
    destruct (score_loop 0 pairs empty_tally) as [t|] eqn:Ht; [|done].
    simpl. intros [= <-].
    pose proof (score_loop_tallied pairs 0 empty_tally t [] Ht tallied_empty)
      as [Hct Hcc Hdt Hdc Htot Hcor].
    simpl in *. rewrite Htot, Hcor.
    split; [done|]. split; [done|]. split; [done|]. split.
    + intros cat. by apply accuracy_map_lookup.
    + intros dom. by apply accuracy_map_lookup.
  - eexists. split; [by vm_compute|]. by vm_compute.
Qed.

Lemma score_accuracies_witness :
  is_Some (score Fixture.items3 Fixture.outputs3).
Proof.
  apply (proj1 (score_accuracies Fixture.items3 Fixture.outputs3)).
  intros item Hin.
  repeat (apply elem_of_cons in Hin as [-> | Hin]; [simpl; lia|]).
  by apply elem_of_nil in Hin.
Defined.

(** The three quotients of the fixture, as binary64 numbers. *)
Example truediv_2_3 : truediv 2 3 = S754_finite false 6004799503160661 (-53).
Proof. reflexivity. Qed.

Example truediv_1_2 : truediv 1 2 = S754_finite false 4503599627370496 (-53).
Proof. reflexivity. Qed.

Example truediv_1_1 : truediv 1 1 = S754_finite false 4503599627370496 (-52).
Proof. reflexivity. Qed.

(** *** The exit code *)

Lemma SFcompare_swap (x y : spec_float) (c : comparison) :
  SFcompare x y = Some c -> SFcompare y x = Some (CompOpp c).
Proof.
  destruct x as [sx|sx| |sx mx ex], y as [sy|sy| |sy my ey]; simpl;
    try discriminate; intros [= <-];
    try (by destruct sx); try (by destruct sy); try (by destruct sx, sy).
  f_equal. destruct sx, sy; try done.
  - rewrite (Z.compare_antisym ex ey).
    destruct (ex ?= ey); simpl; try done.
    f_equal. change Eq with (CompOpp Eq) at 1.
    by rewrite <- Pos.compare_cont_antisym.
  - rewrite (Z.compare_antisym ex ey).
    destruct (ex ?= ey); simpl; try done.
    change Eq with (CompOpp Eq) at 1.
    by rewrite <- Pos.compare_cont_antisym.
Qed.

Lemma SFcompare_defined (x y : spec_float) :
  x <> S754_nan -> y <> S754_nan -> is_Some (SFcompare x y).
Proof.
  destruct x, y; simpl; intros Hx Hy;
    try (by destruct Hx); try (by destruct Hy); by eexists.
Qed.

(** C8, as the code has it.  The exit code is zero exactly when
    [overall_accuracy >= acceptance_threshold] holds as a comparison of
    floats.  When neither number is NaN this is: the exit code is
    non-zero exactly when the accuracy is strictly below the threshold,
    and an accuracy equal to the threshold passes. *)
Theorem exit_code_below_threshold (ov : Overall)
    (acceptance_threshold : spec_float) :
  overall_accuracy ov <> S754_nan ->
  acceptance_threshold <> S754_nan ->
  (main_exit_code ov acceptance_threshold <> 0
   <-> SFltb (overall_accuracy ov) acceptance_threshold = true) /\
  (SFeqb (overall_accuracy ov) acceptance_threshold = true ->
   main_exit_code ov acceptance_threshold = 0) /\
  (main_exit_code ov acceptance_threshold = 0 \/
   main_exit_code ov acceptance_threshold = 1).
Proof.
  intros Hacc Hthr.
  unfold main_exit_code, print_results_summary, SFltb, SFleb, SFeqb.
  destruct (SFcompare_defined _ _ Hacc Hthr) as [c Hc].
  rewrite Hc, (SFcompare_swap _ _ _ Hc).
  destruct c; simpl.
  - split; [split; [intros H; by destruct H | done]|]. split; [done | by left].
  - split; [split; [done | by intros _]|]. split; [done | by right].
  - split; [split; [intros H; by destruct H | done]|]. split; [done | by left].
Qed.

Lemma exit_code_below_threshold_witness :
  main_exit_code (Fixture.overall_of (truediv 13 20)) (truediv 13 20) = 0.
Proof.
  refine (proj1 (proj2 (exit_code_below_threshold
            (Fixture.overall_of (truediv 13 20)) (truediv 13 20) _ _)) _).
  - by vm_compute.
  - by vm_compute.
  - by vm_compute.
Defined.

(** C8, as stated, fails: with a NaN threshold, which
    [--acceptance-threshold nan] gives, the comparison [>=] is false
    and the run exits with code 1 although the accuracy is not below the
    threshold. *)
Lemma exit_code_nan_threshold :
  main_exit_code (Fixture.overall_of (truediv 1 1)) Fixture.nan_threshold = 1 /\
  SFltb (overall_accuracy (Fixture.overall_of (truediv 1 1)))
        Fixture.nan_threshold = false.
Proof. split; reflexivity. Qed.

(** ** Further properties *)

(** *** Strings, again *)

Lemma chars_str (l : list ascii) : chars (str l) = l.
Proof. apply list_ascii_of_string_of_list_ascii. Qed.

Lemma str_chars (s : string) : str (chars s) = s.
Proof. apply string_of_list_ascii_of_string. Qed.

Lemma append_cons (c : ascii) (s1 s2 : string) :
  String c s1 +:+ s2 = String c (s1 +:+ s2).
Proof. reflexivity. Qed.

Lemma chars_append (s1 s2 : string) : chars (s1 +:+ s2) = chars s1 ++ chars s2.
Proof.
  induction s1 as [|c s1 IH]; [done|]. rewrite append_cons. simpl. by f_equal.
Qed.

Lemma append_assoc (s1 s2 s3 : string) : (s1 +:+ s2) +:+ s3 = s1 +:+ (s2 +:+ s3).
Proof. induction s1 as [|c s1 IH]; [done|]. rewrite !append_cons. by f_equal. Qed.

Lemma append_empty_r (s : string) : s +:+ EmptyString = s.
Proof. induction s as [|c s IH]; [done|]. rewrite append_cons. by f_equal. Qed.

Lemma length_append (s1 s2 : string) :
  String.length (s1 +:+ s2) = (String.length s1 + String.length s2)%nat.
Proof.
  induction s1 as [|c s1 IH]; [done|]. rewrite append_cons. simpl. by f_equal.
Qed.

Lemma length_chars (s : string) : length (chars s) = String.length s.
Proof. induction s as [|c s IH]; simpl; [done | by f_equal]. Qed.

Lemma join_cons (x : string) (l : list string) : join (x :: l) = x +:+ join l.
Proof.
  unfold join. destruct l as [|y l]; simpl; [by rewrite append_empty_r | done].
Qed.

Lemma join_app (l1 l2 : list string) : join (l1 ++ l2) = join l1 +:+ join l2.
Proof.
  induction l1 as [|x l1 IH]; [done|].
  change ((x :: l1) ++ l2) with (x :: (l1 ++ l2)).
  by rewrite !join_cons, IH, append_assoc.
Qed.

Lemma lstrip_spec (s : list ascii) :
  exists ws, s = ws ++ lstrip_chars s /\
             Forall (fun x => is_space x = true) ws /\
             is_space <$> head (lstrip_chars s) <> Some true.
Proof.
  induction s as [|c s (ws & Hs & Hws & Hhd)]; simpl.
  - by exists [].
  - destruct (is_space c) eqn:Hc.
    + exists (c :: ws). split; [simpl; by f_equal|].
      split; [by constructor | done].
    + exists []. split; [done|]. split; [done|]. simpl. by rewrite Hc.
Qed.

Lemma lstrip_app (ws s : list ascii) :
  Forall (fun x => is_space x = true) ws ->
  lstrip_chars (ws ++ s) = lstrip_chars s.
Proof. induction 1 as [|x ws Hx _ IH]; simpl; [done | by rewrite Hx]. Qed.

Lemma lstrip_id (s : list ascii) :
  is_space <$> head s <> Some true -> lstrip_chars s = s.
Proof. destruct s as [|c s]; simpl; [done|]. by destruct (is_space c). Qed.

Lemma head_rev_last {A} (l : list A) : head (rev l) = last l.
Proof.
  induction l as [|x l IH]; [done|]. simpl.
  rewrite head_app, IH, last_cons. by destruct (last l).
Qed.

(** [strip] removes the padding around a text that neither starts nor ends
    with white space. *)
Lemma strip_padded (pad1 core pad2 : list ascii) :
  Forall (fun x => is_space x = true) pad1 ->
  Forall (fun x => is_space x = true) pad2 ->
  is_space <$> head core <> Some true ->
  is_space <$> last core <> Some true ->
  strip (str (pad1 ++ core ++ pad2)) = str core.
Proof.
  intros H1 H2 Hhd Hlast. unfold strip. rewrite chars_str. f_equal.
  rewrite lstrip_app by done.
  destruct core as [|c core].
  - simpl.
    assert (lstrip_chars pad2 = []) as ->.
    { rewrite <- (app_nil_r pad2). by rewrite lstrip_app. }
    done.
  - rewrite (lstrip_id ((c :: core) ++ pad2)) by done.
    rewrite rev_app_distr, lstrip_app by by apply Forall_rev.
    rewrite lstrip_id, rev_involutive; [done|].
    by rewrite head_rev_last.
Qed.

(** *** map_model_alias *)

Lemma is_space_lower_char (c : ascii) : is_space (lower_char c) = is_space c.
Proof. destruct c as [[] [] [] [] [] [] [] []]; reflexivity. Qed.

Lemma lower_str (l : list ascii) : lower (str l) = str (map lower_char l).
Proof. unfold lower. by rewrite chars_str. Qed.

Lemma lowered_ends (core m : list ascii) :
  map lower_char core = m ->
  is_space <$> head m <> Some true -> is_space <$> last m <> Some true ->
  is_space <$> head core <> Some true /\ is_space <$> last core <> Some true.
Proof.
  intros <- Hhd Hlast. split.
  - destruct core as [|c core]; [done|]. simpl in *.
    by rewrite is_space_lower_char in Hhd.
  - change (map lower_char core) with (lower_char <$> core) in Hlast.
    rewrite fmap_last in Hlast. destruct (last core) as [c|]; [|done].
    simpl in *. by rewrite is_space_lower_char in Hlast.
Qed.

(** X1. An alias is recognised whatever its case and whatever white space
    surrounds it. *)
Theorem map_model_alias_padding_and_case (pad1 core pad2 : list ascii) :
  Forall (fun x => is_space x = true) pad1 ->
  Forall (fun x => is_space x = true) pad2 ->
  lower (str core) ∈ MODEL_ALIASES ->
  map_model_alias (str (pad1 ++ core ++ pad2)) = LLAMA_MODEL_ID.
Proof.
  intros H1 H2 Hin. unfold map_model_alias.
  assert (is_space <$> head core <> Some true /\
          is_space <$> last core <> Some true) as [Hhd Hlast].
  { rewrite lower_str in Hin. unfold MODEL_ALIASES in Hin.
    rewrite !elem_of_union, !elem_of_singleton in Hin.
    destruct Hin as [[[Hin | Hin] | Hin] | Hin];
      apply (f_equal chars) in Hin; rewrite chars_str in Hin;
      by apply (lowered_ends _ _ Hin). }
  rewrite strip_padded by done.
  by rewrite bool_decide_eq_true_2.
Qed.

Lemma map_model_alias_padding_and_case_witness :
  map_model_alias (str (chars "  " ++ chars "LLaMA3.1-8B-Instruct" ++ chars " "))
  = LLAMA_MODEL_ID.
Proof.
  apply map_model_alias_padding_and_case.
  - repeat constructor.
  - repeat constructor.
  - vm_compute. reflexivity.
Defined.

(** X2. What [map_model_alias] returns.  A name that is no alias, that
    is none of the four once stripped and lower-cased, comes back as it
    was given, white space and case included.  The result is the full
    model id exactly when the name is an alias or is that id already.
    The id is no alias of itself, so that no result is an alias and
    resolving twice gives what resolving once gives. *)
Theorem map_model_alias_result (alias : string) :
  (lower (strip alias) ∉ MODEL_ALIASES -> map_model_alias alias = alias) /\
  (map_model_alias alias = LLAMA_MODEL_ID <->
   lower (strip alias) ∈ MODEL_ALIASES \/ alias = LLAMA_MODEL_ID) /\
  (lower (strip (map_model_alias alias)) ∉ MODEL_ALIASES) /\
  map_model_alias (map_model_alias alias) = map_model_alias alias.
Proof.
  assert (lower (strip LLAMA_MODEL_ID) ∉ MODEL_ALIASES) as Hid.
  { apply (bool_decide_eq_false_1 (lower (strip LLAMA_MODEL_ID) ∈ MODEL_ALIASES)).
    by vm_compute. }
  unfold map_model_alias.
  destruct (decide (lower (strip alias) ∈ MODEL_ALIASES)) as [Hin|Hout].
  - rewrite (bool_decide_eq_true_2 _ Hin).
    split; [done|]. split; [by split; [left|]|]. split; [done|].
    by rewrite (bool_decide_eq_false_2 _ Hid).
  - rewrite (bool_decide_eq_false_2 _ Hout).
    split; [done|]. split; [|split; [done|]].
    + split; [by right | by intros [? | ?]].
    + by rewrite (bool_decide_eq_false_2 _ Hout).
Qed.

(** A name that is no alias keeps its white space and its case. *)
Lemma map_model_alias_result_witness :
  map_model_alias " Mistral-7B " = " Mistral-7B ".
Proof.
  apply (proj1 (map_model_alias_result " Mistral-7B ")).
  apply (bool_decide_eq_false_1
           (lower (strip " Mistral-7B ") ∈ MODEL_ALIASES)).
  by vm_compute.
Defined.

(** *** format_prompt and build_prompt *)

Lemma option_lines_is_Some (i : nat) (opts : list string) :
  is_Some (option_lines i opts) <-> opts = [] \/ (i + length opts <= 10)%nat.
Proof.
  revert i. induction opts as [|opt opts IH]; intros i; simpl.
  - split; [by left | by eexists].
  - destruct (CHOICES !! i) as [letter|] eqn:Hi; simpl.
    + apply lookup_lt_Some in Hi. simpl in Hi.
      destruct (option_lines (S i) opts) as [lines|] eqn:Hrest; simpl.
      * split; [|by eexists]. intros _. right.
        destruct (proj1 (IH (S i))) as [-> | ?];
          [rewrite Hrest; by eexists | simpl; lia | lia].
      * split; [by intros [? ?]|]. intros [? | Hlen]; [done|].
        destruct (proj2 (IH (S i))) as [? ?]; [right; lia | congruence].
    + apply lookup_ge_None in Hi. simpl in Hi.
      split; [by intros [? ?]|]. intros [? | Hlen]; [done | lia].
Qed.

Lemma example_answer_is_Some (use_cot : bool) (ex : Item) :
  is_Some (example_answer use_cot ex) <->
  (use_cot = true /\ cot_content ex <> EmptyString) \/
  -10 <= answer_index ex < 10.
Proof.
  unfold example_answer.
  destruct use_cot, (String.eqb_spec (cot_content ex) EmptyString) as [He|He];
    simpl.
  2: { split; [by left | by eexists]. }
  all: rewrite <- index_CHOICES_range;
    destruct (index CHOICES (answer_index ex)); simpl;
    (split; [intros H; by right | intros [[? ?] | H]; [done | done]]).
Qed.

Lemma examples_parts_is_Some (use_cot : bool) (exs : list Item) :
  is_Some (examples_parts use_cot exs) <->
  Forall (fun ex =>
            (length (options ex) <= 10)%nat /\
            ((use_cot = true /\ cot_content ex <> EmptyString) \/
             -10 <= answer_index ex < 10)) exs.
Proof.
  induction exs as [|ex exs IH]; simpl.
  - split; [by constructor | by eexists].
  - rewrite Forall_cons, <- IH, <- example_answer_is_Some.
    assert (is_Some (option_lines 0 (options ex))
            <-> (length (options ex) <= 10)%nat) as <-.
    { rewrite option_lines_is_Some. split; [intros [-> | ?]; simpl; lia | by right]. }
    unfold example_parts.
    destruct (option_lines 0 (options ex)); simpl;
      [|split; [by intros [? ?] | by intros [[[? ?] _] _]]].
    destruct (example_answer use_cot ex); simpl;
      [|split; [by intros [? ?] | by intros [[_ [? ?]] _]]].
    destruct (examples_parts use_cot exs); simpl.
    + split; [intros _; repeat split; by eexists | by eexists].
    + split; [by intros [? ?] | by intros [_ [? ?]]].
Qed.

(** X3. [format_prompt] raises ([IndexError]) exactly when the question
    or one of the examples has more than ten options, or an example
    whose answer line is needed (no chain of thought asked for, or none
    stored) has an [answer_index] outside [-10 .. 9]. *)
Theorem format_prompt_raises_iff (question : string) (opts : list string)
    (category : string) (few_shot_examples : option (list Item))
    (use_cot : bool) :
  is_Some (format_prompt question opts category few_shot_examples use_cot)
  <->
  (length opts <= 10)%nat /\
  Forall (fun ex =>
            (length (options ex) <= 10)%nat /\
            ((use_cot = true /\ cot_content ex <> EmptyString) \/
             -10 <= answer_index ex < 10))
         (default [] few_shot_examples).
Proof.
  assert (is_Some (option_lines 0 opts) <-> (length opts <= 10)%nat)
    as Hopts.
  { rewrite option_lines_is_Some. split; [intros [-> | ?]; simpl; lia | by right]. }
  rewrite <- Hopts, <- examples_parts_is_Some.
  destruct few_shot_examples as [exs|]; [rewrite format_prompt_some|]; simpl.
  - destruct (examples_parts use_cot exs); simpl.
    + destruct (option_lines 0 opts); simpl.
      * split; [intros _; split; by eexists | by eexists].
      * split; [by intros [? ?] | by intros [[? ?] _]].
    + split; [by intros [? ?] | by intros [_ [? ?]]].
  - unfold format_prompt. simpl. destruct (option_lines 0 opts); simpl.
    + split; [intros _; split; by eexists | by eexists].
    + split; [by intros [? ?] | by intros [[? ?] _]].
Qed.

Section MorePrompts.

Variable tokenizer_encode : string -> list Z.
Variable max_model_len : Z.
Variable use_cot : bool.

Lemma rebuild_nil (item : Item) (k : Z) :
  rebuild use_cot item [] k
  = format_prompt (question item) (options item) (category item) None use_cot.
Proof.
  unfold rebuild. destruct (0 <? k); [|done].
  rewrite format_prompt_none. f_equal. f_equal. unfold slice_to.
  by destruct (0 <=? k); rewrite take_nil.
Qed.

Lemma shrink_constant (item : Item) (few_shot : list Item) (ks : list Z)
    (p : string) :
  (forall k, k ∈ ks -> rebuild use_cot item few_shot k = Some p) ->
  shrink tokenizer_encode max_model_len use_cot item few_shot ks p = Some p.
Proof.
  induction ks as [|k ks IH]; intros Hall; simpl; [done|].
  rewrite (Hall k) by by left. simpl.
  destruct (token_len tokenizer_encode p <=? budget max_model_len); [done|].
  apply IH. intros k' Hk'. apply Hall. by right.
Qed.

(** X4. With a few-shot count of zero or less, or with no validation item
    of the category of the test item, the prompt is the zero-shot prompt,
    whatever the budget: nothing is shrunk and nothing else is tried. *)
Theorem build_prompt_zero_shot (val_data : list Item) (num_few_shot : Z)
    (item : Item) :
  num_few_shot <= 0 \/
  (forall ex, ex ∈ val_data -> category ex <> category item) ->
  build_prompt tokenizer_encode max_model_len use_cot
               (group_by_category val_data) num_few_shot item
  = format_prompt (question item) (options item) (category item) None use_cot.
Proof.
  intros Hzero. unfold build_prompt.
  set (few_shot := select_few_shot _ _ _).
  set (zero := format_prompt _ _ _ None use_cot).
  assert (format_prompt (question item) (options item) (category item)
            (if 0 <? num_few_shot then Some few_shot else None) use_cot = zero
          /\ forall p, zero = Some p ->
               shrink tokenizer_encode max_model_len use_cot item few_shot
                      (range_down (num_few_shot - 1)) p = Some p) as [-> Hloop].
  { destruct Hzero as [Hk | Hnone].
    - rewrite (proj2 (Z.ltb_ge 0 num_few_shot)) by lia. split; [done|].
      intros p _. by rewrite range_down_neg by lia.
    - assert (few_shot = []) as ->.
      { unfold few_shot, select_few_shot. rewrite group_by_category_lookup.
        destruct (filter (fun it => category it = category item) val_data)
          as [|ex rest] eqn:Hf.
        - unfold slice_to. by destruct (0 <=? num_few_shot); rewrite take_nil.
        - assert (ex ∈ filter (fun it => category it = category item) val_data)
            as Hin by (rewrite Hf; by left).
          apply list_elem_of_filter in Hin as [Hcat Hin].
          by destruct (Hnone ex Hin). }
      split; [by destruct (0 <? num_few_shot)|].
      intros p Hp. apply shrink_constant. intros k _.
      by rewrite rebuild_nil. }
  destruct zero as [p|]; [|done]. simpl.
  destruct (token_len tokenizer_encode p >? budget max_model_len); [|done].
  by apply Hloop.
Qed.

(** The loop ends on a prompt that fits or on the prompt of its last
    count. *)
Lemma shrink_fits_or_last (item : Item) (few_shot : list Item) (ks : list Z)
    (prev r : string) :
  shrink tokenizer_encode max_model_len use_cot item few_shot ks prev = Some r ->
  token_len tokenizer_encode r <= budget max_model_len \/
  match last ks with
  | Some k => rebuild use_cot item few_shot k = Some r
  | None => r = prev
  end.
Proof.
  revert prev. induction ks as [|k ks IH]; intros prev; simpl.
  - intros [= <-]. by right.
  - destruct (rebuild use_cot item few_shot k) as [p|] eqn:Hp; [|done]. simpl.
    destruct (Z.leb_spec (token_len tokenizer_encode p) (budget max_model_len)).
    + intros [= <-]. by left.
    + intros Hr. destruct (IH _ Hr) as [? | Hlast]; [by left|]. right.
      rewrite last_cons. destruct (last ks); [done|]. by subst r.
Qed.

Lemma last_range_down (s : Z) : 0 <= s -> last (range_down s) = Some 0.
Proof.
  intros Hs. unfold range_down.
  replace (Z.to_nat (s + 1)) with (S (Z.to_nat s)) by lia.
  rewrite seq_S. change (map ?f ?l) with (f <$> l).
  rewrite fmap_app, last_app. simpl. f_equal. lia.
Qed.

(** X5. Every prompt that is built either fits the budget or is the
    zero-shot prompt of its item: a prompt with examples is never sent
    over budget. *)
Theorem build_prompt_fits_or_zero_shot
    (val_by_category : gmap string (list Item)) (num_few_shot : Z)
    (item : Item) (p : string) :
  build_prompt tokenizer_encode max_model_len use_cot
               val_by_category num_few_shot item = Some p ->
  token_len tokenizer_encode p <= budget max_model_len \/
  format_prompt (question item) (options item) (category item) None use_cot
    = Some p.
Proof.
  unfold build_prompt.
  set (few_shot := select_few_shot _ _ _).
  destruct (format_prompt _ _ _ _ _) as [p0|] eqn:Hp0; [|done]. simpl.
  destruct (Z.gtb_spec (token_len tokenizer_encode p0) (budget max_model_len))
    as [Hover|Hfit]; [|intros [= <-]; left; lia].
  intros Hr. apply shrink_fits_or_last in Hr as [? | Hlast]; [by left|]. right.
  destruct (Z.le_gt_cases 1 num_few_shot) as [Hk|Hk].
  - rewrite last_range_down in Hlast by lia. done.
  - rewrite range_down_neg in Hlast by lia. simpl in Hlast. subst p.
    by rewrite (proj2 (Z.ltb_ge 0 num_few_shot)) in Hp0 by lia.
Qed.

End MorePrompts.

Lemma build_prompt_zero_shot_witness :
  build_prompt Fixture.char_tokens 2398 true
    (group_by_category Fixture.validation3) 0 Fixture.test_item
  = format_prompt "Which one?" ["7"; "8"] "math" None true.
Proof.
  apply (build_prompt_zero_shot Fixture.char_tokens 2398 true
           Fixture.validation3 0 Fixture.test_item).
  left. lia.
Defined.

Lemma build_prompt_fits_or_zero_shot_witness :
  exists p,
    build_prompt Fixture.char_tokens 2398 true
      (group_by_category Fixture.validation3) 2 Fixture.test_item = Some p /\
    (token_len Fixture.char_tokens p <= budget 2398 \/
     format_prompt "Which one?" ["7"; "8"] "math" None true = Some p).
Proof.
  eexists.
  refine (let H := _ in
          conj H (build_prompt_fits_or_zero_shot Fixture.char_tokens 2398 true
                    (group_by_category Fixture.validation3) 2
                    Fixture.test_item _ H)).
  vm_compute. reflexivity.
Defined.

Lemma examples_parts_app (use_cot : bool) (exs1 exs2 : list Item) :
  examples_parts use_cot (exs1 ++ exs2)
  = parts1 ← examples_parts use_cot exs1;
    parts2 ← examples_parts use_cot exs2;
    Some (parts1 ++ parts2).
Proof.
  induction exs1 as [|ex exs1 IH]; simpl.
  - by destruct (examples_parts use_cot exs2).
  - destruct (example_parts use_cot ex); simpl; [|done]. rewrite IH.
    destruct (examples_parts use_cot exs1); simpl; [|done].
    destruct (examples_parts use_cot exs2); simpl; [|done].
    by rewrite app_assoc.
Qed.

Lemma rebuild_take (use_cot : bool) (item : Item) (few_shot : list Item) (k : Z) :
  rebuild use_cot item few_shot k
  = format_prompt (question item) (options item) (category item)
                  (Some (take (Z.to_nat k) few_shot)) use_cot.
Proof.
  unfold rebuild. destruct (Z.ltb_spec 0 k).
  - by rewrite slice_to_nonneg by lia.
  - rewrite format_prompt_none. by replace (Z.to_nat k) with 0%nat by lia.
Qed.

(** X6. Rebuilding with fewer examples never gives a longer prompt: in
    characters, the prompt of a smaller count is at most as long as the
    prompt of a larger one. *)
Theorem rebuild_length_monotone (use_cot : bool) (item : Item)
    (few_shot : list Item) (j j' : Z) (p p' : string) :
  j <= j' ->
  rebuild use_cot item few_shot j = Some p ->
  rebuild use_cot item few_shot j' = Some p' ->
  (String.length p <= String.length p')%nat.
Proof.
  intros Hj. rewrite !rebuild_take, !format_prompt_some.
  assert (take (Z.to_nat j') few_shot
          = take (Z.to_nat j) few_shot
            ++ drop (Z.to_nat j) (take (Z.to_nat j') few_shot)) as ->.
  { rewrite <- (take_drop (Z.to_nat j) (take (Z.to_nat j') few_shot)) at 1.
    f_equal. rewrite take_take. f_equal. lia. }
  rewrite examples_parts_app.
  destruct (examples_parts use_cot (take (Z.to_nat j) few_shot)) as [s1|];
    [|done]. simpl.
  destruct (examples_parts use_cot (drop _ _)) as [s2|]; [|done]. simpl.
  destruct (option_lines 0 (options item)) as [lines|]; [|done]. simpl.
  intros [= <-] [= <-].
  simpl. rewrite !join_cons, !join_app, !length_append. lia.
Qed.

Lemma rebuild_length_monotone_witness :
  exists p p',
    rebuild true Fixture.test_item Fixture.validation3 1 = Some p /\
    rebuild true Fixture.test_item Fixture.validation3 3 = Some p' /\
    (String.length p <= String.length p')%nat.
Proof.
  eexists. eexists.
  split; [vm_compute; reflexivity|]. split; [vm_compute; reflexivity|].
  apply (rebuild_length_monotone true Fixture.test_item Fixture.validation3
           1 3); [lia | vm_compute; reflexivity | vm_compute; reflexivity].
Defined.

(** *** The few-shot pool *)

Lemma filter_eqb_category (data : list Item) (c : string) :
  List.filter (fun d => String.eqb (category d) c) data
  = filter (fun it => category it = c) data.
Proof.
  induction data as [|d data IH]; [done|]. simpl.
  destruct (String.eqb_spec (category d) c) as [Hc|Hc].
  - by rewrite filter_cons_True, IH.
  - by rewrite filter_cons_False.
Qed.

(** X7. The examples of a test item are the first [num_few_shot]
    validation items of its category, in the order of the validation
    split, and there are at most [num_few_shot] of them; the selection of
    [mmlu_pro_cot.py] ([select_by_category(...)[:k]]) is the same list. *)
Theorem select_few_shot_first_k (val_data : list Item) (c : string) (k : Z) :
  select_few_shot (group_by_category val_data) c k
    = slice_to (Cot.select_by_category val_data c) k /\
  (0 <= k ->
   select_few_shot (group_by_category val_data) c k
     = take (Z.to_nat k) (List.filter (fun d => String.eqb (category d) c) val_data) /\
   Z.of_nat (length (select_few_shot (group_by_category val_data) c k)) <= k).
Proof.
  unfold select_few_shot, Cot.select_by_category.
  rewrite group_by_category_lookup, filter_eqb_category. split; [done|].
  intros Hk. rewrite slice_to_nonneg by done. split; [done|].
  rewrite length_take. lia.
Qed.

Lemma select_few_shot_first_k_witness :
  select_few_shot (group_by_category Fixture.validation3) "math" 1
  = take 1 (List.filter (fun d => String.eqb (category d) "math")
                        Fixture.validation3).
Proof.
  apply (proj2 (select_few_shot_first_k Fixture.validation3 "math" 1)). lia.
Defined.

(** *** Scoring, again *)

Lemma zip_take_min {A B} (l : list A) (k : list B) :
  zip l k = zip (take (length l `min` length k) l)
                (take (length l `min` length k) k).
Proof.
  revert k. induction l as [|x l IH]; intros [|y k]; simpl; try done.
  by rewrite <- IH.
Qed.

Lemma score_total `{UnicodeData} (test_items : list Item) (outputs : list RequestOutput)
    (report : Report) :
  score test_items outputs = Some report ->
  total_questions (overall report)
    = Z.of_nat (length (zip test_items outputs)) /\
  total_correct (overall report) = count is_correct (zip test_items outputs) /\
  total_wrong (overall report)
    = total_questions (overall report) - total_correct (overall report) /\
  failed_questions (overall report) = 0.
Proof.
  unfold score.
  destruct (score_loop 0 (zip test_items outputs) empty_tally) as [t|] eqn:Ht;
    [|done].
  simpl. intros [= <-]. simpl.
  pose proof (score_loop_tallied _ 0 empty_tally t [] Ht tallied_empty)
    as [_ _ _ _ Htot Hcor].
  simpl in *. by rewrite Htot, Hcor.
Qed.

(** X8. Scoring pairs item [i] with output [i] and stops at the shorter
    list: items without an output, and outputs without an item, are left
    out without any error, and the number of questions reported is the
    length of the shorter list. *)
Theorem score_stops_at_shorter `{UnicodeData} (test_items : list Item)
    (outputs : list RequestOutput) :
  let n := (length test_items `min` length outputs)%nat in
  score test_items outputs = score (take n test_items) (take n outputs) /\
  forall report,
    score test_items outputs = Some report ->
    total_questions (overall report) = Z.of_nat n /\
    length (rows report) = n.
Proof.
  intros n. split.
  - unfold score. by rewrite (zip_take_min test_items outputs).
  - intros report Hscore.
    destruct (score_total _ _ _ Hscore) as (Htot & _).
    split; [by rewrite Htot, length_zip_with|].
    unfold score in Hscore.
    destruct (score_loop 0 (zip test_items outputs) empty_tally) as [t|] eqn:Ht;
      [|done].
    injection Hscore as <-. simpl.
    apply score_loop_rows in Ht as (Hlen & _). simpl in Hlen.
    by rewrite Hlen, length_zip_with.
Qed.

Lemma count_le_length p pairs : count p pairs <= Z.of_nat (length pairs).
Proof.
  unfold count. apply inj_le. induction pairs as [|x l IH]; simpl; [done|].
  destruct (p x); simpl; lia.
Qed.

Lemma score_rows_correct `{UnicodeData} (pairs : list (Item * RequestOutput)) (t : Tally) :
  score_loop 0 pairs empty_tally = Some t ->
  row_correct <$> sample_rows t
  = (fun p => if is_correct p then 1 else 0) <$> pairs.
Proof.
  intros Ht. apply score_loop_rows in Ht as (Hlen & _ & Hrows).
  simpl in Hlen, Hrows. apply list_eq. intros i.
  rewrite !list_lookup_fmap.
  destruct (pairs !! i) as [[item output]|] eqn:Hi; simpl.
  - destruct (Hrows i item output Hi)
      as (row & -> & _ & _ & _ & _ & _ & _ & Hrow & _).
    simpl. by rewrite Hrow.
  - apply lookup_ge_None in Hi. rewrite (proj2 (lookup_ge_None _ _)); [done|lia].
Qed.

Lemma sum_correct_count `{UnicodeData} (pairs : list (Item * RequestOutput)) :
  foldr Z.add 0 ((fun p => if is_correct p then 1 else 0) <$> pairs)
  = count is_correct pairs.
Proof.
  induction pairs as [|p pairs IH]; [done|].
  rewrite fmap_cons. cbn [foldr]. rewrite IH. unfold count. simpl.
  destruct (is_correct p); simpl; lia.
Qed.

(** X9. The figures of a report agree with each other: right and wrong
    answers add up to the number of questions, the number of right
    answers lies between zero and the number of questions, there is one
    row per question, the [correct] column of the rows sums to the number
    of right answers, and no question is reported as failed. *)
Theorem report_counts_consistent `{UnicodeData} (test_items : list Item)
    (outputs : list RequestOutput) (report : Report) :
  score test_items outputs = Some report ->
  total_correct (overall report) + total_wrong (overall report)
    = total_questions (overall report) /\
  0 <= total_correct (overall report) <= total_questions (overall report) /\
  Z.of_nat (length (rows report)) = total_questions (overall report) /\
  foldr Z.add 0 (row_correct <$> rows report) = total_correct (overall report) /\
  failed_questions (overall report) = 0.
Proof.
  intros Hscore.
  destruct (score_total _ _ _ Hscore) as (Htot & Hcor & Hwrong & Hfail).
  split; [lia|]. split.
  { rewrite Htot, Hcor. split; [apply count_nonneg | apply count_le_length]. }
  unfold score in Hscore.
  destruct (score_loop 0 (zip test_items outputs) empty_tally) as [t|] eqn:Ht;
    [|done].
  injection Hscore as <-. simpl in *.
  split.
  { apply score_loop_rows in Ht as (Hlen & _). simpl in Hlen. by rewrite Hlen. }
  split; [|done].
  by rewrite (score_rows_correct _ _ Ht), sum_correct_count.
Qed.

Lemma report_counts_consistent_witness :
  exists report,
    score Fixture.items3 Fixture.outputs3 = Some report /\
    total_correct (overall report) + total_wrong (overall report)
      = total_questions (overall report).
Proof.
  eexists.
  refine (let H := _ in
          conj H (proj1 (report_counts_consistent Fixture.items3
                           Fixture.outputs3 _ H))).
  vm_compute. reflexivity.
Defined.

Lemma score_loop_domain_totals `{UnicodeData} (pairs : list (Item * RequestOutput)) :
  forall i t t',
    score_loop i pairs t = Some t' ->
    Counter.total (by_domain_total t) = Counter.total (by_category_total t) ->
    Counter.total (by_domain_correct t) = Counter.total (by_category_correct t) ->
    Counter.total (by_domain_total t') = Counter.total (by_category_total t') /\
    Counter.total (by_domain_correct t') = Counter.total (by_category_correct t').
Proof.
  induction pairs as [|[item output] pairs IH]; intros i t t'; simpl.
  - by intros [= <-].
  - unfold score_step.
    destruct (index CHOICES (answer_index item)) as [g|]; [|done]. simpl.
    intros Hloop Htot Hcor. apply (IH _ _ _ Hloop); simpl.
    + by rewrite !counter_total_incr, Htot.
    + destruct (pred_eq _ g); [|done]. by rewrite !counter_total_incr, Hcor.
Qed.

(** X10. The domain counters count the same items as the category
    counters: after the scoring loop the domain totals add up to the
    category totals, and so do the counts of right answers. *)
Theorem domain_counters_match_category_counters `{UnicodeData}
    (pairs : list (Item * RequestOutput)) (t : Tally) :
  score_loop 0 pairs empty_tally = Some t ->
  Counter.total (by_domain_total t) = Counter.total (by_category_total t) /\
  Counter.total (by_domain_correct t) = Counter.total (by_category_correct t) /\
  Counter.total (by_domain_total t) = Z.of_nat (length pairs).
Proof.
  intros Ht.
  destruct (score_loop_domain_totals pairs 0 empty_tally t Ht eq_refl eq_refl)
    as [Htot Hcor].
  split; [done|]. split; [done|].
  rewrite Htot.
  by destruct (score_loop_tallied _ 0 empty_tally t [] Ht tallied_empty).
Qed.

Lemma domain_counters_match_category_counters_witness :
  exists t,
    score_loop 0 (zip Fixture.items3 Fixture.outputs3) empty_tally = Some t /\
    Counter.total (by_domain_total t) = Counter.total (by_category_total t).
Proof.
  eexists.
  refine (let H := _ in
          conj H (proj1 (domain_counters_match_category_counters _ _ H))).
  vm_compute. reflexivity.
Defined.

Lemma first_rule_in rules text key domain :
  first_rule rules text = Some (key, domain) -> (key, domain) ∈ rules.
Proof.
  intros H. apply first_rule_elem in H as (before & after & -> & _).
  apply elem_of_app. right. by left.
Qed.


Lemma get_domain_range (category : string) :
  get_domain category ∈ ["STEM"; "Social Sciences"; "Humanities"; "Other"].
Proof.
  unfold get_domain, get_domain_in.
  destruct (first_rule DOMAIN_MAPPING (lower category)) as [[key domain]|] eqn:Hr.
  - apply first_rule_in in Hr. unfold DOMAIN_MAPPING in Hr.
    repeat (apply elem_of_cons in Hr as [[= -> ->] | Hr];
            [repeat (first [by apply list_elem_of_here
                           | apply list_elem_of_further])|]).
    by apply elem_of_nil in Hr.
  - repeat (first [by apply list_elem_of_here | apply list_elem_of_further]).
Qed.

Lemma count_nonzero p (pairs : list (Item * RequestOutput)) :
  count p pairs <> 0 <-> exists pair, pair ∈ pairs /\ p pair = true.
Proof.
  unfold count. induction pairs as [|x l IH]; simpl.
  - split; [done | by intros (? & ?%elem_of_nil & _)].
  - destruct (p x) eqn:Hx; simpl.
    + split; [intros _; exists x; split; [by left | done] | lia].
    + rewrite IH. split.
      * intros (pair & Hin & Hp). exists pair. split; [by right | done].
      * intros (pair & Hin & Hp). apply elem_of_cons in Hin as [-> | Hin];
          [congruence|]. by exists pair.
Qed.

Lemma view_accuracy_is_Some `{UnicodeData} sel pairs :
  is_Some (view_accuracy sel pairs) <->
  exists pair, pair ∈ pairs /\ sel pair = true.
Proof.
  rewrite <- count_nonzero. unfold view_accuracy.
  destruct (Z.eqb_spec (count sel pairs) 0) as [Hz|Hz].
  - split; [by intros [? ?] | done].
  - split; [done | by eexists].
Qed.

(** X11. A report has an entry for exactly the categories of the items
    it scored and for exactly the domains of those categories, and a
    domain entry is one of STEM, Social Sciences, Humanities and Other. *)
Theorem report_keys `{UnicodeData} (test_items : list Item) (outputs : list RequestOutput)
    (report : Report) :
  score test_items outputs = Some report ->
  (forall cat,
      is_Some (by_category report !! cat) <->
      exists item output,
        (item, output) ∈ zip test_items outputs /\ category item = cat) /\
  (forall dom,
      is_Some (by_domain report !! dom) <->
      exists item output,
        (item, output) ∈ zip test_items outputs /\
        get_domain (category item) = dom) /\
  (forall dom,
      is_Some (by_domain report !! dom) ->
      dom ∈ ["STEM"; "Social Sciences"; "Humanities"; "Other"]).
Proof.
  unfold score.
  destruct (score_loop 0 (zip test_items outputs) empty_tally) as [t|] eqn:Ht;
    [|done].
  simpl. intros [= <-]. simpl.
  pose proof (score_loop_tallied _ 0 empty_tally t [] Ht tallied_empty)
    as [Hct Hcc Hdt Hdc _ _].
  simpl in *.
  assert (forall dom,
      is_Some (accuracy_map (by_domain_correct t) (by_domain_total t) !! dom) <->
      exists item output,
        (item, output) ∈ zip test_items outputs /\
        get_domain (category item) = dom) as Hdom.
  { intros dom.
    rewrite (accuracy_map_lookup _ _ (in_domain dom) _ _ (Hdt dom) (Hdc dom)).
    rewrite view_accuracy_is_Some. split.
    - intros ([item output] & Hin & Hsel). exists item, output.
      split; [done|]. by apply String.eqb_eq in Hsel.
    - intros (item & output & Hin & Hsel). exists (item, output).
      split; [done|]. by apply String.eqb_eq. }
  split; [|split; [done|]].
  - intros cat.
    rewrite (accuracy_map_lookup _ _ (in_category cat) _ _ (Hct cat) (Hcc cat)).
    rewrite view_accuracy_is_Some. split.
    + intros ([item output] & Hin & Hsel). exists item, output.
      split; [done|]. by apply String.eqb_eq in Hsel.
    + intros (item & output & Hin & Hsel). exists (item, output).
      split; [done|]. by apply String.eqb_eq.
  - intros dom Hsome. apply Hdom in Hsome as (item & _ & _ & <-).
    apply get_domain_range.
Qed.

Lemma report_keys_witness :
  exists report,
    score Fixture.items3 Fixture.outputs3 = Some report /\
    (is_Some (by_domain report !! "STEM") ->
     "STEM" ∈ ["STEM"; "Social Sciences"; "Humanities"; "Other"]).
Proof.
  eexists.
  refine (let H := _ in
          conj H (proj2 (proj2 (report_keys Fixture.items3 Fixture.outputs3
                                  _ H)) "STEM")).
  vm_compute. reflexivity.
Defined.

Lemma score_loop_fails `{UnicodeData} (pairs : list (Item * RequestOutput)) :
  forall i t,
    is_Some (score_loop i pairs t) ->
    forall item output, (item, output) ∈ pairs -> -10 <= answer_index item < 10.
Proof.
  induction pairs as [|[item0 output0] pairs IH]; intros i t Hsome item output Hin.
  - by apply elem_of_nil in Hin.
  - simpl in Hsome. unfold score_step in Hsome.
    destruct (index CHOICES (answer_index item0)) as [g|] eqn:Hg;
      [|by destruct Hsome].
    simpl in Hsome. apply elem_of_cons in Hin as [[= -> ->] | Hin].
    + apply index_CHOICES_range. by eexists.
    + by apply (IH _ _ Hsome item output).
Qed.

(** X12. Scoring raises ([IndexError]) exactly when an item that is
    paired with an output has an [answer_index] outside [-10 .. 9]; an
    output with no completion is read as the empty text and raises
    nothing, and neither does an item left without output. *)
Theorem score_raises_iff `{UnicodeData} (test_items : list Item) (outputs : list RequestOutput) :
  is_Some (score test_items outputs) <->
  forall item output,
    (item, output) ∈ zip test_items outputs -> -10 <= answer_index item < 10.
Proof.
  unfold score. split.
  - intros Hsome. apply (score_loop_fails _ 0 empty_tally).
    destruct (score_loop 0 (zip test_items outputs) empty_tally); [by eexists|].
    by destruct Hsome.
  - intros Hvalid.
    destruct (score_loop_is_Some (zip test_items outputs) 0 empty_tally Hvalid)
      as [t ->].
    by eexists.
Qed.

Lemma count_Permutation p (l l' : list (Item * RequestOutput)) :
  l ≡ₚ l' -> count p l = count p l'.
Proof.
  unfold count. intros Hperm. f_equal.
  induction Hperm as [|x l l' _ IH|x y l|l l' l'' _ IH1 _ IH2]; simpl.
  - done.
  - destruct (p x); simpl; by rewrite IH.
  - by destruct (p x), (p y).
  - by rewrite IH1.
Qed.

(** X13. The statistics of a report do not depend on the order in which
    the pairs of item and output are scored: two runs over the same pairs
    in any order report the same overall figures and the same
    per-category and per-domain accuracies. *)
Theorem score_order_independent `{UnicodeData}
    (test_items test_items' : list Item)
    (outputs outputs' : list RequestOutput) (report report' : Report) :
  zip test_items outputs ≡ₚ zip test_items' outputs' ->
  score test_items outputs = Some report ->
  score test_items' outputs' = Some report' ->
  overall report = overall report' /\
  by_category report = by_category report' /\
  by_domain report = by_domain report'.
Proof.
  intros Hperm. unfold score.
  destruct (score_loop 0 (zip test_items outputs) empty_tally) as [t|] eqn:Ht;
    [|done].
  destruct (score_loop 0 (zip test_items' outputs') empty_tally) as [t'|] eqn:Ht';
    [|done].
  simpl. intros [= <-] [= <-]. simpl.
  pose proof (score_loop_tallied _ 0 empty_tally t [] Ht tallied_empty)
    as [Hct Hcc Hdt Hdc Htot Hcor].
  pose proof (score_loop_tallied _ 0 empty_tally t' [] Ht' tallied_empty)
    as [Hct' Hcc' Hdt' Hdc' Htot' Hcor'].
  simpl in *.
  assert (forall p, count p (zip test_items outputs)
                    = count p (zip test_items' outputs')) as Hcount.
  { intros p. by apply count_Permutation. }
  split; [|split].
  - rewrite Htot, Hcor, Htot', Hcor', (Hcount is_correct).
    by rewrite (Permutation_length Hperm).
  - apply map_eq. intros cat.
    rewrite (accuracy_map_lookup _ _ (in_category cat) _ _ (Hct cat) (Hcc cat)).
    rewrite (accuracy_map_lookup _ _ (in_category cat) _ _ (Hct' cat) (Hcc' cat)).
    unfold view_accuracy. by rewrite !Hcount.
  - apply map_eq. intros dom.
    rewrite (accuracy_map_lookup _ _ (in_domain dom) _ _ (Hdt dom) (Hdc dom)).
    rewrite (accuracy_map_lookup _ _ (in_domain dom) _ _ (Hdt' dom) (Hdc' dom)).
    unfold view_accuracy. by rewrite !Hcount.
Qed.

Lemma score_order_independent_witness :
  exists report report',
    score Fixture.items3 Fixture.outputs3 = Some report /\
    score (rev Fixture.items3) (rev Fixture.outputs3) = Some report' /\
    overall report = overall report'.
Proof.
  eexists. eexists.
  split; [vm_compute; reflexivity|]. split; [vm_compute; reflexivity|].
  refine (proj1 (score_order_independent Fixture.items3 (rev Fixture.items3)
                   Fixture.outputs3 (rev Fixture.outputs3) _ _ _ _ _)).
  - change (zip (rev Fixture.items3) (rev Fixture.outputs3))
      with (rev (zip Fixture.items3 Fixture.outputs3)).
    apply Permutation_rev.
  - vm_compute. reflexivity.
  - vm_compute. reflexivity.
Defined.

Lemma index_elem_of {A} (l : list A) (i : Z) (x : A) :
  index l i = Some x -> x ∈ l.
Proof.
  unfold index.
  destruct ((0 <=? i) && (i <? Z.of_nat (length l)));
    [by apply list_elem_of_lookup_2|].
  destruct ((- Z.of_nat (length l) <=? i) && (i <? 0));
    [by apply list_elem_of_lookup_2 | done].
Qed.

Lemma pred_eq_true (pred : option unicode) (g : string) :
  pred_eq pred g = true <-> pred = Some (codes g).
Proof.
  destruct pred as [p|]; simpl; [|done].
  rewrite bool_decide_eq_true. split; [by intros -> | by intros [= ->]].
Qed.

(** X14. Every row of a report stores at most 500 characters (code
    points) of the output, a gold letter that is one of [CHOICES], the
    domain of its category, and a [correct] flag that is 1 exactly when
    the prediction is that gold letter and 0 otherwise. *)
Theorem report_rows_well_formed `{UnicodeData} (test_items : list Item)
    (outputs : list RequestOutput) (report : Report) (row : SampleRow) :
  score test_items outputs = Some report ->
  row ∈ rows report ->
  (length (row_model_output row) <= 500)%nat /\
  row_answer row ∈ CHOICES /\
  row_domain row = get_domain (row_category row) /\
  (row_correct row = 1 <-> row_pred row = Some (codes (row_answer row))) /\
  (row_correct row = 0 \/ row_correct row = 1).
Proof.
  unfold score.
  destruct (score_loop 0 (zip test_items outputs) empty_tally) as [t|] eqn:Ht;
    [|done].
  simpl. intros [= <-] Hin. simpl in Hin.
  apply score_loop_rows in Ht as (Hlen & _ & Hrows). simpl in Hlen, Hrows.
  apply list_elem_of_lookup in Hin as [j Hj].
  assert (j < length (zip test_items outputs))%nat as Hlt.
  { apply lookup_lt_Some in Hj. lia. }
  apply lookup_lt_is_Some in Hlt as [[item output] Hpair].
  destruct (Hrows j item output Hpair)
    as (row' & Hrow' & _ & _ & Hcat & Hdom & Hgold & Hpred & Hcor & Hout).
  rewrite Hj in Hrow'. injection Hrow' as <-.
  split; [rewrite Hout, length_take; lia|].
  split; [by apply (index_elem_of _ (answer_index item))|].
  split; [by rewrite Hdom, Hcat|].
  assert (is_correct (item, output) = true
          <-> row_pred row = Some (codes (row_answer row))) as Hiff.
  { unfold is_correct. simpl. rewrite Hgold, <- Hpred. apply pred_eq_true. }
  rewrite Hcor. destruct (is_correct (item, output)).
  - split; [|by right]. split; [intros _; by apply Hiff | done].
  - split; [|by left]. split; [done|]. intros Hrow. by apply Hiff in Hrow.
Qed.

Lemma report_rows_well_formed_witness :
  exists report row,
    score Fixture.items3 Fixture.outputs3 = Some report /\
    rows report !! 1%nat = Some row /\
    row_correct row = 0.
Proof.
  eexists. eexists.
  split; [vm_compute; reflexivity|]. split; [vm_compute; reflexivity|].
  refine (match proj2 (proj2 (proj2 (proj2
            (report_rows_well_formed Fixture.items3 Fixture.outputs3 _ _ _ _))))
          with
          | or_introl H => H
          | or_intror H => _
          end).
  - vm_compute. reflexivity.
  - vm_compute. apply list_elem_of_further, list_elem_of_here.
  - vm_compute in H. discriminate H.
Defined.

(** X15. The answer line written for a few-shot example reads back as
    the gold letter of the example: [extract_answer] applied to
    ["Answer: The answer is (X)."] returns [X], for every example whose
    answer line is written. *)
Theorem answer_line_round_trip `{UnicodeData} (use_cot : bool) (ex : Item)
    (line : string) :
  use_cot = false \/ cot_content ex = EmptyString ->
  example_answer use_cot ex = Some line ->
  extract_answer (codes line) = codes <$> gold ex /\ is_Some (gold ex).
Proof.
  intros Hline. unfold example_answer, gold.
  assert (use_cot && negb (String.eqb (cot_content ex) EmptyString) = false)
    as ->.
  { destruct Hline as [-> | ->]; [done | by rewrite andb_false_r]. }
  destruct (index CHOICES (answer_index ex)) as [g|] eqn:Hg; [|done].
  simpl. intros [= <-]. split; [|by eexists].
  apply index_elem_of in Hg. unfold CHOICES in Hg.
  repeat (apply elem_of_cons in Hg as [-> | Hg]; [by vm_compute|]).
  by apply elem_of_nil in Hg.
Qed.

Lemma answer_line_round_trip_witness :
  extract_answer (codes ("Answer: The answer is (B)." +:+ NL +:+ NL))
  = Some (codes "B").
Proof.
  refine (proj1 (answer_line_round_trip false Fixture.test_item
                   ("Answer: The answer is (B)." +:+ NL +:+ NL) _ _)).
  - by left.
  - vm_compute. reflexivity.
Defined.

(** *** preprocess_dataset and the row limit, again *)

Lemma drop_placeholders_sublist (opts : list string) :
  sublist (drop_placeholders opts) opts.
Proof.
  unfold drop_placeholders. induction opts as [|o opts IH]; simpl; [done|].
  destruct (negb (String.eqb o PLACEHOLDER)); by constructor.
Qed.

Lemma drop_placeholders_id (opts : list string) :
  PLACEHOLDER ∉ opts -> drop_placeholders opts = opts.
Proof.
  unfold drop_placeholders. induction opts as [|o opts IH]; intros Hnot; [done|].
  apply not_elem_of_cons in Hnot as [Hne Hnot]. simpl.
  rewrite (proj2 (String.eqb_neq o PLACEHOLDER)) by done. simpl.
  by rewrite IH.
Qed.

(** X16. Preprocessing keeps the rows in number and in order.  Row [i]
    keeps its question, answer letter, answer index and category; its
    options are the original ones without the placeholders, in their
    original order (and unchanged when there is no placeholder); its id
    is its own when it has one and its position [i] otherwise; a missing
    rationale or source becomes the empty string. *)
Theorem preprocess_dataset_shape (dataset : list RawItem) :
  length (preprocess_dataset dataset) = length dataset /\
  forall i raw,
    dataset !! i = Some raw ->
    exists item,
      preprocess_dataset dataset !! i = Some item /\
      question item = raw_question raw /\
      answer item = raw_answer raw /\
      answer_index item = raw_answer_index raw /\
      category item = raw_category raw /\
      question_id item = default (Z.of_nat i) (raw_question_id raw) /\
      cot_content item = default EmptyString (raw_cot_content raw) /\
      src item = default EmptyString (raw_src raw) /\
      sublist (options item) (raw_options raw) /\
      (forall opt, opt ∈ options item <->
                   opt ∈ raw_options raw /\ opt <> PLACEHOLDER) /\
      (PLACEHOLDER ∉ raw_options raw -> options item = raw_options raw).
Proof.
  split.
  - by rewrite preprocess_imap, length_imap.
  - intros i raw Hraw. exists (preprocess_item i raw).
    rewrite preprocess_lookup, Hraw. simpl.
    repeat (split; [done|]).
    split; [apply drop_placeholders_sublist|].
    split; [|apply drop_placeholders_id].
    intros opt. split; [apply drop_placeholders_clean|].
    intros [Hin Hne]. unfold drop_placeholders.
    rewrite list_elem_of_In, filter_In, <- list_elem_of_In.
    split; [done|]. by rewrite (proj2 (String.eqb_neq opt PLACEHOLDER)).
Qed.

Lemma preprocess_dataset_shape_witness :
  exists item,
    preprocess_dataset [Fixture.raw_placeholder_last;
                        Fixture.raw_placeholder_first] !! 1%nat = Some item /\
    question_id item = 1.
Proof.
  destruct (proj2 (preprocess_dataset_shape
                     [Fixture.raw_placeholder_last;
                      Fixture.raw_placeholder_first])
                  1%nat Fixture.raw_placeholder_first eq_refl)
    as (item & Hitem & _ & _ & _ & _ & Hid & _).
  by exists item.
Defined.

(** X17. Whatever the limit, the items evaluated are a prefix of the test
    data.  A negative limit [-m] leaves out the last [m] items (all of
    them when there are at most [m]); a limit of at least the number of
    items changes nothing. *)
Theorem apply_total_limit_prefix {A} (total_limit : option Z)
    (test_data : list A) :
  apply_total_limit total_limit test_data `prefix_of` test_data /\
  (forall n, total_limit = Some n -> n < 0 ->
     apply_total_limit total_limit test_data
       = take (length test_data - Z.to_nat (- n)) test_data) /\
  (forall n, total_limit = Some n -> Z.of_nat (length test_data) <= n ->
     apply_total_limit total_limit test_data = test_data).
Proof.
  split; [|split].
  - unfold apply_total_limit, slice_to. destruct total_limit as [n|]; [|done].
    destruct (n =? 0); [done|]. destruct (0 <=? n); apply prefix_take.
  - intros n -> Hn. unfold apply_total_limit, slice_to.
    rewrite (proj2 (Z.eqb_neq n 0)), (proj2 (Z.leb_gt 0 n)) by lia.
    f_equal. lia.
  - intros n -> Hn. unfold apply_total_limit, slice_to.
    destruct (Z.eqb_spec n 0); [done|].
    rewrite (proj2 (Z.leb_le 0 n)) by lia. apply take_ge. lia.
Qed.

Lemma apply_total_limit_prefix_witness :
  apply_total_limit (Some (-1)) [1; 2; 3] = take (3 - 1) [1; 2; 3].
Proof.
  apply (proj1 (proj2 (apply_total_limit_prefix (Some (-1)) [1; 2; 3]))
           (-1) eq_refl).
  lia.
Defined.

(** *** benchmarks/mmlu_pro_cot.py *)

Lemma fold_left_append (lines : list string) (p : string) :
  fold_left String.append lines p = p +:+ join lines.
Proof.
  revert p. induction lines as [|l lines IH]; intros p; simpl.
  - by rewrite append_empty_r.
  - by rewrite IH, join_cons, append_assoc.
Qed.

Ltac join_norm :=
  simpl;
  repeat first [rewrite join_cons | rewrite join_app];
  change (join []) with EmptyString;
  rewrite ?append_assoc, ?append_empty_r.

Lemma format_cot_example_answered (ex : Item) :
  cot_content ex <> EmptyString ->
  Cot.format_cot_example ex true = join <$> example_parts true ex.
Proof.
  intros Hcot. unfold Cot.format_cot_example, example_parts, example_answer.
  rewrite (proj2 (String.eqb_neq _ _) Hcot). simpl.
  destruct (option_lines 0 (options ex)) as [lines|]; [|done]. simpl.
  f_equal. rewrite fold_left_append. by join_norm.
Qed.

Lemma format_cot_example_open (curr : Item) :
  Cot.format_cot_example curr false
  = lines ← option_lines 0%nat (options curr);
    Some (join (["Question:" +:+ NL; question curr +:+ NL; "Options:" +:+ NL]
                ++ lines ++ ["Answer: Let's think step by step."])).
Proof.
  unfold Cot.format_cot_example.
  destruct (option_lines 0 (options curr)) as [lines|]; [|done]. simpl.
  f_equal. rewrite fold_left_append. by join_norm.
Qed.

Lemma append_examples_answered (prompt : string) (same_cat : list Item) :
  (forall ex, ex ∈ same_cat -> cot_content ex <> EmptyString) ->
  Cot.append_examples prompt same_cat
  = parts ← examples_parts true same_cat; Some (prompt +:+ join parts).
Proof.
  revert prompt. induction same_cat as [|ex rest IH]; intros prompt Hcot; simpl.
  - change (join []) with EmptyString. by rewrite append_empty_r.
  - rewrite format_cot_example_answered by (apply Hcot; by left).
    destruct (example_parts true ex) as [parts|]; [|done]. simpl.
    rewrite IH by (intros ex' Hin; apply Hcot; by right).
    destruct (examples_parts true rest) as [more|]; [|done]. simpl.
    by join_norm.
Qed.

(** X18. When every selected example has a rationale, the prompt of
    [mmlu_pro_cot.py] is, character for character, the prompt
    [format_prompt] builds from the same examples with chain of thought
    on, and both raise for the same inputs; the examples are those
    [evaluate_mmlu_pro] selects. *)
Theorem generate_cot_prompt_agrees (val_data : list Item) (curr : Item) (k : Z) :
  (forall ex,
      ex ∈ select_few_shot (group_by_category val_data) (category curr) k ->
      cot_content ex <> EmptyString) ->
  Cot.generate_cot_prompt val_data curr k
  = format_prompt (question curr) (options curr) (category curr)
      (Some (select_few_shot (group_by_category val_data) (category curr) k))
      true.
Proof.
  intros Hcot. unfold Cot.generate_cot_prompt.
  assert (slice_to (Cot.select_by_category val_data (category curr)) k
          = select_few_shot (group_by_category val_data) (category curr) k)
    as ->.
  { unfold select_few_shot, Cot.select_by_category.
    by rewrite group_by_category_lookup, filter_eqb_category. }
  rewrite format_prompt_some, append_examples_answered by done.
  destruct (examples_parts true _) as [shots|]; [|done]. simpl.
  rewrite format_cot_example_open.
  destruct (option_lines 0 (options curr)) as [lines|]; [|done]. simpl.
  f_equal. by join_norm.
Qed.

Lemma generate_cot_prompt_agrees_witness :
  Cot.generate_cot_prompt [Sample.rationale_item] Fixture.test_item Cot.K_SHOT
  = format_prompt "Which one?" ["7"; "8"] "math"
      (Some (select_few_shot (group_by_category [Sample.rationale_item])
                             "math" 5))
      true.
Proof.
  apply (generate_cot_prompt_agrees [Sample.rationale_item] Fixture.test_item
           Cot.K_SHOT).
  intros ex Hin. apply select_few_shot_elem in Hin as [Hin _].
  apply elem_of_cons in Hin as [-> | Hin]; [discriminate|].
  by apply elem_of_nil in Hin.
Defined.

Lemma predictions_of_spec `{UnicodeData} (outputs : list RequestOutput) :
  match Cot.predictions_of outputs with
  | Some preds =>
      Forall (fun o => o <> []) outputs /\
      preds = (fun o => extract_answer (generated_text_of o)) <$> outputs
  | None => ~ Forall (fun o => o <> []) outputs
  end.
Proof.
  induction outputs as [|o outputs IH]; simpl; [done|].
  destruct o as [|text more]; simpl.
  - intros Hall. by apply Forall_cons in Hall as [? _].
  - destruct (Cot.predictions_of outputs) as [preds|]; simpl.
    + destruct IH as [Hall ->]. split; [by constructor | done].
    + intros Hall. apply Forall_cons in Hall as [_ ?]. by apply IH.
Qed.

Lemma tally_loop_spec (predictions : list (option unicode))
    (test_data : list Item) :
  forall i acc,
    match Cot.tally_loop predictions i test_data acc with
    | Some res =>
        (test_data = [] \/ i + length test_data <= length predictions)%nat /\
        res.1 = acc.1 +
                Z.of_nat (length (List.filter
                  (fun p : Item * option unicode => pred_eq p.2 (answer p.1))
                  (zip test_data (drop i predictions))))
    | None => (test_data <> [] /\ length predictions < i + length test_data)%nat
    end.
Proof.
  induction test_data as [|item rest IH]; intros i acc; simpl.
  - split; [by left | lia].
  - unfold Cot.tally_step.
    destruct (predictions !! i) as [pred|] eqn:Hi; simpl.
    + pose proof (lookup_lt_Some _ _ _ Hi) as Hlt.
      rewrite (drop_S _ _ _ Hi). simpl.
      match goal with |- context [Cot.tally_loop _ _ _ ?a] => specialize (IH (S i) a) end.
      destruct (Cot.tally_loop predictions (S i) rest _) as [res|]; simpl in *.
      * destruct IH as [Hlen ->]. split.
        -- right. destruct Hlen as [-> | ?]; simpl; lia.
        -- destruct (pred_eq pred (answer item)); simpl; lia.
      * split; [done|]. lia.
    + apply lookup_ge_None in Hi. split; [done | lia].
Qed.

Lemma throughput_is_Some (total : Z) (elapsed : spec_float) :
  is_Some (Cot.throughput total elapsed) <-> forall s, elapsed <> S754_zero s.
Proof.
  destruct elapsed as [s| | |s m e]; simpl; split;
    first [by intros [? ?] | by eexists | done | idtac].
  intros Hne. by destruct (Hne s).
Qed.

(** X19. From the outputs of the backend on, [main] of [mmlu_pro_cot.py]
    fails in exactly four cases: an empty test set (division by zero in
    the accuracy), an output without a completion, fewer outputs than
    test items (both index errors), and a clock that shows no time passed
    during the generation (division by zero in the throughput that is
    printed).  Otherwise it returns, and its exit code is 0 or 1. *)
Theorem cot_main_score_raises_iff `{UnicodeData} (test_data : list Item)
    (outputs : list RequestOutput) (elapsed : spec_float) :
  (is_Some (Cot.main_score test_data outputs elapsed) <->
   test_data <> [] /\
   Forall (fun o => o <> []) outputs /\
   (length test_data <= length outputs)%nat /\
   forall s, elapsed <> S754_zero s) /\
  (forall out,
      Cot.main_score test_data outputs elapsed = Some out ->
      Cot.out_exit_code out = 0 \/ Cot.out_exit_code out = 1).
Proof.
  unfold Cot.main_score. pose proof (predictions_of_spec outputs) as Hpreds.
  destruct (Cot.predictions_of outputs) as [preds|]; simpl.
  2: { split; [|done]. split; [by intros [? ?] | by intros (_ & ? & _)]. }
  destruct Hpreds as [Hall ->].
  pose proof (tally_loop_spec
                ((fun o => extract_answer (generated_text_of o)) <$> outputs)
                test_data 0 (0, ∅)) as Hloop.
  destruct (Cot.tally_loop _ 0 test_data (0, ∅)) as [res|]; simpl.
  2: { rewrite length_fmap in Hloop. split; [|done].
       split; [by intros [? ?] | intros (_ & _ & ? & _); lia]. }
  rewrite length_fmap in Hloop. destruct Hloop as [Hlen _].
  unfold Cot.accuracy_of.
  destruct (Z.eqb_spec (Z.of_nat (length test_data)) 0) as [Hz|Hz]; simpl.
  { split; [|done]. split; [by intros [? ?]|]. intros (Hne & _).
    destruct test_data; [done | simpl in Hz; lia]. }
  pose proof (throughput_is_Some (Z.of_nat (length test_data)) elapsed) as Htp.
  destruct (Cot.throughput _ elapsed) as [tp|]; simpl.
  - split.
    + split; [|by eexists]. intros _. split; [by intros ->|]. split; [done|].
      split; [destruct Hlen as [-> | ?]; [done | lia]|].
      apply Htp. by eexists.
    + intros out [= <-]. simpl. destruct (SFleb _ _); [by left | by right].
  - split; [|done]. split; [by intros [? ?]|]. intros (_ & _ & _ & Hne).
    by apply Htp in Hne as [? ?].
Qed.

Lemma cot_main_score_raises_iff_witness :
  is_Some (Cot.main_score Fixture.items3 Fixture.outputs3 (float_of_int 2)).
Proof.
  apply (proj1 (cot_main_score_raises_iff Fixture.items3 Fixture.outputs3
                  (float_of_int 2))).
  split; [done|]. split; [repeat constructor; done|].
  split; [simpl; lia|]. intros s. vm_compute. discriminate.
Defined.

Lemma filter_zip_fmap `{UnicodeData} (test_data : list Item)
    (outputs : list RequestOutput) :
  (forall item, item ∈ test_data -> gold item = Some (answer item)) ->
  length (List.filter
            (fun p : Item * option unicode => pred_eq p.2 (answer p.1))
            (zip test_data
                 ((fun o => extract_answer (generated_text_of o)) <$> outputs)))
  = length (List.filter is_correct (zip test_data outputs)).
Proof.
  revert outputs. induction test_data as [|item rest IH]; intros outputs Hgold;
    [done|].
  destruct outputs as [|o outputs]; [done|]. simpl.
  assert (is_correct (item, o)
          = pred_eq (extract_answer (generated_text_of o)) (answer item)) as ->.
  { unfold is_correct. simpl. by rewrite (Hgold item) by by left. }
  destruct (pred_eq _ (answer item)); simpl; rewrite IH; try done;
    intros item' Hin; apply Hgold; by right.
Qed.

(** X20. The two scorers agree.  When the stored answer letter of every
    test item is [CHOICES[answer_index]] and there is one output, with a
    completion, per item, [mmlu_pro_cot.py] counts the same right answers
    and questions as [evaluate_mmlu_pro], and its exit code is the one
    [mmlu_pro_benchmark.py] gives for an acceptance threshold of 0.35. *)
Theorem cot_score_agrees `{UnicodeData} (test_data : list Item)
    (outputs : list RequestOutput) (elapsed : spec_float)
    (out : Cot.Outcome) (report : Report) :
  (forall item, item ∈ test_data -> gold item = Some (answer item)) ->
  length outputs = length test_data ->
  Cot.main_score test_data outputs elapsed = Some out ->
  score test_data outputs = Some report ->
  Cot.out_correct out = total_correct (overall report) /\
  Cot.out_total out = total_questions (overall report) /\
  Cot.out_exit_code out = main_exit_code (overall report) Cot.PASS_ACCURACY.
Proof.
  intros Hgold Hlen Hmain Hscore.
  destruct (score_total _ _ _ Hscore) as (Htot & Hcor & _).
  assert (overall_accuracy (overall report)
          = truediv (total_correct (overall report))
                    (Z.max 1 (total_questions (overall report)))) as Hacc.
  { unfold score in Hscore.
    destruct (score_loop 0 (zip test_data outputs) empty_tally); [|done].
    by injection Hscore as <-. }
  unfold Cot.main_score in Hmain.
  pose proof (predictions_of_spec outputs) as Hpreds.
  destruct (Cot.predictions_of outputs) as [preds|]; [|done]. simpl in Hmain.
  destruct Hpreds as [_ ->].
  pose proof (tally_loop_spec
                ((fun o => extract_answer (generated_text_of o)) <$> outputs)
                test_data 0 (0, ∅)) as Hloop.
  destruct (Cot.tally_loop _ 0 test_data (0, ∅)) as [res|]; [|done].
  simpl in Hmain, Hloop. destruct Hloop as [_ Hres].
  rewrite drop_0, filter_zip_fmap in Hres by done.
  unfold Cot.accuracy_of in Hmain.
  destruct (Z.eqb_spec (Z.of_nat (length test_data)) 0) as [Hz|Hz]; [done|].
  simpl in Hmain. destruct (Cot.throughput _ elapsed); [|done].
  simpl in Hmain. injection Hmain as <-. simpl.
  assert (Z.of_nat (length (zip test_data outputs)) = Z.of_nat (length test_data))
    as Hzip by (rewrite length_zip_with; lia).
  rewrite Htot, Hcor, Hzip. unfold count. rewrite Hres.
  split; [lia|]. split; [done|].
  unfold main_exit_code, print_results_summary.
  rewrite Hacc, Htot, Hcor, Hzip. unfold count.
  rewrite Z.max_r by lia. by rewrite Z.add_0_l.
Qed.

Lemma cot_score_agrees_witness :
  exists out report,
    Cot.main_score Fixture.items3 Fixture.outputs3 (float_of_int 2)
      = Some out /\
    score Fixture.items3 Fixture.outputs3 = Some report /\
    Cot.out_correct out = total_correct (overall report).
Proof.
  eexists. eexists.
  split; [vm_compute; reflexivity|]. split; [vm_compute; reflexivity|].
  refine (proj1 (cot_score_agrees Fixture.items3 Fixture.outputs3
                   (float_of_int 2) _ _ _ _ _ _)).
  - intros item Hin.
    repeat (apply elem_of_cons in Hin as [-> | Hin]; [reflexivity|]).
    by apply elem_of_nil in Hin.
  - reflexivity.
  - vm_compute. reflexivity.
  - vm_compute. reflexivity.
Defined.

(** *** benchmarks/mlperf_summarization.py: batching *)

Lemma range_step_unfold (n step : nat) :
  (0 < step)%nat -> (0 < n)%nat ->
  Summarization.range_step n step
  = 0%nat :: map (fun i => (i + step)%nat) (Summarization.range_step (n - step) step).
Proof.
  intros Hstep Hn. unfold Summarization.range_step.
  assert ((n + step - 1) / step = S ((n - step + step - 1) / step))%nat as ->.
  { destruct (le_lt_dec n step) as [Hle|Hgt].
    - replace (n - step)%nat with 0%nat by lia.
      rewrite (Nat.div_small (0 + step - 1) step) by lia.
      replace (n + step - 1)%nat with (n - 1 + 1 * step)%nat by lia.
      rewrite Nat.div_add by lia. rewrite Nat.div_small by lia. done.
    - replace (n + step - 1)%nat with (n - step + step - 1 + 1 * step)%nat by lia.
      rewrite Nat.div_add by lia. lia. }
  rewrite <- cons_seq. simpl. f_equal.
  rewrite <- seq_shift, !map_map. apply map_ext. intros j. lia.
Qed.

Lemma range_step_zero (step : nat) :
  (0 < step)%nat -> Summarization.range_step 0 step = [].
Proof.
  intros Hstep. unfold Summarization.range_step.
  by rewrite (Nat.div_small (0 + step - 1) step) by lia.
Qed.

Lemma batches_unfold {A} (b : nat) (l : list A) :
  (0 < b)%nat -> l <> [] ->
  Summarization.batches b l = take b l :: Summarization.batches b (drop b l).
Proof.
  intros Hb Hl. unfold Summarization.batches.
  rewrite range_step_unfold by (destruct l; [done | simpl; lia]).
  simpl. rewrite drop_0. f_equal.
  rewrite length_drop, map_map. apply map_ext. intros i.
  by rewrite drop_drop, (Nat.add_comm i b).
Qed.

Lemma batches_nil {A} (b : nat) :
  (0 < b)%nat -> Summarization.batches b (@nil A) = [].
Proof. intros Hb. unfold Summarization.batches. simpl. by rewrite range_step_zero. Qed.

Lemma batches_ind {A} (b : nat) (P : list A -> Prop) :
  (0 < b)%nat ->
  P [] ->
  (forall l, l <> [] -> P (drop b l) -> P l) ->
  forall l, P l.
Proof.
  intros Hb Hnil Hstep l.
  assert (forall n (k : list A), (length k <= n)%nat -> P k) as Hall.
  { induction n as [|n IH]; intros k Hk.
    - destruct k; [done | simpl in Hk; lia].
    - destruct k as [|x k]; [done|].
      apply Hstep; [done|]. apply IH.
      rewrite length_drop. simpl in *. lia. }
  by apply (Hall (length l)).
Qed.

(** X21. Batching loses nothing: the batches of 32 prompts, put end to
    end, are the prompts in their order; no batch is empty or longer than
    32; and when the backend returns one output with a completion per
    prompt of every batch, there is one stripped prediction per prompt. *)
Theorem batches_cover_prompts (llm_generate : list string -> list RequestOutput)
    (prompts : list string) :
  concat (Summarization.batches Summarization.BATCH_SIZE prompts) = prompts /\
  Forall (fun batch => (1 <= length batch <= 32)%nat)
         (Summarization.batches Summarization.BATCH_SIZE prompts) /\
  ((forall batch,
       length (llm_generate batch) = length batch /\
       Forall (fun o => o <> []) (llm_generate batch)) ->
   exists preds,
     Summarization.predict_all llm_generate prompts = Some preds /\
     length preds = length prompts).
Proof.
  unfold Summarization.predict_all, Summarization.BATCH_SIZE.
  split; [|split].
  - revert prompts. apply (batches_ind 32); [lia | done |].
    intros l Hne IH.
    rewrite batches_unfold by (done || lia). simpl. rewrite IH.
    apply take_drop.
  - revert prompts. apply (batches_ind 32); [lia | |].
    + rewrite batches_nil by lia. constructor.
    + intros l Hne IH.
      rewrite batches_unfold by (done || lia). constructor; [|done].
      rewrite length_take. destruct l; [done | cbn [length]; lia].
  - intros Hllm.
    assert (forall outputs,
               Forall (fun o => o <> []) outputs ->
               exists preds, Summarization.collect outputs = Some preds /\
                             length preds = length outputs) as Hcollect.
    { induction 1 as [|o outputs Ho _ (preds & Hp & Hlen)]; simpl.
      - by exists [].
      - destruct o as [|text more]; [done|]. simpl. rewrite Hp. simpl.
        eexists. split; [done|]. simpl. by rewrite Hlen. }
    revert prompts. apply (batches_ind 32); [lia | |].
    + rewrite batches_nil by lia. by exists [].
    + intros l Hne (more & Hmore & Hlen).
      rewrite batches_unfold by (done || lia). simpl.
      destruct (Hllm (take 32 l)) as [Hn Hall].
      destruct (Hcollect _ Hall) as (preds & -> & Hp). simpl.
      rewrite Hmore. simpl. eexists. split; [done|].
      rewrite length_app. rewrite length_take in Hn.
      rewrite length_drop in Hlen. unfold RequestOutput in *. lia.
Qed.

Lemma batches_cover_prompts_witness :
  exists preds,
    Summarization.predict_all (fun batch => map (fun p => [codes p]) batch)
                              ["  one "; "two"] = Some preds /\
    length preds = 2%nat.
Proof.
  destruct (proj2 (proj2 (batches_cover_prompts
                            (fun batch => map (fun p => [codes p]) batch)
                            ["  one "; "two"])))
    as (preds & Hp & Hlen).
  - intros batch. split; [apply length_map|].
    induction batch; simpl; by constructor.
  - by exists preds.
Defined.

(** *** The whole run *)

Lemma preprocess_dataset_length (dataset : list RawItem) :
  length (preprocess_dataset dataset) = length dataset.
Proof. by rewrite preprocess_imap, length_imap. Qed.


Section WholeRun.

Variable tokenizer_encode : string -> list Z.
Variable llm_generate : list string -> list RequestOutput.

Lemma shrink_is_Some (max_model_len : Z) (use_cot : bool) (item : Item)
    (few_shot : list Item) (ks : list Z) (prev : string) :
  (forall k, is_Some (rebuild use_cot item few_shot k)) ->
  is_Some (shrink tokenizer_encode max_model_len use_cot item few_shot ks prev).
Proof.
  intros Hall. revert prev. induction ks as [|k ks IH]; intros prev; simpl.
  - by eexists.
  - destruct (Hall k) as [p ->]. simpl.
    destruct (token_len tokenizer_encode p <=? budget max_model_len);
      [by eexists | apply IH].
Qed.

Lemma build_prompt_is_Some (max_model_len : Z) (use_cot : bool)
    (val_by_category : gmap string (list Item)) (num_few_shot : Z)
    (item : Item) :
  is_Some (build_prompt tokenizer_encode max_model_len use_cot
                        val_by_category num_few_shot item) <->
  is_Some (format_prompt (question item) (options item) (category item)
             (if 0 <? num_few_shot
              then Some (select_few_shot val_by_category (category item)
                                         num_few_shot)
              else None) use_cot).
Proof.
  unfold build_prompt.
  set (few_shot := select_few_shot _ _ _).
  destruct (format_prompt _ _ _ _ _) as [p0|] eqn:Hp0; simpl.
  2: { split; by intros [? ?]. }
  split; [by eexists|]. intros _.
  destruct (token_len tokenizer_encode p0 >? budget max_model_len);
    [|by eexists].
  destruct (Z.ltb_spec 0 num_few_shot) as [Hk|Hk].
  - apply shrink_is_Some. intros k. apply rebuild_is_Some. by eexists.
  - rewrite range_down_neg by lia. by eexists.
Qed.

(** A run without a limit that completes, with a backend that returns
    one output per prompt, reports on every row of the test split, in the
    order of the rows. *)
Lemma evaluate_covers `{UnicodeData} (test_split validation_split : list RawItem)
    (max_model_len num_few_shot : Z) (use_cot : bool) (report : Report) :
  (forall prompts, length (llm_generate prompts) = length prompts) ->
  evaluate_mmlu_pro tokenizer_encode llm_generate test_split validation_split
                    max_model_len None num_few_shot use_cot = Some report ->
  total_questions (overall report) = Z.of_nat (length test_split) /\
  length (rows report) = length test_split /\
  forall i raw,
    test_split !! i = Some raw ->
    exists row,
      rows report !! i = Some row /\
      row_idx row = Z.of_nat i /\
      row_question_id row = default (Z.of_nat i) (raw_question_id raw) /\
      row_category row = raw_category raw.
Proof.
  intros Hllm. unfold evaluate_mmlu_pro. simpl.
  destruct (build_prompts _ _ _ _ _ (preprocess_dataset test_split))
    as [prompts|] eqn:Hp; [|done].
  simpl. intros Hscore.
  apply build_prompts_lookup in Hp as [Hlen _].
  rewrite preprocess_dataset_length in Hlen.
  destruct (score_total _ _ _ Hscore) as (Htot & _).
  rewrite length_zip_with, Hllm, Hlen, preprocess_dataset_length, Nat.min_id
    in Htot.
  split; [done|].
  unfold score in Hscore.
  destruct (score_loop 0 _ empty_tally) as [t|] eqn:Ht; [|done].
  injection Hscore as <-. simpl.
  apply score_loop_rows in Ht as (Hrows & _ & Hnew). simpl in Hrows, Hnew.
  rewrite length_zip_with, Hllm, Hlen, preprocess_dataset_length, Nat.min_id
    in Hrows.
  split; [done|].
  intros i raw Hi.
  assert (i < length (llm_generate prompts))%nat as Hout.
  { rewrite Hllm, Hlen. by apply lookup_lt_Some in Hi. }
  apply lookup_lt_is_Some in Hout as [output Hout].
  destruct (Hnew i (preprocess_item i raw) output)
    as (row & Hrow & Hidx & Hq & Hc & _).
  { apply lookup_zip_with_Some. exists (preprocess_item i raw), output.
    split; [done|]. split; [|done]. by rewrite preprocess_lookup, Hi. }
  exists row. by repeat split.
Qed.

(** C10. A limit of [0] is no limit: the run with [total_limit = 0] is
    the run with no limit, and when it completes, with a backend that
    returns one output per prompt, its report covers the entire test
    split: as many questions and rows as the split has rows, row [i]
    being that of test row [i].  A positive limit [n] keeps the first [n]
    test rows and nothing else: the run is the run on those rows, and its
    report covers them, [min(n, rows)] questions in all. *)
Theorem total_limit_zero_is_no_limit `{UnicodeData}
    (test_split validation_split : list RawItem)
    (max_model_len num_few_shot : Z) (use_cot : bool) :
  let run (total_limit : option Z) (split : list RawItem) :=
    evaluate_mmlu_pro tokenizer_encode llm_generate split validation_split
                      max_model_len total_limit num_few_shot use_cot in
  let covers (report : Report) (split : list RawItem) :=
    total_questions (overall report) = Z.of_nat (length split) /\
    length (rows report) = length split /\
    forall i raw,
      split !! i = Some raw ->
      exists row,
        rows report !! i = Some row /\
        row_idx row = Z.of_nat i /\
        row_question_id row = default (Z.of_nat i) (raw_question_id raw) /\
        row_category row = raw_category raw in
  run (Some 0) test_split = run None test_split /\
  (forall n, 0 < n ->
             run (Some n) test_split = run None (take (Z.to_nat n) test_split)) /\
  ((forall prompts, length (llm_generate prompts) = length prompts) ->
   (forall report,
       run (Some 0) test_split = Some report -> covers report test_split) /\
   (forall n report,
       0 < n ->
       run (Some n) test_split = Some report ->
       covers report (take (Z.to_nat n) test_split) /\
       total_questions (overall report)
         = Z.min n (Z.of_nat (length test_split)))).
Proof.
  intros run covers.
  assert (forall n, 0 < n ->
            run (Some n) test_split = run None (take (Z.to_nat n) test_split))
    as Hfirst.
  { intros n Hn. unfold run, evaluate_mmlu_pro.
    rewrite apply_total_limit_pos by done. simpl.
    by rewrite preprocess_take. }
  split; [done|]. split; [done|].
  intros Hllm. split.
  - intros report Hrun. by apply (evaluate_covers _ validation_split
                                    max_model_len num_few_shot use_cot).
  - intros n report Hn Hrun. rewrite Hfirst in Hrun by done.
    destruct (evaluate_covers _ _ _ _ _ _ Hllm Hrun) as (Htot & Hrows & Hall).
    split; [done|]. rewrite Htot, length_take. lia.
Qed.

(** X22. The prompts are built for all test items or for none: the loop
    raises exactly when [format_prompt] raises on the first prompt of
    some test item, that is the one with all the examples selected for
    it; shrinking never raises after that. *)
Theorem build_prompts_raises_iff (max_model_len : Z) (use_cot : bool)
    (val_by_category : gmap string (list Item)) (num_few_shot : Z)
    (test_data : list Item) :
  is_Some (build_prompts tokenizer_encode max_model_len use_cot
                         val_by_category num_few_shot test_data) <->
  forall item,
    item ∈ test_data ->
    is_Some (format_prompt (question item) (options item) (category item)
               (if 0 <? num_few_shot
                then Some (select_few_shot val_by_category (category item)
                                           num_few_shot)
                else None) use_cot).
Proof.
  induction test_data as [|item test_data IH]; simpl.
  - split; [intros _ item Hin; by apply elem_of_nil in Hin | by eexists].
  - pose proof (build_prompt_is_Some max_model_len use_cot val_by_category
                  num_few_shot item) as Hitem.
    destruct (build_prompt _ _ _ _ _ item) as [p|]; simpl.
    + destruct (build_prompts _ _ _ _ _ test_data) as [ps|]; simpl.
      * split; [|by eexists]. intros _ item' Hin.
        apply elem_of_cons in Hin as [-> | Hin];
          [apply Hitem; by eexists | apply IH; [by eexists | done]].
      * split; [by intros [? ?]|]. intros Hall.
        destruct (proj2 IH) as [? ?]; [|done].
        intros item' Hin. apply Hall. by right.
    + split; [by intros [? ?]|]. intros Hall.
      destruct (proj2 Hitem) as [? ?]; [|done]. apply Hall. by left.
Qed.

(** X23. With a backend that returns one output per prompt, a run that
    completes reports as many questions as there are test items left by
    the row limit: all of them without a limit or with a limit of 0,
    and the smaller of [n] and their number with a limit [n > 0]. *)
Theorem evaluate_total_questions `{UnicodeData}
    (test_split validation_split : list RawItem) (max_model_len : Z) (total_limit : option Z) (num_few_shot : Z)
    (use_cot : bool) (report : Report) :
  (forall prompts, length (llm_generate prompts) = length prompts) ->
  evaluate_mmlu_pro tokenizer_encode llm_generate test_split validation_split
                    max_model_len total_limit num_few_shot use_cot
    = Some report ->
  total_questions (overall report)
    = Z.of_nat (length (apply_total_limit total_limit test_split)) /\
  (total_limit = None \/ total_limit = Some 0 ->
   total_questions (overall report) = Z.of_nat (length test_split)) /\
  (forall n, total_limit = Some n -> 0 < n ->
   total_questions (overall report) = Z.min n (Z.of_nat (length test_split))).
Proof.
  intros Hllm. unfold evaluate_mmlu_pro.
  set (test_data := apply_total_limit total_limit (preprocess_dataset test_split)).
  destruct (build_prompts _ _ _ _ _ test_data) as [prompts|] eqn:Hp; [|done].
  simpl. intros Hscore.
  apply build_prompts_lookup in Hp as [Hlen _].
  destruct (score_total _ _ _ Hscore) as (Htot & _).
  rewrite length_zip_with, Hllm, Hlen, Nat.min_id in Htot.
  assert (length test_data = length (apply_total_limit total_limit test_split))
    as Hsame.
  { unfold test_data, apply_total_limit, slice_to.
    pose proof (preprocess_dataset_length test_split) as Hpre.
    destruct total_limit as [n|]; [|done].
    destruct (n =? 0); [done|].
    destruct (0 <=? n); rewrite !length_take, Hpre; done. }
  rewrite Htot, Hsame. split; [done|]. split.
  - by intros [-> | ->].
  - intros n -> Hn. rewrite apply_total_limit_pos, length_take by done. lia.
Qed.

End WholeRun.

(** Three rows and a limit of [0]: all three are scored. *)
Lemma total_limit_zero_is_no_limit_witness :
  exists report,
    evaluate_mmlu_pro Fixture.char_tokens
      (fun prompts => map (fun _ => [codes "The answer is (B)."]) prompts)
      [Fixture.raw_placeholder_last; Fixture.raw_placeholder_last;
       Fixture.raw_placeholder_first] []
      4096 (Some 0) 5 true = Some report /\
    total_questions (overall report) = 3.
Proof.
  assert (forall prompts : list string,
             length (map (fun _ : string => [codes "The answer is (B)."]) prompts)
             = length prompts) as Hllm by (intros; apply length_map).
  eexists. split; [vm_compute; reflexivity|].
  refine (proj1 (proj1 (proj2 (proj2 (total_limit_zero_is_no_limit
                   Fixture.char_tokens
                   (fun prompts => map (fun _ => [codes "The answer is (B)."]) prompts)
                   [Fixture.raw_placeholder_last; Fixture.raw_placeholder_last;
                    Fixture.raw_placeholder_first] []
                   4096 5 true)) Hllm) _ _)).
  vm_compute. reflexivity.
Defined.

Lemma evaluate_total_questions_witness :
  exists report,
    evaluate_mmlu_pro Fixture.char_tokens
      (fun prompts => map (fun _ => [codes "The answer is (B)."]) prompts)
      [Fixture.raw_placeholder_last; Fixture.raw_placeholder_last;
       Fixture.raw_placeholder_last] []
      4096 (Some 2) 5 true = Some report /\
    total_questions (overall report) = 2.
Proof.
  assert (forall prompts : list string,
             length (map (fun _ : string => [codes "The answer is (B)."]) prompts)
             = length prompts) as Hllm by (intros; apply length_map).
  eexists. split; [vm_compute; reflexivity|].
  refine (proj1 (evaluate_total_questions Fixture.char_tokens
                   (fun prompts => map (fun _ => [codes "The answer is (B)."]) prompts)
                   [Fixture.raw_placeholder_last; Fixture.raw_placeholder_last;
                    Fixture.raw_placeholder_last] []
                   4096 (Some 2) 5 true _ Hllm _)).
  vm_compute. reflexivity.
Defined.
